(** * Block-header and transaction stream synchronisation

    A shallow embedding of
    - [lib/BlockHeadersProvider/BlockHeadersProvider.js] (js-dapi-client), and
    - [plugins/Workers/TransactionsSyncWorker/TransactionsReader.js] (wallet-lib),
    together with the properties their specification states about them,
    and of the worker that drives the provider,
    [plugins/Workers/BlockHeadersSyncWorker/BlockHeadersSyncWorker.js]
    (wallet-lib), and [lib/decodeProtocolEntityFactory.js] (js-dpp), with
    further properties of the code.

    JavaScript numbers that hold block heights and counts are modelled as
    [Z]; handlers run to completion on a single-threaded event loop, so
    every handler is a function from the state it closes over to a
    completion, a new state and the list of calls it made to its
    collaborators. *)

From Stdlib Require Import ZArith Lia Sorted.
From stdpp Require Import base option list gmap strings pretty.

Local Open Scope Z_scope.

(** ** JavaScript values shared by both components *)

Inductive ErrorClass := ClassError | ClassSPVError | ClassTypeError.

(** An [Error] object: its class (for [instanceof]), its message and the
    optional gRPC status [code] that stream errors carry. *)
Record JsError := mkJsError {
  errClass : ErrorClass;
  message : string;
  code : option Z
}.

(** The double-quote character, for messages that contain one. *)
Definition dquote : string := String (Ascii.ascii_of_nat 34) EmptyString.

Definition newError (msg : string) : JsError := mkJsError ClassError msg None.
Definition newTypeError (msg : string) : JsError := mkJsError ClassTypeError msg None.
Definition newSPVError (msg : string) : JsError := mkJsError ClassSPVError msg None.

Definition instanceOfSPVError (e : JsError) : bool :=
  match errClass e with ClassSPVError => true | _ => false end.

(** How a statement list ends: normally with a value, or by [throw]. *)
Inductive Completion (A : Type) :=
| Normal (a : A)
| Throw (e : JsError).
Arguments Normal {A} a.
Arguments Throw {A} e.

(** ** A state, exception and call-log monad

    [Eff S E A] threads the mutable state [S], may throw, and records the
    calls made to collaborators as a list of [E]. *)
Module Eff.
Section Monad.
Context {S E : Type}.

Definition Eff (A : Type) : Type := S -> Completion A * S * list E.

Definition ret {A} (a : A) : Eff A := fun s => (Normal a, s, []).

Definition throw {A} (e : JsError) : Eff A := fun s => (Throw e, s, []).

Definition bind {A B} (m : Eff A) (k : A -> Eff B) : Eff B := fun s =>
  match m s with
  | (Normal a, s1, t1) =>
      match k a s1 with (c, s2, t2) => (c, s2, t1 ++ t2) end
  | (Throw e, s1, t1) => (Throw e, s1, t1)
  end.

Definition get : Eff S := fun s => (Normal s, s, []).
Definition put (s : S) : Eff unit := fun _ => (Normal tt, s, []).
Definition modify (f : S -> S) : Eff unit := fun s => (Normal tt, f s, []).
Definition call (e : E) : Eff unit := fun s => (Normal tt, s, [e]).

(** [try { m } catch (e) { h e }] *)
Definition try_catch {A} (m : Eff A) (h : JsError -> Eff A) : Eff A := fun s =>
  match m s with
  | (Normal a, s1, t1) => (Normal a, s1, t1)
  | (Throw e, s1, t1) =>
      match h e s1 with (c, s2, t2) => (c, s2, t1 ++ t2) end
  end.

(** [try { m } finally { f }]: [f] always runs; when it completes
    normally the completion of [m] stands. *)
Definition try_finally {A} (m : Eff A) (f : Eff unit) : Eff A := fun s =>
  match m s with
  | (c, s1, t1) =>
      match f s1 with
      | (Normal _, s2, t2) => (c, s2, t1 ++ t2)
      | (Throw e, s2, t2) => (Throw e, s2, t1 ++ t2)
      end
  end.

Definition completion {A} (r : Completion A * S * list E) : Completion A := r.1.1.
Definition final {A} (r : Completion A * S * list E) : S := r.1.2.
Definition calls {A} (r : Completion A * S * list E) : list E := r.2.

(** The event loop: handlers run to completion one after the other.
    [runAll step ins s] gives, for every input, what its handler
    completed with and which calls it made, and the state at the end. *)
Fixpoint runAll {I} (step : I -> Eff unit) (ins : list I) (s : S)
  : list (Completion unit * list E) * S :=
  match ins with
  | [] => ([], s)
  | i :: ins' =>
      let r := step i s in
      let rest := runAll step ins' (final r) in
      ((completion r, calls r) :: rest.1, rest.2)
  end.
End Monad.
Arguments Eff : clear implicits.
End Eff.
Import Eff.

Declare Scope eff_scope.
Delimit Scope eff_scope with eff.
Notation "'let*' x ':=' m 'in' k" := (bind m (fun x => k))
  (at level 10, x name, m at level 100, k at level 200) : eff_scope.
Notation "'do' m 'then' k" := (bind m (fun _ => k))
  (at level 10, m at level 100, k at level 200) : eff_scope.

(** ** The block-headers provider *)

Module BlockHeadersProvider.

Inductive STATES := IDLE | HISTORICAL_SYNC | CONTINUOUS_SYNC.

Global Instance STATES_eq_dec : EqDecision STATES.
Proof. solve_decision. Defined.

Definition STATES_name (s : STATES) : string :=
  match s with
  | IDLE => "IDLE"
  | HISTORICAL_SYNC => "HISTORICAL_SYNC"
  | CONTINUOUS_SYNC => "CONTINUOUS_SYNC"
  end.

(** The SPV chain the provider writes to: [hashesByHeight], [addHeaders],
    [validate] and [reset].  [addHeaders] and [validate] may throw. *)
Class SpvChain (Header Chain : Type) := {
  hashesByHeight : Chain -> gmap Z string;
  addHeaders : list Header -> Z -> Chain -> Completion (list Header) * Chain;
  validate : Chain -> Completion unit * Chain;
  reset : Z -> Chain -> Chain
}.

(** The methods of the reader the provider drives.  The reader is an event
    emitter; its listener table is kept in [Reader] below. *)
Class ReaderMethods (RS : Type) := {
  newBlockHeadersReader : RS;
  reader_readHistorical : Z -> Z -> RS -> Completion unit * RS;
  reader_subscribeToNew : Z -> RS -> Completion unit * RS;
  reader_stopReadingHistorical : RS -> RS;
  reader_unsubscribeFromNew : RS -> RS
}.

(** Events of [BlockHeadersReader.EVENTS] the provider listens to, and the
    bound methods it registers for them. *)
Inductive ReaderEvent := R_BLOCK_HEADERS | R_ERROR | R_HISTORICAL_DATA_OBTAINED.
Inductive Handler := HandleHeaders | HandleError | HandleHistoricalDataObtained.

Global Instance ReaderEvent_eq_dec : EqDecision ReaderEvent.
Proof. solve_decision. Defined.
Global Instance Handler_eq_dec : EqDecision Handler.
Proof. solve_decision. Defined.

Record Listener := mkListener {
  l_event : ReaderEvent;
  l_handler : Handler;
  l_once : bool
}.

Definition listens (ev : ReaderEvent) (h : Handler) (l : Listener) : bool :=
  bool_decide (l_event l = ev) && bool_decide (l_handler l = h).

(** [emitter.removeListener] removes at most one registration, the most
    recently added one. *)
Fixpoint remove_first (ev : ReaderEvent) (h : Handler) (ls : list Listener)
  : list Listener :=
  match ls with
  | [] => []
  | l :: ls' => if listens ev h l then ls' else l :: remove_first ev h ls'
  end.

Section Provider.
Context {Header Chain RS : Type}.
Context `{!SpvChain Header Chain} `{!ReaderMethods RS}.

Record Reader := mkReader {
  listeners : list Listener;
  internals : RS
}.

Definition on (ev : ReaderEvent) (h : Handler) (r : Reader) : Reader :=
  mkReader (listeners r ++ [mkListener ev h false]) (internals r).
Definition once (ev : ReaderEvent) (h : Handler) (r : Reader) : Reader :=
  mkReader (listeners r ++ [mkListener ev h true]) (internals r).
Definition removeListener (ev : ReaderEvent) (h : Handler) (r : Reader) : Reader :=
  mkReader (rev (remove_first ev h (rev (listeners r)))) (internals r).

(** [BlockHeadersProvider.EVENTS] with their arguments. *)
Inductive EVENTS :=
| ERROR (e : JsError)
| CHAIN_UPDATED (headers : list Header) (headHeight : Z)
| HISTORICAL_DATA_OBTAINED
| STOPPED.

(** Calls the provider makes to its collaborators. *)
Inductive Call :=
| Emit (ev : EVENTS)
| Reject (e : JsError)
| ChainAddHeaders (headers : list Header) (headHeight : Z)
| ChainValidate
| ChainReset (height : Z)
| NewBlockHeadersReader
| ReaderReadHistorical (fromBlockHeight toBlockHeight : Z)
| ReaderSubscribeToNew (fromBlockHeight : Z)
| ReaderStopReadingHistorical
| ReaderUnsubscribeFromNew.

(** The fields of a provider instance.  [coreMethods] records whether
    [setCoreMethods] was given an object.  The provider is an event emitter
    too: [errorListeners] counts the listeners its consumers attached to
    its [error] event, and [listenerThrows] tells for every event whether
    one of the listeners it is delivered to throws, and what. *)
Record Provider := mkProvider {
  state : STATES;
  coreMethods : bool;
  blockHeadersReader : option Reader;
  spvChain : Chain;
  wasmX11Ready : bool;
  errorListeners : nat;
  listenerThrows : EVENTS -> option JsError
}.

Definition set_state (s : STATES) (p : Provider) : Provider :=
  mkProvider s (coreMethods p) (blockHeadersReader p) (spvChain p)
    (wasmX11Ready p) (errorListeners p) (listenerThrows p).
Definition set_reader (r : option Reader) (p : Provider) : Provider :=
  mkProvider (state p) (coreMethods p) r (spvChain p)
    (wasmX11Ready p) (errorListeners p) (listenerThrows p).
Definition set_chain (c : Chain) (p : Provider) : Provider :=
  mkProvider (state p) (coreMethods p) (blockHeadersReader p) c
    (wasmX11Ready p) (errorListeners p) (listenerThrows p).
Definition set_wasmX11Ready (b : bool) (p : Provider) : Provider :=
  mkProvider (state p) (coreMethods p) (blockHeadersReader p) (spvChain p)
    b (errorListeners p) (listenerThrows p).

Local Abbreviation M := (Eff Provider Call).
Local Open Scope eff_scope.

(** [this.emit(event, ...)]: the listeners run inside the call, so what
    one of them throws comes out of it.  An [EventEmitter] that is asked
    to emit [error] while no listener is attached throws the error. *)
Definition emit (ev : EVENTS) : M unit :=
  do call (Emit ev) then
  let* p := get in
  let deliver : M unit :=
    match listenerThrows p ev with
    | Some thrown => throw thrown
    | None => ret tt
    end in
  match ev with
  | ERROR e => if Nat.eqb (errorListeners p) 0 then throw e else deliver
  | _ => deliver
  end.

(** A method call on [this.blockHeadersReader]; on [null] it is a
    [TypeError]. *)
Definition with_reader (f : Reader -> Reader) : M unit :=
  let* p := get in
  match blockHeadersReader p with
  | Some r => put (set_reader (Some (f r)) p)
  | None => throw (newTypeError "Cannot read properties of null")
  end.

Definition removeReaderListeners : M unit :=
  do with_reader (removeListener R_ERROR HandleError) then
  do with_reader (removeListener R_BLOCK_HEADERS HandleHeaders) then
  with_reader (removeListener R_HISTORICAL_DATA_OBTAINED HandleHistoricalDataObtained).

Definition destroyReader : M unit :=
  do removeReaderListeners then
  modify (set_reader None).

Definition handleError (e : JsError) : M unit :=
  do destroyReader then
  emit (ERROR e).

(** [init]: the hash function is set up once, a reader is built when none
    was injected, and the two permanent listeners are attached. *)
Definition init : M unit :=
  do modify (set_wasmX11Ready true) then
  let* p := get in
  do (match blockHeadersReader p with
      | Some _ => ret tt
      | None =>
          do call NewBlockHeadersReader then
          modify (set_reader (Some (mkReader [] newBlockHeadersReader)))
      end) then
  do with_reader (on R_BLOCK_HEADERS HandleHeaders) then
  with_reader (on R_ERROR HandleError).

(** A value read from [hashesByHeight] is truthy when it is a non-empty
    string; a missing key reads [undefined]. *)
Definition truthy (v : option string) : bool :=
  match v with
  | Some s => negb (String.eqb s "")
  | None => false
  end.

Definition ensureChainRoot (height : Z) : M unit :=
  let* p := get in
  if negb (truthy (hashesByHeight (spvChain p) !! (height - 1))) then
    do call (ChainReset height) then
    modify (set_chain (reset height (spvChain p)))
  else ret tt.

Definition readerCall (c : Call)
    (f : RS -> Completion unit * RS) : M unit :=
  let* p := get in
  match blockHeadersReader p with
  | None => throw (newTypeError "Cannot read properties of null")
  | Some r =>
      do call c then
      match f (internals r) with
      | (res, rs') =>
          do put (set_reader (Some (mkReader (listeners r) rs')) p) then
          match res with
          | Normal _ => ret tt
          | Throw e => throw e
          end
      end
  end.

Definition notConfigured : JsError :=
  newError ("Core methods have not been provided. Please use "
            +:+ dquote +:+ "setCoreMethods" +:+ dquote).

Definition busyHistorical (s : STATES) : JsError :=
  newError ("BlockHeaderProvider can not read historical data while being in "
            +:+ STATES_name s +:+ " state.").

Definition busyContinuous (s : STATES) : JsError :=
  newError ("BlockHeaderProvider can not sync continuous data while being in "
            +:+ STATES_name s +:+ " state.").

(** [readHistorical(fromBlockHeight = 1, toBlockHeight)]: an omitted first
    argument is [None].  The method is taken as a whole: no other method
    of the provider runs while it awaits [init] or the reader. *)
Definition readHistorical (fromBlockHeight : option Z) (toBlockHeight : Z) : M unit :=
  let fromBlockHeight := default 1 fromBlockHeight in
  let* p := get in
  if negb (coreMethods p) then throw notConfigured else
  if negb (bool_decide (state p = IDLE)) then throw (busyHistorical (state p)) else
  do init then
  do ensureChainRoot fromBlockHeight then
  do with_reader (once R_HISTORICAL_DATA_OBTAINED HandleHistoricalDataObtained) then
  do readerCall (ReaderReadHistorical fromBlockHeight toBlockHeight)
       (reader_readHistorical fromBlockHeight toBlockHeight) then
  modify (set_state HISTORICAL_SYNC).

Definition startContinuousSync (fromBlockHeight : Z) : M unit :=
  let* p := get in
  if negb (coreMethods p) then throw notConfigured else
  if negb (bool_decide (state p = IDLE)) then throw (busyContinuous (state p)) else
  do init then
  do ensureChainRoot fromBlockHeight then
  do readerCall (ReaderSubscribeToNew fromBlockHeight)
       (reader_subscribeToNew fromBlockHeight) then
  modify (set_state CONTINUOUS_SYNC).

Definition stop : M unit :=
  let* p := get in
  match state p with
  | IDLE => ret tt
  | s =>
      do (match s with
          | HISTORICAL_SYNC =>
              readerCall ReaderStopReadingHistorical
                (fun rs => (Normal tt, reader_stopReadingHistorical rs))
          | _ =>
              readerCall ReaderUnsubscribeFromNew
                (fun rs => (Normal tt, reader_unsubscribeFromNew rs))
          end) then
      do destroyReader then
      do modify (set_state IDLE) then
      emit STOPPED
  end.

(** [this.spvChain.addHeaders(headers, headHeight)] *)
Definition chainAddHeaders (headers : list Header) (headHeight : Z)
  : M (list Header) :=
  do call (ChainAddHeaders headers headHeight) then
  let* p := get in
  match addHeaders headers headHeight (spvChain p) with
  | (res, c') =>
      do put (set_chain c' p) then
      match res with
      | Normal added => ret added
      | Throw e => throw e
      end
  end.

Definition chainValidate : M unit :=
  do call ChainValidate then
  let* p := get in
  match validate (spvChain p) with
  | (res, c') =>
      do put (set_chain c' p) then
      match res with
      | Normal _ => ret tt
      | Throw e => throw e
      end
  end.

(** [handleHeaders(headersData, reject)]: [reject] is the one-shot callback
    the reader passes along with the batch; a call to it is logged as
    [Reject]. *)
Definition handleHeaders (headers : list Header) (headHeight : Z) : M unit :=
  try_catch
    (let* headersAdded := chainAddHeaders headers headHeight in
     if negb (Nat.eqb (length headersAdded) 0) then
       let difference :=
         Z.of_nat (length headers) - Z.of_nat (length headersAdded) in
       emit (CHAIN_UPDATED headersAdded (headHeight + difference))
     else ret tt)
    (fun e =>
       if instanceOfSPVError e then call (Reject e)
       else handleError e).

Definition handleHistoricalDataObtained : M unit :=
  try_finally
    (try_catch
       (do chainValidate then
        do emit HISTORICAL_DATA_OBTAINED then
        removeReaderListeners)
       (fun e => handleError e))
    (modify (set_state IDLE)).

(** The [CHAIN_UPDATED] and [error] events among a list of calls. *)
Definition chainUpdates (cs : list Call) : list (list Header * Z) :=
  omap (fun c => match c with
                 | Emit (CHAIN_UPDATED hs h) => Some (hs, h)
                 | _ => None
                 end) cs.

Definition errorsEmitted (cs : list Call) : list JsError :=
  omap (fun c => match c with Emit (ERROR e) => Some e | _ => None end) cs.

Definition rejections (cs : list Call) : list JsError :=
  omap (fun c => match c with Reject e => Some e | _ => None end) cs.

Definition historicalDataObtainedEmitted (cs : list Call) : nat :=
  length (omap (fun c => match c with
                         | Emit HISTORICAL_DATA_OBTAINED => Some tt
                         | _ => None
                         end) cs).
End Provider.

Arguments Reader : clear implicits.
Arguments Provider : clear implicits.
Arguments EVENTS : clear implicits.
Arguments Call : clear implicits.

End BlockHeadersProvider.

(** ** The transactions reader (streams filtered by a Bloom filter)

    The handlers and callbacks one stream is given are modelled over the
    variables they close over.  Every [this.emit] in them is the last
    statement of its handler (or sits in a [catch] callback that a
    [finally] callback follows), so what a listener throws changes nothing
    in the state; the emits are recorded as calls.  The callbacks take
    their arguments as the consumer of the reader passes them: [accept] on
    a historical stream is always given a list of new addresses. *)

Module TransactionsReader.

(** [GrpcErrorCodes.CANCELLED] *)
Definition CANCELLED : Z := 1.

Definition isCancelled (streamError : JsError) : bool :=
  bool_decide (code streamError = Some CANCELLED).

(** The two flags every merkle block's pair of callbacks closes over. *)
Record Latch := mkLatch {
  rejected : bool;
  accepted : bool
}.

Definition freshLatch : Latch := mkLatch false false.

(** The parsers of [./utils].  A Bloom filter is represented by the list
    of addresses [createBloomFilter] was given. *)
Class Utils (RawTransactions RawMerkleBlock Tx MerkleBlock : Type) := {
  parseRawTransactions : RawTransactions -> list string -> list Tx;
  parseRawMerkleBlock : RawMerkleBlock -> MerkleBlock
}.

Definition notAFunction : JsError := newTypeError "callback is not a function".
Definition unableToAccept : JsError := newError "Unable to accept rejected merkle block".
Definition unableToReject : JsError := newError "Unable to reject accepted merkle block".

(** *** Historical streams: [subscribeToHistoricalBatch] *)
Module Historical.

Record RestartArgs := mkRestartArgs {
  ra_fromBlockHeight : Z;
  ra_count : Z;
  ra_addresses : list string
}.

(** What the handlers of one [subscribeWithRetries] call can change:
    [this.historicalSyncStream], the retry counter of the enclosing
    [subscribeToHistoricalBatch], the two [let] variables of the call, the
    latches of the merkle blocks handed out so far, the promises of
    [subscribeWithRetries] the error handler started that have not settled
    yet ([true] for the retry branch) and the number of [cancel()] promises
    in flight. *)
Record Session := mkSession {
  historicalSyncStream : option nat;
  currentRetries : Z;
  lastSyncedBlockHeight : Z;
  restartArgs : option RestartArgs;
  blocks : list Latch;
  inFlight : list bool;
  cancelling : nat
}.

Definition set_stream (v : option nat) (s : Session) : Session :=
  mkSession v (currentRetries s) (lastSyncedBlockHeight s) (restartArgs s)
    (blocks s) (inFlight s) (cancelling s).
Definition set_currentRetries (v : Z) (s : Session) : Session :=
  mkSession (historicalSyncStream s) v (lastSyncedBlockHeight s) (restartArgs s)
    (blocks s) (inFlight s) (cancelling s).
Definition set_lastSynced (v : Z) (s : Session) : Session :=
  mkSession (historicalSyncStream s) (currentRetries s) v (restartArgs s)
    (blocks s) (inFlight s) (cancelling s).
Definition set_restartArgs (v : option RestartArgs) (s : Session) : Session :=
  mkSession (historicalSyncStream s) (currentRetries s) (lastSyncedBlockHeight s) v
    (blocks s) (inFlight s) (cancelling s).
Definition set_blocks (v : list Latch) (s : Session) : Session :=
  mkSession (historicalSyncStream s) (currentRetries s) (lastSyncedBlockHeight s)
    (restartArgs s) v (inFlight s) (cancelling s).
Definition set_inFlight (v : list bool) (s : Session) : Session :=
  mkSession (historicalSyncStream s) (currentRetries s) (lastSyncedBlockHeight s)
    (restartArgs s) (blocks s) v (cancelling s).
Definition set_cancelling (v : nat) (s : Session) : Session :=
  mkSession (historicalSyncStream s) (currentRetries s) (lastSyncedBlockHeight s)
    (restartArgs s) (blocks s) (inFlight s) v.

(** The latch of merkle block number [block] has its [rejected], or its
    [accepted], flag set. *)
Definition isRejected (block : nat) (s : Session) : Prop :=
  exists l, blocks s !! block = Some l /\ rejected l = true.
Definition isAccepted (block : nat) (s : Session) : Prop :=
  exists l, blocks s !! block = Some l /\ accepted l = true.

Section Handlers.
Context {RawTransactions RawMerkleBlock Tx MerkleBlock : Type}.
Context `{!Utils RawTransactions RawMerkleBlock Tx MerkleBlock}.

Inductive EVENTS :=
| HISTORICAL_TRANSACTIONS (transactions : list Tx)
| MERKLE_BLOCK (merkleBlock : MerkleBlock) (block : nat)
| HISTORICAL_DATA_OBTAINED
| ERROR (e : JsError).

Inductive Call :=
| Emit (ev : EVENTS)
| StreamCancel
| StreamDestroy (e : JsError)
| SubscribeWithRetries (args : RestartArgs).

(** What reaches the handlers: stream events, the consumer calling the
    callbacks of merkle block number [block], promises settling, and the
    handlers of the replacement streams writing the two variables they
    share with this one ([Sibling]). *)
Inductive Input :=
| Data (rawTransactions : option RawTransactions)
       (rawMerkleBlock : option RawMerkleBlock)
| AcceptMerkleBlock (block : nat) (height : Z) (newAddresses : list string)
| RejectMerkleBlock (block : nat) (e : JsError)
| StreamError (streamError : JsError)
| StreamEnd
| Settled (k : nat) (result : Completion nat)
| CancelRejected (e : JsError)
| Sibling (stream : option nat) (retries : Z).

(** The arguments of the [subscribeWithRetries] call and the bound of the
    enclosing [subscribeToHistoricalBatch]. *)
Variables (maxRetries fromBlockHeight count : Z) (addresses : list string).

Local Abbreviation M := (Eff Session Call).
Local Open Scope eff_scope.

Definition rangeError (height : Z) : JsError :=
  newError ("Merkle block height is greater than expected range: "
            +:+ pretty height +:+ " > " +:+ pretty (fromBlockHeight + count - 1)).

Definition dataHandler (rawTransactions : option RawTransactions)
    (rawMerkleBlock : option RawMerkleBlock) : M unit :=
  match rawTransactions, rawMerkleBlock with
  | Some raw, _ =>
      let transactions := parseRawTransactions raw addresses in
      if negb (Nat.eqb (length transactions) 0)
      then call (Emit (HISTORICAL_TRANSACTIONS transactions))
      else ret tt
  | None, Some raw =>
      let merkleBlock := parseRawMerkleBlock raw in
      let* s := get in
      do put (set_blocks (blocks s ++ [freshLatch]) s) then
      call (Emit (MERKLE_BLOCK merkleBlock (length (blocks s))))
  | None, None => ret tt
  end.

Definition set_latch (block : nat) (l : Latch) (s : Session) : Session :=
  set_blocks (<[block := l]> (blocks s)) s.

Definition acceptMerkleBlock (block : nat) (height : Z)
    (newAddresses : list string) : M unit :=
  let* s := get in
  match blocks s !! block with
  | None => throw notAFunction
  | Some l =>
      if rejected l then throw unableToAccept else
      do modify (set_latch block (mkLatch (rejected l) true)) then
      do modify (set_lastSynced height) then
      let blocksRead := height - fromBlockHeight + 1 in
      let remainingCount := count - blocksRead in
      if remainingCount =? 0 then ret tt else
      if remainingCount <? 0 then throw (rangeError height) else
      if negb (Nat.eqb (length newAddresses) 0) then
        do modify (set_restartArgs
                     (Some (mkRestartArgs (height + 1) remainingCount
                              (addresses ++ newAddresses)))) then
        do call StreamCancel then
        modify (fun s => set_cancelling (S (cancelling s)) s)
      else ret tt
  end.

Definition rejectMerkleBlock (block : nat) (e : JsError) : M unit :=
  let* s := get in
  match blocks s !! block with
  | None => throw notAFunction
  | Some l =>
      if accepted l then throw unableToReject else
      do modify (set_latch block (mkLatch true (accepted l))) then
      call (StreamDestroy e)
  end.

(** [subscribeWithRetries(...)] called from the error handler: the call
    is logged and its promise joins the ones in flight. *)
Definition resubscribe (args : RestartArgs) (retry : bool) : M unit :=
  do call (SubscribeWithRetries args) then
  modify (fun s => set_inFlight (inFlight s ++ [retry]) s).

Definition errorHandler (streamError : JsError) : M unit :=
  if isCancelled streamError then
    do modify (set_stream None) then
    let* s := get in
    match restartArgs s with
    | Some args => resubscribe args false
    | None => ret tt
    end
  else
    let* s := get in
    if currentRetries s <? maxRetries then
      match restartArgs s with
      | Some args => resubscribe args true
      | None =>
          let blocksRead := lastSyncedBlockHeight s - fromBlockHeight + 1 in
          let remainingCount := count - blocksRead in
          if remainingCount <=? 0 then ret tt else
          let args := mkRestartArgs (lastSyncedBlockHeight s + 1)
                        remainingCount addresses in
          do modify (set_restartArgs (Some args)) then
          resubscribe args true
      end
    else call (Emit (ERROR streamError)).

Definition endHandler : M unit :=
  let* s := get in
  match restartArgs s with
  | None => call (Emit HISTORICAL_DATA_OBTAINED)
  | Some _ => ret tt
  end.

(** The [then], [catch] and [finally] callbacks of the [k]-th promise in
    flight, run when it settles. *)
Definition settled (k : nat) (result : Completion nat) : M unit :=
  let* s := get in
  match inFlight s !! k with
  | None => ret tt
  | Some retry =>
      do put (set_inFlight (delete k (inFlight s)) s) then
      do (match result with
          | Normal newStream =>
              do modify (set_stream (Some newStream)) then
              if (retry : bool)
              then modify (fun s => set_currentRetries (currentRetries s + 1) s)
              else ret tt
          | Throw e => call (Emit (ERROR e))
          end) then
      modify (set_restartArgs None)
  end.

(** The [catch] of [stream.cancel()]. *)
Definition cancelRejected (e : JsError) : M unit :=
  let* s := get in
  match cancelling s with
  | O => ret tt
  | S n => do put (set_cancelling n s) then call (Emit (ERROR e))
  end.

Definition step (i : Input) : M unit :=
  match i with
  | Data rawTransactions rawMerkleBlock => dataHandler rawTransactions rawMerkleBlock
  | AcceptMerkleBlock block height newAddresses =>
      acceptMerkleBlock block height newAddresses
  | RejectMerkleBlock block e => rejectMerkleBlock block e
  | StreamError streamError => errorHandler streamError
  | StreamEnd => endHandler
  | Settled k result => settled k result
  | CancelRejected e => cancelRejected e
  | Sibling stream retries =>
      do modify (set_stream stream) then modify (set_currentRetries retries)
  end.

(** The state right after [subscribeWithRetries] has opened stream
    [stream]; the retry counter is the one of the enclosing scope. *)
Definition subscribed (stream : nat) (retries : Z) : Session :=
  mkSession (Some stream) retries (fromBlockHeight - 1) None [] [] 0.

(** A run of the handlers over a sequence of inputs. *)
Definition run (ins : list Input) (s : Session)
  : list (Completion unit * list Call) * Session :=
  runAll step ins s.

Definition isResubscribe (c : Call) : bool :=
  match c with SubscribeWithRetries _ => true | _ => false end.
Definition isStreamError (i : Input) : bool :=
  match i with StreamError _ => true | _ => false end.

(** The number of streams opened during a run, and of stream errors fed
    to it. *)
Definition reopened (out : list (Completion unit * list Call)) : nat :=
  length (List.filter isResubscribe (concat (map snd out))).
Definition streamErrors (ins : list Input) : nat :=
  length (List.filter isStreamError ins).

(** The heights the streams opened by a list of calls ask for. *)
Definition requested (cs : list Call) (h : Z) : Prop :=
  exists args,
    In (SubscribeWithRetries args) cs /\
    ra_fromBlockHeight args <= h < ra_fromBlockHeight args + ra_count args.

(** An [accept(height)] call on a merkle block that was handed out and
    is not rejected records [height] in [lastSyncedBlockHeight], whatever
    it does next. *)
Definition syncedBy (i : Input) (s : Session) : list Z :=
  match i with
  | AcceptMerkleBlock block height _ =>
      match blocks s !! block with
      | Some l => if rejected l then [] else [height]
      | None => []
      end
  | _ => []
  end.

(** The heights of the merkle blocks accepted during a run, in the order
    they were accepted. *)
Fixpoint acceptedHeights (ins : list Input) (s : Session) : list Z :=
  match ins with
  | [] => []
  | i :: ins' => syncedBy i s ++ acceptedHeights ins' (final (step i s))
  end.
End Handlers.

Arguments EVENTS : clear implicits.
Arguments Call : clear implicits.
Arguments Input : clear implicits.

End Historical.

(** *** Continuous streams: [startContinuousSync] *)
Module Continuous.

Record RestartArgs := mkRestartArgs {
  ra_fromBlockHeight : Z;
  ra_addresses : list string
}.

(** What the handlers of one [startContinuousSync] call can change:
    [this.continuousSyncStream], the three [let] variables of the call, the
    latches of the merkle blocks handed out so far, whether an
    [appendAddresses] callback was handed out, and the numbers of restart
    and [cancel()] promises in flight. *)
Record Session := mkSession {
  continuousSyncStream : option nat;
  restartArgs : option RestartArgs;
  addressesGenerated : list string;
  lastSyncedBlockHeight : Z;
  blocks : list Latch;
  appendAddressesGiven : bool;
  inFlight : nat;
  cancelling : nat
}.

Definition set_stream (v : option nat) (s : Session) : Session :=
  mkSession v (restartArgs s) (addressesGenerated s) (lastSyncedBlockHeight s)
    (blocks s) (appendAddressesGiven s) (inFlight s) (cancelling s).
Definition set_restartArgs (v : option RestartArgs) (s : Session) : Session :=
  mkSession (continuousSyncStream s) v (addressesGenerated s)
    (lastSyncedBlockHeight s) (blocks s) (appendAddressesGiven s) (inFlight s)
    (cancelling s).
Definition set_addressesGenerated (v : list string) (s : Session) : Session :=
  mkSession (continuousSyncStream s) (restartArgs s) v (lastSyncedBlockHeight s)
    (blocks s) (appendAddressesGiven s) (inFlight s) (cancelling s).
Definition set_lastSynced (v : Z) (s : Session) : Session :=
  mkSession (continuousSyncStream s) (restartArgs s) (addressesGenerated s) v
    (blocks s) (appendAddressesGiven s) (inFlight s) (cancelling s).
Definition set_blocks (v : list Latch) (s : Session) : Session :=
  mkSession (continuousSyncStream s) (restartArgs s) (addressesGenerated s)
    (lastSyncedBlockHeight s) v (appendAddressesGiven s) (inFlight s)
    (cancelling s).
Definition set_appendAddressesGiven (v : bool) (s : Session) : Session :=
  mkSession (continuousSyncStream s) (restartArgs s) (addressesGenerated s)
    (lastSyncedBlockHeight s) (blocks s) v (inFlight s) (cancelling s).
Definition set_inFlight (v : nat) (s : Session) : Session :=
  mkSession (continuousSyncStream s) (restartArgs s) (addressesGenerated s)
    (lastSyncedBlockHeight s) (blocks s) (appendAddressesGiven s) v
    (cancelling s).
Definition set_cancelling (v : nat) (s : Session) : Session :=
  mkSession (continuousSyncStream s) (restartArgs s) (addressesGenerated s)
    (lastSyncedBlockHeight s) (blocks s) (appendAddressesGiven s) (inFlight s) v.

(** The latch of merkle block number [block] has its [rejected], or its
    [accepted], flag set. *)
Definition isRejected (block : nat) (s : Session) : Prop :=
  exists l, blocks s !! block = Some l /\ rejected l = true.
Definition isAccepted (block : nat) (s : Session) : Prop :=
  exists l, blocks s !! block = Some l /\ accepted l = true.

(** [lastSyncedBlockHeight] is the last of the heights accepted so far, or
    still [fromBlockHeight] when none was. *)
Definition syncedThrough (fromBlockHeight : Z) (heights : list Z) (s : Session)
  : Prop :=
  lastSyncedBlockHeight s = default fromBlockHeight (last heights).

Section Handlers.
Context {RawTransactions RawMerkleBlock Tx MerkleBlock : Type}.
Context `{!Utils RawTransactions RawMerkleBlock Tx MerkleBlock}.

Inductive EVENTS :=
| NEW_TRANSACTIONS (transactions : list Tx)
| MERKLE_BLOCK (merkleBlock : MerkleBlock) (block : nat)
| ERROR (e : JsError).

(** [UpdateArguments] is a call of the function the transport passes to
    the [beforeReconnect] listeners: a Bloom filter and the new
    [fromBlockHeight] and [count]. *)
Inductive Call :=
| Emit (ev : EVENTS)
| StreamCancel
| StreamDestroy (e : JsError)
| StartContinuousSync (args : RestartArgs)
| UpdateArguments (bloomFilter : list string) (fromBlockHeight count : Z).

(** What reaches the handlers: stream events, the consumer calling
    [appendAddresses] or the callbacks of merkle block number [block],
    promises settling, and the handlers of a restarted stream writing
    [this.continuousSyncStream] ([Sibling]). *)
Inductive Input :=
| Data (rawTransactions : option RawTransactions)
       (rawMerkleBlock : option RawMerkleBlock)
| AppendAddresses (newAddresses : list string)
| AcceptMerkleBlock (block : nat) (height : Z)
| RejectMerkleBlock (block : nat) (e : JsError)
| StreamError (streamError : JsError)
| StreamEnd
| BeforeReconnect
| Settled (result : Completion nat)
| CancelRejected (e : JsError)
| Sibling (stream : option nat).

(** The arguments of the [startContinuousSync] call. *)
Variables (fromBlockHeight : Z) (addresses : list string).

Local Abbreviation M := (Eff Session Call).
Local Open Scope eff_scope.

Definition lesserError (height : Z) : JsError :=
  newError ("Merkle block height is lesser than expected startBlockHeight: "
            +:+ pretty height +:+ " < " +:+ pretty fromBlockHeight).

Definition appendAddresses (newAddresses : list string) : M unit :=
  let* s := get in
  if appendAddressesGiven s
  then put (set_addressesGenerated (addressesGenerated s ++ newAddresses) s)
  else throw notAFunction.

Definition dataHandler (rawTransactions : option RawTransactions)
    (rawMerkleBlock : option RawMerkleBlock) : M unit :=
  match rawTransactions, rawMerkleBlock with
  | Some raw, _ =>
      let transactions := parseRawTransactions raw addresses in
      if negb (Nat.eqb (length transactions) 0) then
        do modify (set_appendAddressesGiven true) then
        call (Emit (NEW_TRANSACTIONS transactions))
      else ret tt
  | None, Some raw =>
      let merkleBlock := parseRawMerkleBlock raw in
      let* s := get in
      do put (set_blocks (blocks s ++ [freshLatch]) s) then
      call (Emit (MERKLE_BLOCK merkleBlock (length (blocks s))))
  | None, None => ret tt
  end.

Definition set_latch (block : nat) (l : Latch) (s : Session) : Session :=
  set_blocks (<[block := l]> (blocks s)) s.

Definition acceptMerkleBlock (block : nat) (height : Z) : M unit :=
  let* s := get in
  match blocks s !! block with
  | None => throw notAFunction
  | Some l =>
      if rejected l then throw unableToAccept else
      if height <? fromBlockHeight then call (StreamDestroy (lesserError height)) else
      do modify (set_latch block (mkLatch (rejected l) true)) then
      do modify (set_lastSynced height) then
      if negb (Nat.eqb (length (addressesGenerated s)) 0) then
        do modify (set_restartArgs
                     (Some (mkRestartArgs (height + 1)
                              (addresses ++ addressesGenerated s)))) then
        do modify (set_addressesGenerated []) then
        do call StreamCancel then
        modify (fun s => set_cancelling (S (cancelling s)) s)
      else ret tt
  end.

Definition rejectMerkleBlock (block : nat) (e : JsError) : M unit :=
  let* s := get in
  match blocks s !! block with
  | None => throw notAFunction
  | Some l =>
      if accepted l then throw unableToReject else
      do modify (set_latch block (mkLatch true (accepted l))) then
      call (StreamDestroy e)
  end.

Definition errorHandler (streamError : JsError) : M unit :=
  if isCancelled streamError then
    do modify (set_stream None) then
    let* s := get in
    match restartArgs s with
    | Some args =>
        do call (StartContinuousSync args) then
        modify (fun s => set_inFlight (S (inFlight s)) s)
    | None => ret tt
    end
  else call (Emit (ERROR streamError)).

Definition beforeReconnectHandler : M unit :=
  let* s := get in
  match restartArgs s with
  | Some _ => ret tt
  | None =>
      let newFromBlockHeight :=
        if bool_decide (fromBlockHeight = lastSyncedBlockHeight s)
        then fromBlockHeight else lastSyncedBlockHeight s + 1 in
      let newAddresses :=
        if negb (Nat.eqb (length (addressesGenerated s)) 0)
        then addresses ++ addressesGenerated s else addresses in
      do call (UpdateArguments newAddresses newFromBlockHeight 0) then
      modify (set_addressesGenerated [])
  end.

Definition endHandler : M unit := modify (set_stream None).

(** The [then], [catch] and [finally] callbacks of a restart promise, run
    when it settles. *)
Definition settled (result : Completion nat) : M unit :=
  let* s := get in
  match inFlight s with
  | O => ret tt
  | S n =>
      do put (set_inFlight n s) then
      do (match result with
          | Normal newStream => modify (set_stream (Some newStream))
          | Throw e => call (Emit (ERROR e))
          end) then
      modify (set_restartArgs None)
  end.

Definition cancelRejected (e : JsError) : M unit :=
  let* s := get in
  match cancelling s with
  | O => ret tt
  | S n => do put (set_cancelling n s) then call (Emit (ERROR e))
  end.

Definition step (i : Input) : M unit :=
  match i with
  | Data rawTransactions rawMerkleBlock => dataHandler rawTransactions rawMerkleBlock
  | AppendAddresses newAddresses => appendAddresses newAddresses
  | AcceptMerkleBlock block height => acceptMerkleBlock block height
  | RejectMerkleBlock block e => rejectMerkleBlock block e
  | StreamError streamError => errorHandler streamError
  | StreamEnd => endHandler
  | BeforeReconnect => beforeReconnectHandler
  | Settled result => settled result
  | CancelRejected e => cancelRejected e
  | Sibling stream => modify (set_stream stream)
  end.

(** The state right after [startContinuousSync] has opened stream
    [stream]. *)
Definition subscribed (stream : nat) : Session :=
  mkSession (Some stream) None [] fromBlockHeight [] false 0 0.

Definition run (ins : list Input) (s : Session)
  : list (Completion unit * list Call) * Session :=
  runAll step ins s.

Definition isDestroy (c : Call) : bool :=
  match c with StreamDestroy _ => true | _ => false end.
Definition isRestart (c : Call) : bool :=
  match c with StartContinuousSync _ => true | _ => false end.
Definition isStreamError (i : Input) : bool :=
  match i with StreamError _ => true | _ => false end.

Definition reopened (out : list (Completion unit * list Call)) : nat :=
  length (List.filter isRestart (concat (map snd out))).
Definition streamErrors (ins : list Input) : nat :=
  length (List.filter isStreamError ins).

(** An [accept(height)] call that returned without destroying the stream
    has recorded [height] as synced. *)
Definition syncedBy (i : Input) (r : Completion unit * Session * list Call)
  : list Z :=
  match i, completion r with
  | AcceptMerkleBlock _ height, Normal _ =>
      if existsb isDestroy (calls r) then [] else [height]
  | _, _ => []
  end.

(** The heights of the merkle blocks accepted during a run, in the order
    they were accepted. *)
Fixpoint acceptedHeights (ins : list Input) (s : Session) : list Z :=
  match ins with
  | [] => []
  | i :: ins' =>
      let r := step i s in
      syncedBy i r ++ acceptedHeights ins' (final r)
  end.

(** The heights a subscription amended by [beforeReconnect] asks for:
    those from the [fromBlockHeight] passed to the updater upwards. *)
Definition requestedAgain (cs : list Call) (h : Z) : Prop :=
  exists bloomFilter newFromBlockHeight n,
    In (UpdateArguments bloomFilter newFromBlockHeight n) cs /\
    newFromBlockHeight <= h.
End Handlers.

Arguments EVENTS : clear implicits.
Arguments Call : clear implicits.
Arguments Input : clear implicits.

End Continuous.

End TransactionsReader.

(** ** The block-headers reader: the historical plan *)

Module BlockHeadersReader.

(** Modelled from the spec: [round(a / b)] and [ceil(a / b)] for integers
    with [0 < b], as [Math.round] and [Math.ceil] compute them: rounding
    goes to the nearest integer, halves upwards. *)
Definition round_div (a b : Z) : Z := (2 * a + b) / (2 * b).
Definition ceil_div (a b : Z) : Z := (a + b - 1) / b.

Record Options := mkOptions {
  maxParallelStreams : Z;
  targetBatchSize : Z
}.

(** Modelled from the spec: [total <= targetBatchSize * 1.4], in exact
    arithmetic. *)
Definition fitsOneStream (o : Options) (total : Z) : bool :=
  10 * total <=? 14 * targetBatchSize o.

(** Modelled from the spec:
    [min(round(total / targetBatchSize), maxParallelStreams)]. *)
Definition numStreams (o : Options) (total : Z) : Z :=
  Z.min (round_div total (targetBatchSize o)) (maxParallelStreams o).

Definition invalidRange (total : Z) : JsError :=
  newError ("Invalid total amount of headers to read: " +:+ pretty total).
Definition invalidHeight (fromBlockHeight : Z) : JsError :=
  newError ("Invalid fromBlockHeight value: " +:+ pretty fromBlockHeight).
Definition alreadyRunning : JsError :=
  newError "Historical streams are already running. Please stop them first.".

(** Modelled from the spec: [BlockHeadersReader.readHistorical] is missing
    from the sources (only its unit tests are there).  This is the
    partitioning of section 4.1.2: the pairs [(fromHeight, count)] of the
    sub-streams to open, in the order they are opened. *)
Definition partition (o : Options) (fromHeight total : Z) : list (Z * Z) :=
  if fitsOneStream o total then [(fromHeight, total)]
  else
    let n := numStreams o total in
    let per := ceil_div total n in
    map (fun i => (fromHeight + i * per, per)) (seqZ 0 (n - 1))
      ++ [(fromHeight + (n - 1) * per, total - per * (n - 1))].

(** Modelled from the spec: the guards of [readHistorical] (section 4.1.1)
    in front of [partition]; [live] tells whether a historical plan is
    running. *)
Definition readHistorical (o : Options) (live : bool) (fromHeight toHeight : Z)
  : Completion (list (Z * Z)) :=
  let total := toHeight - fromHeight + 1 in
  if live then Throw alreadyRunning
  else if fromHeight <? 1 then Throw (invalidHeight fromHeight)
  else if total <? 1 then Throw (invalidRange total)
  else Normal (partition o fromHeight total).

Definition sizes (plan : list (Z * Z)) : list Z := map snd plan.

Fixpoint sumZ (l : list Z) : Z :=
  match l with
  | [] => 0
  | x :: l' => x + sumZ l'
  end.

End BlockHeadersReader.

(** ** Stand-ins for the collaborators

    Scripted collaborators in the style of the unit tests' stubs: a chain
    whose [addHeaders] and [validate] answer what they were told to, and a
    reader whose methods succeed. *)

Module Stubs.
Import BlockHeadersProvider.

Record StubChain := mkStubChain {
  stub_hashes : gmap Z string;
  stub_addHeaders : list Z -> Completion (list Z);
  stub_validate : Completion unit
}.

#[export] Instance stubSpvChain : SpvChain Z StubChain := {|
  hashesByHeight c := stub_hashes c;
  addHeaders headers _ c := (stub_addHeaders c headers, c);
  validate c := (stub_validate c, c);
  reset _ c := mkStubChain ∅ (stub_addHeaders c) (stub_validate c)
|}.

#[export] Instance stubReader : ReaderMethods unit := {|
  newBlockHeadersReader := tt;
  reader_readHistorical _ _ rs := (Normal tt, rs);
  reader_subscribeToNew _ rs := (Normal tt, rs);
  reader_stopReadingHistorical rs := rs;
  reader_unsubscribeFromNew rs := rs
|}.

(** A chain that has the genesis hash and accepts every header. *)
Definition acceptingChain : StubChain :=
  mkStubChain {[ 0 := "0x000000001" ]} (fun hs => Normal hs) (Normal tt).

(** The same chain, dropping the last header of every batch. *)
Definition droppingChain : StubChain :=
  mkStubChain {[ 0 := "0x000000001" ]}
    (fun hs => Normal (take (length hs - 1) hs)) (Normal tt).

Definition throwingChain (e : JsError) : StubChain :=
  mkStubChain {[ 0 := "0x000000001" ]} (fun _ => Throw e) (Throw e).

(** A provider as the unit tests set it up: core methods and a reader
    injected, one listener on [error]. *)
Definition provider (st : STATES) (c : StubChain) : Provider Z StubChain unit :=
  mkProvider st true (Some (mkReader [] tt)) c false 1 (fun _ => None).

#[export] Instance stubUtils
  : TransactionsReader.Utils (list string) string string string := {|
  TransactionsReader.parseRawTransactions raw _ := raw;
  TransactionsReader.parseRawMerkleBlock raw := raw
|}.

Import TransactionsReader.

(** A stream error with the gRPC status [CANCELLED]. *)
Definition cancelled : JsError := mkJsError ClassError "Cancelled on client" (Some 1).

(** A historical stream for heights 1 to 10 and a continuous stream from
    height 100, each after its first merkle block has arrived. *)
Definition historical1 : Historical.Session :=
  (Historical.run (RawTransactions := list string) 10 1 10 ["a"]
     [Historical.Data None (Some "block")]
     (Historical.subscribed 1 0 0)).2.
Definition continuous100 : Continuous.Session :=
  (Continuous.run (RawTransactions := list string) 100 ["a"]
     [Continuous.Data None (Some "block")]
     (Continuous.subscribed 100 0)).2.

(** A historical stream on which [accept(3, ["b"])] has scheduled a
    restart, and a continuous stream on which [accept(100)] has after an
    address was appended. *)
Definition historicalPending : Historical.Session :=
  (Historical.run (RawTransactions := list string) 10 1 10 ["a"]
     [Historical.Data None (Some "block");
      Historical.AcceptMerkleBlock 0 3 ["b"]]
     (Historical.subscribed 1 0 0)).2.
Definition continuousPending : Continuous.Session :=
  (Continuous.run (RawTransactions := list string) 100 ["a"]
     [Continuous.Data (Some ["tx"]) None;
      Continuous.AppendAddresses ["b"];
      Continuous.Data None (Some "block");
      Continuous.AcceptMerkleBlock 0 100]
     (Continuous.subscribed 100 0)).2.

End Stubs.

(** ** The transactions reader: starting and stopping a sync

    [startHistoricalSync], [startContinuousSync] and
    [stopReadingHistorical] read [this.historicalSyncStream] and
    [this.continuousSyncStream] and call the stream factories the reader
    was constructed with; [created] is what the factory answers, a stream
    or a rejection.  An [addresses] argument that was left out is [None].
    What the methods return on success is the state of the handlers of the
    stream they opened. *)

Module TransactionsReaderMethods.
Import TransactionsReader.

Inductive Call :=
| CreateHistoricalSyncStream (bloomFilter : list string) (fromBlockHeight count : Z)
| CreateContinuousSyncStream (bloomFilter : list string) (fromBlockHeight count : Z)
| Cancel (stream : nat).

Definition alreadyInProcess : JsError :=
  newError "Historical sync is already in process".
Definition noAddresses : JsError := newError "No addresses to sync".
Definition invalidFromBlockHeight (fromBlockHeight : Z) : JsError :=
  newError ("Invalid fromBlockHeight: " +:+ pretty fromBlockHeight).
Definition invalidTotalAmount (totalAmount : Z) : JsError :=
  newError ("Invalid total amount of blocks to sync: " +:+ pretty totalAmount).
Definition alreadyStarted : JsError :=
  newError "Continuous sync has already been started".
Definition invalidAddresses : JsError := newError "Invalid addresses: undefined".
Definition emptyAddresses : JsError := newError "Empty addresses list provided".

Definition startHistoricalSync (historicalSyncStream : option nat)
    (fromBlockHeight toBlockHeight : Z) (addresses : option (list string))
    (created : Completion nat)
  : Completion Historical.Session * list Call :=
  match historicalSyncStream with
  | Some _ => (Throw alreadyInProcess, [])
  | None =>
      match addresses with
      | None | Some [] => (Throw noAddresses, [])
      | Some addresses =>
          if fromBlockHeight <? 1
          then (Throw (invalidFromBlockHeight fromBlockHeight), []) else
          let totalAmount := toBlockHeight - fromBlockHeight + 1 in
          if totalAmount <=? 0
          then (Throw (invalidTotalAmount totalAmount), []) else
          let count := toBlockHeight - fromBlockHeight + 1 in
          (match created with
           | Normal stream =>
               Normal (Historical.subscribed fromBlockHeight stream 0)
           | Throw e => Throw e
           end,
           [CreateHistoricalSyncStream addresses fromBlockHeight count])
      end
  end.

Definition startContinuousSync (continuousSyncStream : option nat)
    (fromBlockHeight : Z) (addresses : option (list string))
    (created : Completion nat)
  : Completion Continuous.Session * list Call :=
  match continuousSyncStream with
  | Some _ => (Throw alreadyStarted, [])
  | None =>
      match addresses with
      | None => (Throw invalidAddresses, [])
      | Some [] => (Throw emptyAddresses, [])
      | Some addresses =>
          if fromBlockHeight <? 1
          then (Throw (invalidFromBlockHeight fromBlockHeight), []) else
          (match created with
           | Normal stream => Normal (Continuous.subscribed fromBlockHeight stream)
           | Throw e => Throw e
           end,
           [CreateContinuousSyncStream addresses fromBlockHeight 0])
      end
  end.

Definition stopReadingHistorical (historicalSyncStream : option nat) : list Call :=
  match historicalSyncStream with
  | Some stream => [Cancel stream]
  | None => []
  end.

End TransactionsReaderMethods.

(** ** The block-headers sync worker (wallet-lib)

    The worker drives the provider: [onStart] reads the historical
    headers, [execute] follows the new ones.  [onStart] is modelled up to
    the point where it awaits the promise its listeners settle, and the
    listeners carry its continuation.  The worker is the revision that
    computes where to start in [getStartBlockHeight]; the handler of
    [CHAIN_UPDATED] is the arrow function of the other revision,
    [BlockHeadersSyncWorker.js], which closes over the worker. *)

Module BlockHeadersSyncWorker.

(** A JavaScript number as the worker meets them: an integer or [NaN]
    (heights and counts are integers; fractions and the infinities are
    left out).  [typeof NaN] is ['number'], arithmetic on [NaN] gives
    [NaN], and every comparison with [NaN], [===] included, is false. *)
Inductive JsNumber := Num (z : Z) | NaN.

Definition js_lt (a b : JsNumber) : bool :=
  match a, b with
  | Num x, Num y => x <? y
  | _, _ => false
  end.
Definition js_gt (a b : JsNumber) : bool :=
  match a, b with
  | Num x, Num y => x >? y
  | _, _ => false
  end.
Definition js_strict_eq (a b : JsNumber) : bool :=
  match a, b with
  | Num x, Num y => x =? y
  | _, _ => false
  end.
Definition js_sub (a b : JsNumber) : JsNumber :=
  match a, b with
  | Num x, Num y => Num (x - y)
  | _, _ => NaN
  end.

Definition printNumber (a : JsNumber) : string :=
  match a with
  | Num x => pretty x
  | NaN => "NaN"
  end.

Definition MIN_HEADERS_TO_KEEP : Z := 100.
Definition MAX_HEADERS_TO_KEEP : Z := 5000.

Inductive STATES := IDLE | HISTORICAL_SYNC | CONTINUOUS_SYNC.

Global Instance WorkerSTATES_eq_dec : EqDecision STATES.
Proof. solve_decision. Defined.

Definition STATES_name (s : STATES) : string :=
  match s with
  | IDLE => "STATE_IDLE"
  | HISTORICAL_SYNC => "STATE_HISTORICAL_SYNC"
  | CONTINUOUS_SYNC => "STATE_CONTINUOUS_SYNC"
  end.

(** [storage.application.syncOptions]; [skipSynchronizationBeforeHeight]
    is [None] when [typeof] does not say ['number']. *)
Record SyncOptions := mkSyncOptions {
  skipSynchronizationBeforeHeight : option JsNumber;
  skipSynchronization : bool
}.

(** The two fields of [chainStore.state] the worker reads; a field is
    [None] when it was never written ([undefined]), so that [typeof] does
    not say ['number']. *)
Record ChainState := mkChainState {
  blockHeight : option JsNumber;
  lastSyncedHeaderHeight : option JsNumber
}.

(** The fields of a worker.  [historicalSync] is the [bestBlockHeight] of
    an [onStart] call that awaits its promise. *)
Record Worker := mkWorker {
  maxHeadersToKeep : JsNumber;
  syncCheckpoint : JsNumber;
  state : STATES;
  historicalSync : option JsNumber
}.

Definition set_syncCheckpoint (v : JsNumber) (w : Worker) : Worker :=
  mkWorker (maxHeadersToKeep w) v (state w) (historicalSync w).
Definition set_state (v : STATES) (w : Worker) : Worker :=
  mkWorker (maxHeadersToKeep w) (syncCheckpoint w) v (historicalSync w).
Definition set_historicalSync (v : option JsNumber) (w : Worker) : Worker :=
  mkWorker (maxHeadersToKeep w) (syncCheckpoint w) (state w) v.

Definition tooFewHeaders (maxHeadersToKeep : JsNumber) : JsError :=
  newError ("Max headers to keep must be greater than "
            +:+ pretty MIN_HEADERS_TO_KEEP +:+ ", got "
            +:+ printNumber maxHeadersToKeep).

(** [new BlockHeadersSyncWorker(options)]; the argument is
    [options.maxHeadersToKeep] when [typeof] says ['number'], which it
    does for [NaN] too. *)
Definition constructor (maxHeadersToKeep : option JsNumber) : Completion Worker :=
  let maxHeadersToKeep := default (Num MAX_HEADERS_TO_KEEP) maxHeadersToKeep in
  if js_lt maxHeadersToKeep (Num MIN_HEADERS_TO_KEEP)
  then Throw (tooFewHeaders maxHeadersToKeep)
  else Normal (mkWorker maxHeadersToKeep (Num (-1)) IDLE None).

(** [getStartBlockHeight()]; [syncOptions] is [None] when the storage has
    none.  [bestBlockHeight] is read without a [typeof] test: subtracting
    from [undefined] gives [NaN]. *)
Definition getStartBlockHeight (w : Worker) (chainStore : ChainState)
    (syncOptions : option SyncOptions) : JsNumber :=
  let bestBlockHeight := default NaN (blockHeight chainStore) in
  let options := default (mkSyncOptions None false) syncOptions in
  if skipSynchronization options then
    let syncFrom := js_sub bestBlockHeight (maxHeadersToKeep w) in
    if js_lt syncFrom (Num 1) then Num 1 else syncFrom
  else
    let lastSyncedHeaderHeight :=
      default (Num (-1)) (lastSyncedHeaderHeight chainStore) in
    let skipBefore :=
      default (Num (-1)) (skipSynchronizationBeforeHeight options) in
    if js_gt skipBefore lastSyncedHeaderHeight then skipBefore
    else if js_gt lastSyncedHeaderHeight (Num (-1)) then lastSyncedHeaderHeight
    else Num 1.

(** The events of the provider the worker listens to and the listeners it
    attaches. *)
Inductive ProviderEvent :=
| P_CHAIN_UPDATED | P_ERROR | P_HISTORICAL_DATA_OBTAINED | P_STOPPED.

Inductive WorkerListener :=
| HistoricalChainUpdateHandler
| ContinuousChainUpdateHandler
| BlockHeadersProviderErrorHandler
| HistoricalDataObtainedHandler
| BlockHeadersProviderStopHandler.

(** [EmitNamed] is [parentEvents.emit] given an [Error] object where the
    name of the event belongs. *)
Inductive Call :=
| ProviderOn (ev : ProviderEvent) (listener : WorkerListener)
| ProviderOnce (ev : ProviderEvent) (listener : WorkerListener)
| ProviderRemoveListener (ev : ProviderEvent) (listener : WorkerListener)
| ProviderReadHistorical (fromBlockHeight toBlockHeight : JsNumber)
| ProviderStartContinuousSync (fromBlockHeight : JsNumber)
| UpdateProgress
| EmitNamed (e : JsError)
| GetBlockByHeight (height : Z).

Definition alreadyRunning (s : STATES) : JsError :=
  newError ("Worker is already running: " +:+ STATES_name s
            +:+ ". Please call .onStop() first.").
Definition invalidBestBlockHeight (bestBlockHeight : JsNumber) : JsError :=
  newError ("Invalid best block height " +:+ printNumber bestBlockHeight).
Definition startGreaterThanBest (startFrom bestBlockHeight : JsNumber)
  : JsError :=
  newError ("Start block height " +:+ printNumber startFrom
            +:+ " is greater than best block height "
            +:+ printNumber bestBlockHeight).
Definition checkpointNotReached (syncCheckpoint bestBlockHeight : JsNumber)
  : JsError :=
  newError ("Sync checkpoint is not equal to best block height: "
            +:+ printNumber syncCheckpoint +:+ " !== "
            +:+ printNumber bestBlockHeight
            +:+ ". Please read historical data first.").
Definition heightRegressed (newChainHeight blockHeight : Z) : JsError :=
  newError ("New chain height " +:+ pretty newChainHeight
            +:+ " is less than latest height " +:+ pretty blockHeight).

Local Abbreviation M := (Eff Worker Call).
Local Open Scope eff_scope.

(** [onStart()] up to [await historicalSyncPromise]; [read] is what the
    provider's [readHistorical] completes with. *)
Definition onStart (chainStore : ChainState) (syncOptions : option SyncOptions)
    (read : Completion unit) : M unit :=
  let* w := get in
  if negb (bool_decide (state w = IDLE)) then throw (alreadyRunning (state w)) else
  let startFrom := getStartBlockHeight w chainStore syncOptions in
  let startFrom :=
    if js_lt startFrom (syncCheckpoint w) then syncCheckpoint w else startFrom in
  let bestBlockHeight := default (Num (-1)) (blockHeight chainStore) in
  if js_lt bestBlockHeight (Num 1)
  then throw (invalidBestBlockHeight bestBlockHeight) else
  if js_gt startFrom bestBlockHeight
  then throw (startGreaterThanBest startFrom bestBlockHeight) else
  do call (ProviderOn P_CHAIN_UPDATED HistoricalChainUpdateHandler) then
  do call (ProviderOn P_ERROR BlockHeadersProviderErrorHandler) then
  do call (ProviderOnce P_HISTORICAL_DATA_OBTAINED HistoricalDataObtainedHandler) then
  do call (ProviderOnce P_STOPPED BlockHeadersProviderStopHandler) then
  do call (ProviderReadHistorical startFrom bestBlockHeight) then
  do (match read with
      | Normal _ => ret tt
      | Throw e => throw e
      end) then
  do modify (set_state HISTORICAL_SYNC) then
  modify (set_historicalSync (Some bestBlockHeight)).

(** What follows [await historicalSyncPromise] once the promise is
    resolved; [progress] is what [updateProgress()] completes with.
    Resolving a promise that has settled does nothing. *)
Definition resolved (stopped : bool) (progress : Completion unit) : M unit :=
  let* w := get in
  match historicalSync w with
  | None => ret tt
  | Some bestBlockHeight =>
      do modify (set_historicalSync None) then
      do call UpdateProgress then
      do (match progress with
          | Normal _ => ret tt
          | Throw e => throw e
          end) then
      do (if (stopped : bool) then ret tt
          else modify (set_syncCheckpoint bestBlockHeight)) then
      modify (set_state IDLE)
  end.

(** The three listeners [onStart] attaches to the provider, all arrow
    functions.  Each is given with the continuation of [onStart] it sets
    off, so its completion is the one of the [onStart] call. *)
Definition historicalDataObtainedHandler (progress : Completion unit) : M unit :=
  do call (ProviderRemoveListener P_CHAIN_UPDATED HistoricalChainUpdateHandler) then
  do call (ProviderRemoveListener P_ERROR BlockHeadersProviderErrorHandler) then
  do call (ProviderRemoveListener P_STOPPED BlockHeadersProviderStopHandler) then
  resolved false progress.

Definition historicalStopHandler (progress : Completion unit) : M unit :=
  do call (ProviderRemoveListener P_CHAIN_UPDATED HistoricalChainUpdateHandler) then
  do call (ProviderRemoveListener P_ERROR BlockHeadersProviderErrorHandler) then
  do call (ProviderRemoveListener P_HISTORICAL_DATA_OBTAINED
             HistoricalDataObtainedHandler) then
  resolved true progress.

Definition historicalErrorHandler (e : JsError) : M unit :=
  let* w := get in
  match historicalSync w with
  | None => ret tt
  | Some _ =>
      do modify (set_historicalSync None) then
      throw e
  end.

(** [execute()]; [started] is what the provider's [startContinuousSync]
    completes with. *)
Definition execute (chainStore : ChainState) (started : Completion unit) : M unit :=
  let* w := get in
  if negb (bool_decide (state w = IDLE)) then throw (alreadyRunning (state w)) else
  let bestBlockHeight := default (Num (-1)) (blockHeight chainStore) in
  if negb (js_strict_eq (syncCheckpoint w) bestBlockHeight)
  then throw (checkpointNotReached (syncCheckpoint w) bestBlockHeight) else
  do call (ProviderOn P_CHAIN_UPDATED ContinuousChainUpdateHandler) then
  do call (ProviderOn P_ERROR BlockHeadersProviderErrorHandler) then
  do call (ProviderOnce P_STOPPED BlockHeadersProviderStopHandler) then
  do call (ProviderStartContinuousSync (syncCheckpoint w)) then
  do (match started with
      | Normal _ => ret tt
      | Throw e => throw e
      end) then
  modify (set_state CONTINUOUS_SYNC).

(** The listener [execute] attaches for [STOPPED], an arrow function. *)
Definition continuousStopHandler : M unit :=
  do call (ProviderRemoveListener P_CHAIN_UPDATED ContinuousChainUpdateHandler) then
  do call (ProviderRemoveListener P_ERROR BlockHeadersProviderErrorHandler) then
  modify (set_state IDLE).

(** [chainUpdateHandler(newHeaders, batchHeadHeight)], the arrow function
    [execute] of [BlockHeadersSyncWorker.js] attaches to [CHAIN_UPDATED],
    up to its first [await]: the height the batch brings the chain to,
    and what the handler does about it.  Being an arrow function it reads
    the worker's storage whoever calls it.  A [blockHeight] that is no
    number, or [NaN], is neither equal to that height nor above it. *)
Definition newChainHeight {Header} (newHeaders : list Header) (batchHeadHeight : Z)
  : Z :=
  if (1 <? length newHeaders)%nat
  then batchHeadHeight + (Z.of_nat (length newHeaders) - 1)
  else batchHeadHeight.

Definition chainUpdateHandler {Header} (newHeaders : list Header)
    (batchHeadHeight : Z) (chainStore : ChainState) : list Call :=
  let newChainHeight := newChainHeight newHeaders batchHeadHeight in
  match blockHeight chainStore with
  | Some (Num blockHeight) =>
      if newChainHeight =? blockHeight then []
      else if newChainHeight <? blockHeight
      then [EmitNamed (heightRegressed newChainHeight blockHeight)]
      else [GetBlockByHeight newChainHeight]
  | _ => [GetBlockByHeight newChainHeight]
  end.

End BlockHeadersSyncWorker.

(** ** Decoding a serialised protocol entity (js-dpp)

    [decodeProtocolEntityFactory(versionCompatibilityMap)] returns
    [decodeProtocolEntity]; the map is an object keyed by protocol
    versions. *)

Module DecodeProtocolEntity.

Inductive ConsensusError :=
| ProtocolVersionParsingError (message : string)
| UnsupportedProtocolVersionError (protocolVersion currentProtocolVersion : Z)
| CompatibleProtocolVersionIsNotDefinedError (currentProtocolVersion : Z)
| IncompatibleProtocolVersionError (protocolVersion minimalProtocolVersion : Z)
| SerializedObjectParsingError (message : string).

Definition byteValue (b : Byte.byte) : Z := Z.of_N (Byte.to_N b).

(** [buf.readUInt32LE(0)]: out of range when the buffer has fewer than
    four bytes. *)
Definition readUInt32LE (buf : list Byte.byte) : option Z :=
  match buf with
  | b0 :: b1 :: b2 :: b3 :: _ =>
      Some (byteValue b0 + byteValue b1 * 2 ^ 8 + byteValue b2 * 2 ^ 16
            + byteValue b3 * 2 ^ 24)
  | _ => None
  end.

(** [buf.slice(start, end)] for [0 <= start <= end]. *)
Definition slice (start finish : nat) (buf : list Byte.byte) : list Byte.byte :=
  take (finish - start) (drop start buf).

Section Decode.
(** [decode] of [./util/serializer], which answers with an entity or
    throws an error with a message, and the message of the error
    [readUInt32LE] throws. *)
Context {Entity : Type}.
Variable decode : list Byte.byte -> string + Entity.
Variable outOfRange : string.

Definition decodeProtocolEntity (versionCompatibilityMap : gmap Z Z)
    (buffer : list Byte.byte) (currentProtocolVersion : Z)
  : ConsensusError + (Z * Entity) :=
  match readUInt32LE (slice 0 4 buffer) with
  | None => inl (ProtocolVersionParsingError outOfRange)
  | Some protocolVersion =>
      if protocolVersion >? currentProtocolVersion
      then inl (UnsupportedProtocolVersionError protocolVersion
                  currentProtocolVersion) else
      match versionCompatibilityMap !! currentProtocolVersion with
      | None => inl (CompatibleProtocolVersionIsNotDefinedError
                       currentProtocolVersion)
      | Some minimalProtocolVersion =>
          if protocolVersion <? minimalProtocolVersion
          then inl (IncompatibleProtocolVersionError protocolVersion
                      minimalProtocolVersion) else
          match decode (slice 4 (length buffer) buffer) with
          | inl message => inl (SerializedObjectParsingError message)
          | inr rawEntity => inr (protocolVersion, rawEntity)
          end
      end
  end.
End Decode.

End DecodeProtocolEntity.

(** * Properties *)

(** ** The monad *)

Module EffFacts.
Section Facts.
Context {St E : Type}.
Implicit Types (s : St).

Lemma try_finally_modify {A} (m : Eff St E A) (f : St -> St) s :
  final (try_finally m (modify f) s) = f (final (m s)).
Proof.
  unfold try_finally, modify, final.
  destruct (m s) as [[c s1] t1]; reflexivity.
Qed.

Section RunAll.
Context {I : Type} (step : I -> Eff St E unit).

Lemma runAll_app (l1 l2 : list I) s :
  runAll step (l1 ++ l2) s =
    ((runAll step l1 s).1 ++ (runAll step l2 (runAll step l1 s).2).1,
     (runAll step l2 (runAll step l1 s).2).2).
Proof.
  revert s. induction l1 as [|i l1 IH]; intros s; simpl.
  - destruct (runAll step l2 s); reflexivity.
  - rewrite IH. reflexivity.
Qed.

(** The outcome recorded for the [k]-th input is the one of its handler
    run from the state the inputs before it led to. *)
Lemma runAll_lookup (l : list I) s (k : nat) (i : I) :
  l !! k = Some i ->
  (runAll step l s).1 !! k =
    Some (completion (step i (runAll step (take k l) s).2),
          calls (step i (runAll step (take k l) s).2)).
Proof.
  revert s k. induction l as [|x l IH]; intros s k Hk; [discriminate|].
  destruct k as [|k]; simpl in *.
  - now inversion Hk.
  - now apply IH.
Qed.

(** A property of the state that every handler preserves holds all
    along a run. *)
Lemma runAll_invariant (P : St -> Prop) :
  (forall i s, P s -> P (final (step i s))) ->
  forall l s, P s -> P (runAll step l s).2.
Proof.
  intros Hstep l. induction l as [|i l IH]; intros s Hs; simpl; auto.
Qed.

Lemma runAll_take_S (l : list I) s (k : nat) (i : I) :
  l !! k = Some i ->
  (runAll step (take (S k) l) s).2 =
    final (step i (runAll step (take k l) s).2).
Proof.
  intros Hk. rewrite (take_S_r _ _ _ Hk), runAll_app. reflexivity.
Qed.

(** From the state after input [k] to the state before a later input
    [j] the run goes through the inputs in between. *)
Lemma runAll_take_le (l : list I) s (k j : nat) :
  (k <= j)%nat ->
  (runAll step (take j l) s).2 =
    (runAll step (drop k (take j l)) (runAll step (take k l) s).2).2.
Proof.
  intros Hkj.
  rewrite <- (take_drop k (take j l)) at 1.
  rewrite runAll_app. simpl.
  rewrite take_take. replace (k `min` j)%nat with k by lia. reflexivity.
Qed.
End RunAll.
End Facts.
End EffFacts.
Import EffFacts.

Ltac crush := repeat (case_match; simplify_eq/=).

(** ** Lists of latches *)

Module LatchFacts.
Import TransactionsReader.

Lemma latch_insert_other (ls : list Latch) (b b' : nat) (l l' : Latch) :
  ls !! b = Some l -> b <> b' -> <[b' := l']> ls !! b = Some l.
Proof. intros Hl Hne. rewrite list_lookup_insert_ne; auto. Qed.

Lemma latch_insert_same (ls : list Latch) (b : nat) (l l' : Latch) :
  ls !! b = Some l -> <[b := l']> ls !! b = Some l'.
Proof.
  intros Hl. apply list_lookup_insert_eq. eapply lookup_lt_Some; eauto.
Qed.

End LatchFacts.
Import LatchFacts.

(** ** Sorted lists of heights *)

Module HeightFacts.

Lemma sorted_le_last (l : list Z) (x : Z) :
  StronglySorted Z.lt l -> last l = Some x -> Forall (fun h => h <= x) l.
Proof.
  induction 1 as [|a l Hs IH Ha]; intros Hlast; [constructor|].
  destruct l as [|b l'].
  - simpl in Hlast. inversion Hlast; subst. repeat constructor. lia.
  - rewrite last_cons_cons in Hlast. specialize (IH Hlast).
    constructor; [|exact IH].
    inversion Ha as [|? ? Hab _]; subst.
    inversion IH as [|? ? Hbx _]; subst. lia.
Qed.

End HeightFacts.
Import HeightFacts.

(** ** The provider *)

Module ProviderProofs.
Import BlockHeadersProvider.

Ltac unfold_eff :=
  cbv beta iota zeta delta
    [handleHeaders handleHistoricalDataObtained handleError destroyReader
     removeReaderListeners with_reader chainAddHeaders chainValidate emit
     ensureChainRoot init readHistorical startContinuousSync readerCall
     try_catch try_finally bind ret throw get put modify call
     completion final calls fst snd] in *.

Section Provider.
Context {Header Chain RS : Type}.
Context `{!SpvChain Header Chain} `{!ReaderMethods RS}.
Implicit Types (p : Provider Header Chain RS) (e : JsError).

(** What [handleError] does to a provider that has its reader. *)
Lemma handleError_spec p e reader :
  blockHeadersReader p = Some reader ->
  let r := handleError (Header := Header) e p in
  calls r = [Emit (ERROR e)] /\
  blockHeadersReader (final r) = None /\
  state (final r) = state p /\
  coreMethods (final r) = coreMethods p /\
  spvChain (final r) = spvChain p.
Proof.
  intros Hr. unfold_eff. rewrite Hr. simpl.
  destruct (Nat.eqb (errorListeners p) 0); simpl; [auto|].
  destruct (listenerThrows p (ERROR e)); simpl; auto.
Qed.

(** C1.  When [chain.addHeaders(headers, headHeight)] returns the list
    [accepted], the provider emits exactly one [CHAIN_UPDATED] event,
    carrying [accepted] and the height
    [headHeight + (headers.length - accepted.length)], when [accepted] is
    not empty, and no [CHAIN_UPDATED] event when it is empty.  Unless a
    listener of that event throws, it then returns normally, having
    rejected nothing and emitted no [error]. *)
Theorem handleHeaders_accepted p headers headHeight accepted chain' :
  addHeaders headers headHeight (spvChain p) = (Normal accepted, chain') ->
  let r := handleHeaders headers headHeight p in
  let height :=
    headHeight + (Z.of_nat (length headers) - Z.of_nat (length accepted)) in
  chainUpdates (calls r) =
    match accepted with
    | [] => []
    | _ :: _ => [(accepted, height)]
    end /\
  spvChain (final r) = chain' /\
  (listenerThrows p (CHAIN_UPDATED accepted height) = None ->
   completion r = Normal tt /\
   errorsEmitted (calls r) = [] /\
   rejections (calls r) = []).
Proof.
  intros Hadd. unfold_eff. rewrite Hadd. simpl.
  destruct accepted as [|h t]; simpl; [auto|].
  destruct (listenerThrows p (CHAIN_UPDATED (h :: t) _)) as [thrown|] eqn:Hl;
    simpl; [|auto].
  split; [|split; [|discriminate]].
  - destruct (instanceOfSPVError thrown); simpl; [reflexivity|].
    destruct (blockHeadersReader p); simpl; [|reflexivity].
    destruct (Nat.eqb (errorListeners p) 0); simpl; [reflexivity|].
    destruct (listenerThrows p (ERROR thrown)); reflexivity.
  - destruct (instanceOfSPVError thrown); simpl; [reflexivity|].
    destruct (blockHeadersReader p); simpl; [|reflexivity].
    destruct (Nat.eqb (errorListeners p) 0); simpl; [reflexivity|].
    destruct (listenerThrows p (ERROR thrown)); reflexivity.
Qed.

(** C2.  When [chain.addHeaders] throws [e], no [CHAIN_UPDATED] event is
    emitted.  If [e] is an [SPVError], the batch's [reject] callback is
    called with [e], no [error] event is emitted and the reader is kept.
    Otherwise [reject] is not called, the reader is dropped and a single
    [error] event carrying [e] is emitted. *)
Theorem handleHeaders_thrown p headers headHeight e chain' :
  addHeaders headers headHeight (spvChain p) = (Throw e, chain') ->
  let r := handleHeaders headers headHeight p in
  chainUpdates (calls r) = [] /\
  (instanceOfSPVError e = true ->
     rejections (calls r) = [e] /\
     errorsEmitted (calls r) = [] /\
     blockHeadersReader (final r) = blockHeadersReader p /\
     completion r = Normal tt) /\
  (instanceOfSPVError e = false ->
     forall reader, blockHeadersReader p = Some reader ->
     rejections (calls r) = [] /\
     errorsEmitted (calls r) = [e] /\
     blockHeadersReader (final r) = None).
Proof.
  intros Hadd. unfold_eff. rewrite Hadd. simpl.
  destruct (instanceOfSPVError e) eqn:Hspv; simpl.
  - repeat split; auto; discriminate.
  - destruct (blockHeadersReader p) as [rd|] eqn:Hr; simpl.
    + destruct (Nat.eqb (errorListeners p) 0); simpl;
        [|destruct (listenerThrows p (ERROR e)); simpl];
        repeat split; auto; discriminate.
    + repeat split; auto; discriminate.
Qed.

Lemma truthy_hash (hash : string) : hash <> "" -> truthy (Some hash) = true.
Proof.
  intros Hne. unfold truthy.
  destruct (String.eqb_spec hash ""); [contradiction | reflexivity].
Qed.

(** [init] leaves the chain alone and makes sure a reader is attached. *)
Lemma init_spec p :
  let r := init (Header := Header) p in
  completion r = Normal tt /\
  spvChain (final r) = spvChain p /\
  state (final r) = state p /\
  is_Some (blockHeadersReader (final r)) /\
  calls r = match blockHeadersReader p with
            | Some _ => []
            | None => [NewBlockHeadersReader]
            end.
Proof.
  unfold_eff. simpl.
  destruct (blockHeadersReader p) eqn:Hr; simpl; rewrite ?Hr; simpl; eauto 10.
Qed.

(** The calls of [ensureChainRoot] depend on the chain only. *)
Lemma ensureChainRoot_calls p height :
  calls (ensureChainRoot (Header := Header) height p) =
    if truthy (hashesByHeight (spvChain p) !! (height - 1))
    then [] else [ChainReset height].
Proof.
  unfold_eff.
  destruct (truthy (hashesByHeight (spvChain p) !! (height - 1))); reflexivity.
Qed.

(** C9.  [ensureChainRoot(height)] calls [chain.reset(height)] when the
    chain has no hash at [height - 1], and calls nothing and changes
    nothing when a hash is there.  On a configured, idle provider
    [readHistorical] and [startContinuousSync] make the calls of
    [ensureChainRoot(fromBlockHeight)], after building a reader when none
    is attached, and only then call the reader, which opens the streams;
    the chain they leave is the one [ensureChainRoot] left.  On a
    provider that is not configured or not idle they call nothing. *)
Theorem ensureChainRoot_spec p fromBlockHeight toBlockHeight :
  let root := ensureChainRoot (Header := Header) fromBlockHeight p in
  let pre :=
    match blockHeadersReader p with
    | Some _ => []
    | None => [NewBlockHeadersReader]
    end in
  (hashesByHeight (spvChain p) !! (fromBlockHeight - 1) = None ->
     calls root = [ChainReset fromBlockHeight] /\
     spvChain (final root) = reset fromBlockHeight (spvChain p)) /\
  (forall hash,
     hashesByHeight (spvChain p) !! (fromBlockHeight - 1) = Some hash ->
     hash <> "" ->
     calls root = [] /\ final root = p) /\
  (coreMethods p = true -> state p = IDLE ->
     (calls (readHistorical (Some fromBlockHeight) toBlockHeight p) =
        pre ++ calls root ++ [ReaderReadHistorical fromBlockHeight toBlockHeight] /\
      spvChain (final (readHistorical (Some fromBlockHeight) toBlockHeight p)) =
        spvChain (final root)) /\
     (calls (startContinuousSync fromBlockHeight p) =
        pre ++ calls root ++ [ReaderSubscribeToNew fromBlockHeight] /\
      spvChain (final (startContinuousSync fromBlockHeight p)) =
        spvChain (final root))) /\
  (coreMethods p = false \/ state p <> IDLE ->
     calls (readHistorical (Some fromBlockHeight) toBlockHeight p) = [] /\
     calls (startContinuousSync fromBlockHeight p) = []).
Proof.
  cbv zeta. split; [|split; [|split]].
  - intros Hnone. unfold_eff. rewrite Hnone. simpl. auto.
  - intros hash Hsome Hne. unfold_eff. rewrite Hsome.
    rewrite (truthy_hash hash Hne). simpl. auto.
  - intros Hc Hs. rewrite ensureChainRoot_calls.
    unfold_eff. simpl. rewrite Hc, Hs. simpl.
    destruct (blockHeadersReader p) as [rd|] eqn:Hr; simpl; rewrite ?Hr; simpl;
      destruct (truthy (hashesByHeight (spvChain p) !! (fromBlockHeight - 1)));
      simpl;
      repeat match goal with
             | |- context [reader_readHistorical ?a ?b ?c] =>
                 destruct (reader_readHistorical a b c) as [[?|?] ?]; simpl
             | |- context [reader_subscribeToNew ?a ?c] =>
                 destruct (reader_subscribeToNew a c) as [[?|?] ?]; simpl
             end; auto.
  - intros Hguard. unfold_eff. simpl.
    destruct (coreMethods p); simpl; [|auto].
    destruct (bool_decide_reflect (state p = IDLE)) as [Hs|Hs]; simpl; [|auto].
    destruct Hguard as [Hc|Hn]; [discriminate | contradiction].
Qed.

(** An idle, configured provider lets [readHistorical] through to the
    reader. *)
Lemma readHistorical_when_idle p fromBlockHeight toBlockHeight :
  coreMethods p = true -> state p = IDLE ->
  In (ReaderReadHistorical (default 1 fromBlockHeight) toBlockHeight)
     (calls (readHistorical (Header := Header) fromBlockHeight toBlockHeight p)).
Proof.
  intros Hc Hs. unfold_eff. rewrite Hc, Hs. simpl.
  destruct (blockHeadersReader p) eqn:Hr; simpl; rewrite ?Hr; simpl;
    destruct (truthy _); simpl;
    destruct (reader_readHistorical _ _ _) as [[?|?] ?]; simpl; auto 10.
Qed.

(** C10.  After [handleHistoricalDataObtained] the provider is [IDLE],
    whatever [chain.validate()] did.  When [validate] throws [e] the
    provider emits [error] with [e] and no [HISTORICAL_DATA_OBTAINED], and
    the reader is dropped; a following [readHistorical] is then not
    turned away by the busy guard: it goes on to call the reader. *)
Theorem handleHistoricalDataObtained_idle p :
  let r := handleHistoricalDataObtained (Header := Header) p in
  state (final r) = IDLE /\
  (forall e chain' reader,
     validate (spvChain p) = (Throw e, chain') ->
     blockHeadersReader p = Some reader ->
     calls r = [ChainValidate; Emit (ERROR e)] /\
     errorsEmitted (calls r) = [e] /\
     historicalDataObtainedEmitted (calls r) = 0%nat /\
     blockHeadersReader (final r) = None /\
     forall fromBlockHeight toBlockHeight,
       coreMethods p = true ->
       let again := readHistorical fromBlockHeight toBlockHeight (final r) in
       calls again <> [] /\
       In (ReaderReadHistorical (default 1 fromBlockHeight) toBlockHeight)
          (calls again)).
Proof.
  cbv zeta.
  assert (Hidle : state (final (handleHistoricalDataObtained (Header := Header) p))
                  = IDLE).
  { unfold handleHistoricalDataObtained.
    rewrite try_finally_modify. reflexivity. }
  split; [exact Hidle|].
  intros e chain' reader Hval Hr.
  assert (Hcore : coreMethods (final (handleHistoricalDataObtained
                                        (Header := Header) p))
                  = coreMethods p).
  { unfold_eff. rewrite Hval. simpl. rewrite Hr. simpl.
    destruct (Nat.eqb (errorListeners p) 0); simpl; [reflexivity|].
    destruct (listenerThrows p (ERROR e)); reflexivity. }
  assert (Hagain : forall fromBlockHeight toBlockHeight,
            coreMethods p = true ->
            In (ReaderReadHistorical (default 1 fromBlockHeight) toBlockHeight)
               (calls (readHistorical fromBlockHeight toBlockHeight
                         (final (handleHistoricalDataObtained
                                   (Header := Header) p))))).
  { intros f t Hc. apply readHistorical_when_idle; congruence. }
  repeat split.
  - unfold_eff. rewrite Hval. simpl. rewrite Hr. simpl.
    destruct (Nat.eqb (errorListeners p) 0); simpl; [reflexivity|].
    destruct (listenerThrows p (ERROR e)); reflexivity.
  - unfold_eff. rewrite Hval. simpl. rewrite Hr. simpl.
    destruct (Nat.eqb (errorListeners p) 0); simpl; [reflexivity|].
    destruct (listenerThrows p (ERROR e)); reflexivity.
  - unfold_eff. rewrite Hval. simpl. rewrite Hr. simpl.
    destruct (Nat.eqb (errorListeners p) 0); simpl; [reflexivity|].
    destruct (listenerThrows p (ERROR e)); reflexivity.
  - unfold_eff. rewrite Hval. simpl. rewrite Hr. simpl.
    destruct (Nat.eqb (errorListeners p) 0); simpl; [reflexivity|].
    destruct (listenerThrows p (ERROR e)); reflexivity.
  - intros Hnil.
    match goal with
    | Hcore' : coreMethods p = true |- _ =>
        specialize (Hagain fromBlockHeight toBlockHeight Hcore')
    end.
    rewrite Hnil in Hagain. destruct Hagain.
  - apply Hagain; assumption.
Qed.
End Provider.

Import Stubs.

(** The theorems at the unit tests' inputs. *)

Lemma handleHeaders_accepted_witness :
  let p := provider HISTORICAL_SYNC droppingChain in
  addHeaders [10; 11; 12] 1 (spvChain p) = (Normal [10; 11], droppingChain) /\
  chainUpdates (calls (handleHeaders [10; 11; 12] 1 p)) = [([10; 11], 2)].
Proof.
  split; [reflexivity|].
  apply (handleHeaders_accepted (provider HISTORICAL_SYNC droppingChain)
           [10; 11; 12] 1 [10; 11] droppingChain).
  reflexivity.
Defined.

Lemma handleHeaders_thrown_witness :
  let spv := newSPVError "test" in
  let other := newError "test" in
  let p := provider HISTORICAL_SYNC (throwingChain spv) in
  let q := provider HISTORICAL_SYNC (throwingChain other) in
  (addHeaders [10; 11] 1 (spvChain p) = (Throw spv, throwingChain spv) /\
   rejections (calls (handleHeaders [10; 11] 1 p)) = [spv] /\
   errorsEmitted (calls (handleHeaders [10; 11] 1 p)) = []) /\
  (addHeaders [10; 11] 1 (spvChain q) = (Throw other, throwingChain other) /\
   rejections (calls (handleHeaders [10; 11] 1 q)) = [] /\
   errorsEmitted (calls (handleHeaders [10; 11] 1 q)) = [other] /\
   blockHeadersReader (final (handleHeaders [10; 11] 1 q)) = None).
Proof.
  cbv zeta. split.
  - split; [reflexivity|].
    pose proof (handleHeaders_thrown
                  (provider HISTORICAL_SYNC (throwingChain (newSPVError "test")))
                  [10; 11] 1 (newSPVError "test")
                  (throwingChain (newSPVError "test")) eq_refl) as H.
    destruct H as (_ & Hspv & _).
    destruct (Hspv eq_refl) as (Hrej & Herr & _). split; assumption.
  - split; [reflexivity|].
    pose proof (handleHeaders_thrown
                  (provider HISTORICAL_SYNC (throwingChain (newError "test")))
                  [10; 11] 1 (newError "test")
                  (throwingChain (newError "test")) eq_refl) as H.
    destruct H as (_ & _ & Hother).
    exact (Hother eq_refl (mkReader [] tt) eq_refl).
Defined.

Lemma ensureChainRoot_spec_witness :
  let p := provider IDLE acceptingChain in
  (hashesByHeight (spvChain p) !! (5 - 1) = None /\
   calls (ensureChainRoot (Header := Z) 5 p) = [ChainReset 5]) /\
  (hashesByHeight (spvChain p) !! (1 - 1) = Some "0x000000001" /\
   calls (ensureChainRoot (Header := Z) 1 p) = [] /\
   final (ensureChainRoot (Header := Z) 1 p) = p) /\
  (coreMethods p = true /\ state p = IDLE /\
   calls (readHistorical (Some 5) 10 p) =
     [ChainReset 5; ReaderReadHistorical 5 10] /\
   calls (startContinuousSync 5 p) = [ChainReset 5; ReaderSubscribeToNew 5] /\
   calls (readHistorical (Some 1) 10 p) = [ReaderReadHistorical 1 10]) /\
  (state (provider HISTORICAL_SYNC acceptingChain) <> IDLE /\
   calls (startContinuousSync 5 (provider HISTORICAL_SYNC acceptingChain)) = []).
Proof.
  cbv zeta. split; [|split; [|split]].
  - split; [reflexivity|].
    pose proof (ensureChainRoot_spec (Header := Z) (provider IDLE acceptingChain) 5 10)
      as (Hnone & _ & _).
    exact (proj1 (Hnone eq_refl)).
  - split; [reflexivity|].
    pose proof (ensureChainRoot_spec (Header := Z) (provider IDLE acceptingChain) 1 10)
      as (_ & Hsome & _).
    apply (Hsome "0x000000001"); [reflexivity | discriminate].
  - do 2 (split; [reflexivity|]).
    pose proof (ensureChainRoot_spec (Header := Z) (provider IDLE acceptingChain) 5 10)
      as (_ & _ & Hstart & _).
    destruct (Hstart eq_refl eq_refl) as ((Hread & _) & (Hsub & _)).
    pose proof (ensureChainRoot_spec (Header := Z) (provider IDLE acceptingChain) 1 10)
      as (_ & _ & Hstart1 & _).
    destruct (Hstart1 eq_refl eq_refl) as ((Hread1 & _) & _).
    split; [exact Hread|]. split; [exact Hsub | exact Hread1].
  - split; [discriminate|].
    pose proof (ensureChainRoot_spec (Header := Z)
                  (provider HISTORICAL_SYNC acceptingChain) 5 10)
      as (_ & _ & _ & Hguard).
    apply Hguard. right. discriminate.
Defined.

Lemma handleHistoricalDataObtained_idle_witness :
  let e := newError "Invalid chain" in
  let p := provider HISTORICAL_SYNC (throwingChain e) in
  let r := handleHistoricalDataObtained (Header := Z) p in
  validate (spvChain p) = (Throw e, throwingChain e) /\
  blockHeadersReader p = Some (mkReader [] tt) /\
  coreMethods p = true /\
  state (final r) = IDLE /\
  errorsEmitted (calls r) = [e] /\
  In (ReaderReadHistorical 1 5) (calls (readHistorical None 5 (final r))).
Proof.
  cbv zeta. do 3 (split; [reflexivity|]).
  pose proof (handleHistoricalDataObtained_idle (Header := Z)
                (provider HISTORICAL_SYNC (throwingChain (newError "Invalid chain"))))
    as (Hidle & Hthrow).
  split; [exact Hidle|].
  destruct (Hthrow (newError "Invalid chain")
              (throwingChain (newError "Invalid chain")) (mkReader [] tt)
              eq_refl eq_refl) as (_ & Herr & _ & _ & Hagain).
  split; [exact Herr|].
  exact (proj2 (Hagain None 5 eq_refl)).
Defined.

End ProviderProofs.

(** ** The transactions reader: historical streams *)

Module HistoricalProofs.
Import TransactionsReader TransactionsReader.Historical.

Ltac unfold_h :=
  cbv beta iota zeta delta
    [step dataHandler acceptMerkleBlock rejectMerkleBlock errorHandler
     endHandler settled cancelRejected resubscribe set_latch
     try_catch try_finally bind ret throw get put modify call
     completion final calls fst snd] in *.

Section Handlers.
Context {RawTransactions RawMerkleBlock Tx MerkleBlock : Type}.
Context `{!Utils RawTransactions RawMerkleBlock Tx MerkleBlock}.
Variables (maxRetries fromBlockHeight count : Z) (addresses : list string).

Local Abbreviation step' :=
  (step (RawTransactions := RawTransactions) (RawMerkleBlock := RawMerkleBlock)
     maxRetries fromBlockHeight count addresses).

(** A latch that is set stays set, whatever reaches the handlers. *)
Lemma historical_keeps_rejected (i : Input RawTransactions RawMerkleBlock) s block :
  isRejected block s -> isRejected block (final (step' i s)).
Proof.
  intros (l & Hl & Hrej). unfold isRejected.
  destruct i as [rawTx rawMb|b h na|b e|e| |k res|e|st rt]; unfold_h.
  - destruct rawTx as [raw|]; [|destruct rawMb as [raw|]]; simpl.
    + destruct (negb _); simpl; eauto.
    + exists l. split; [|assumption]. now apply lookup_app_l_Some.
    + eauto.
  - destruct (decide (b = block)) as [->|Hne].
    + rewrite Hl, Hrej. simpl. eauto.
    + crush; eauto using latch_insert_other.
  - destruct (decide (b = block)) as [->|Hne].
    + rewrite Hl. destruct (accepted l); simpl; eauto using latch_insert_same.
    + crush; eauto using latch_insert_other.
  - crush; eauto.
  - crush; eauto.
  - crush; eauto.
  - crush; eauto.
- simpl; eauto.
Qed.

Lemma historical_keeps_accepted (i : Input RawTransactions RawMerkleBlock) s block :
  isAccepted block s -> isAccepted block (final (step' i s)).
Proof.
  intros (l & Hl & Hacc). unfold isAccepted.
  destruct i as [rawTx rawMb|b h na|b e|e| |k res|e|st rt]; unfold_h.
  - destruct rawTx as [raw|]; [|destruct rawMb as [raw|]]; simpl.
    + destruct (negb _); simpl; eauto.
    + exists l. split; [|assumption]. now apply lookup_app_l_Some.
    + eauto.
  - destruct (decide (b = block)) as [->|Hne].
    + rewrite Hl. crush; eauto using latch_insert_same.
    + crush; eauto using latch_insert_other.
  - destruct (decide (b = block)) as [->|Hne].
    + rewrite Hl, Hacc. simpl. eauto.
    + crush; eauto using latch_insert_other.
  - crush; eauto.
  - crush; eauto.
  - crush; eauto.
  - crush; eauto.
- simpl; eauto.
Qed.

Lemma historical_accept_when_rejected s block height newAddresses :
  isRejected block s ->
  step' (AcceptMerkleBlock block height newAddresses) s
    = (Throw unableToAccept, s, []).
Proof. intros (l & Hl & Hrej). unfold_h. rewrite Hl, Hrej. reflexivity. Qed.

Lemma historical_reject_when_accepted s block e :
  isAccepted block s ->
  step' (RejectMerkleBlock block e) s = (Throw unableToReject, s, []).
Proof. intros (l & Hl & Hacc). unfold_h. rewrite Hl, Hacc. reflexivity. Qed.

(** A [reject] call that returns has set the [rejected] flag. *)
Lemma historical_reject_returned s block e :
  completion (step' (RejectMerkleBlock block e) s) = Normal tt ->
  isRejected block (final (step' (RejectMerkleBlock block e) s)).
Proof.
  unfold isRejected. unfold_h.
  destruct (blocks s !! block) as [l|] eqn:Hl; [|discriminate].
  destruct (accepted l); simpl; [discriminate|].
  intros _. eauto using latch_insert_same.
Qed.

(** An [accept] call on a historical stream that got past the
    [rejected] check, whether it then returned or threw the range error,
    has set the [accepted] flag. *)
Lemma accept_passed s block height newAddresses :
  completion (step' (AcceptMerkleBlock block height newAddresses) s)
    <> Throw unableToAccept ->
  completion (step' (AcceptMerkleBlock block height newAddresses) s)
    <> Throw notAFunction ->
  isAccepted block (final (step' (AcceptMerkleBlock block height newAddresses) s)).
Proof.
  unfold isAccepted. unfold_h.
  destruct (blocks s !! block) as [l|] eqn:Hl; [|congruence].
  destruct (rejected l); simpl; [congruence|].
  intros _ _. crush; eauto using latch_insert_same.
Qed.

Lemma historical_accept_returned s block height newAddresses :
  completion (step' (AcceptMerkleBlock block height newAddresses) s) = Normal tt ->
  isAccepted block (final (step' (AcceptMerkleBlock block height newAddresses) s)).
Proof.
  intros Hn. apply accept_passed; rewrite Hn; discriminate.
Qed.

Local Abbreviation run' :=
  (run (RawTransactions := RawTransactions) (RawMerkleBlock := RawMerkleBlock)
     maxRetries fromBlockHeight count addresses).

(** Along a run, what holds after input [i] and is kept by every handler
    holds before every later input [j]. *)
Lemma historical_run_carries (P : Session -> Prop) ins s (i j : nat) x :
  (forall y t, P t -> P (final (step' y t))) ->
  (i < j)%nat -> ins !! i = Some x ->
  P (final (step' x (run' (take i ins) s).2)) ->
  P (run' (take j ins) s).2.
Proof.
  intros Hkeep Hij Hi HP. unfold run in *.
  rewrite (runAll_take_le _ ins s (S i) j) by lia.
  apply runAll_invariant; [exact Hkeep|].
  rewrite (runAll_take_S _ ins s i x Hi). exact HP.
Qed.

Lemma historical_accept_after_reject ins s (i j : nat) block e cs height newAddresses :
  (i < j)%nat ->
  ins !! i = Some (RejectMerkleBlock block e) ->
  (run' ins s).1 !! i = Some (Normal tt, cs) ->
  ins !! j = Some (AcceptMerkleBlock block height newAddresses) ->
  (run' ins s).1 !! j = Some (Throw unableToAccept, []).
Proof.
  intros Hij Hi Hout Hj. unfold run in *.
  rewrite (runAll_lookup _ ins s i _ Hi) in Hout.
  rewrite (runAll_lookup _ ins s j _ Hj).
  rewrite historical_accept_when_rejected; [reflexivity|].
  apply (historical_run_carries (isRejected block) ins s i j _
           (fun y t => historical_keeps_rejected y t block) Hij Hi).
  apply historical_reject_returned. unfold run. congruence.
Qed.

Lemma historical_reject_after_accept ins s (i j : nat) block e cs height newAddresses :
  (i < j)%nat ->
  ins !! i = Some (AcceptMerkleBlock block height newAddresses) ->
  (run' ins s).1 !! i = Some (Normal tt, cs) ->
  ins !! j = Some (RejectMerkleBlock block e) ->
  (run' ins s).1 !! j = Some (Throw unableToReject, []).
Proof.
  intros Hij Hi Hout Hj. unfold run in *.
  rewrite (runAll_lookup _ ins s i _ Hi) in Hout.
  rewrite (runAll_lookup _ ins s j _ Hj).
  rewrite historical_reject_when_accepted; [reflexivity|].
  apply (historical_run_carries (isAccepted block) ins s i j _
           (fun y t => historical_keeps_accepted y t block) Hij Hi).
  apply historical_accept_returned. unfold run. congruence.
Qed.

Local Abbreviation errorHandler' :=
  (errorHandler (Tx := Tx) (MerkleBlock := MerkleBlock)
     maxRetries fromBlockHeight count addresses).

(** The retry arguments the error handler computes in a state with no
    restart pending: a stream synced up to height [L] that raises an
    error other than [CANCELLED] while retries remain is replaced by one
    opened with [fromBlockHeight' = L + 1] and
    [count' = count - (L + 1 - fromBlockHeight)] and the same addresses,
    exactly when something is left to read. *)
Lemma errorHandler_resumes s streamError :
  isCancelled streamError = false ->
  currentRetries s < maxRetries ->
  restartArgs s = None ->
  let L := lastSyncedBlockHeight s in
  let fromBlockHeight' := L + 1 in
  let count' := count - (L + 1 - fromBlockHeight) in
  let r := errorHandler' streamError s in
  completion r = Normal tt /\
  calls r =
    (if 0 <? count'
     then [SubscribeWithRetries (mkRestartArgs fromBlockHeight' count' addresses)]
     else []) /\
  (forall h, fromBlockHeight <= h <= L -> ~ requested (calls r) h) /\
  (forall h, L < h <= fromBlockHeight + count - 1 -> requested (calls r) h).
Proof.
  intros Hc Hr Hra L from' count' r.
  assert (Hcalls : completion r = Normal tt /\
            calls r =
              (if 0 <? count'
               then [SubscribeWithRetries (mkRestartArgs from' count' addresses)]
               else [])).
  { subst r L from' count'. unfold_h. rewrite Hc, Hra.
    destruct (Z.ltb_spec (currentRetries s) maxRetries); [|lia].
    destruct (Z.leb_spec (count - (lastSyncedBlockHeight s - fromBlockHeight + 1)) 0);
      destruct (Z.ltb_spec 0 (count - (lastSyncedBlockHeight s + 1 - fromBlockHeight)));
      try lia; simpl; split; try reflexivity.
    do 3 f_equal. lia. }
  destruct Hcalls as (Hcompl & Hcalls).
  split; [exact Hcompl|]. split; [exact Hcalls|].
  rewrite Hcalls. subst L from' count'. unfold requested.
  destruct (Z.ltb_spec 0 (count - (lastSyncedBlockHeight s + 1 - fromBlockHeight))).
  - split.
    + intros h Hh (args & [Hin|[]] & Hrange).
      inversion Hin; subst args. simpl in Hrange. lia.
    + intros h Hh. eexists. split; [left; reflexivity|]. simpl. lia.
  - split.
    + intros h Hh (args & [] & _).
    + intros h Hh. lia.
Qed.

(** [lastSyncedBlockHeight] is the last of the heights accepted so far,
    or what it was when none has been. *)
Lemma historical_step_synced (i : Input RawTransactions RawMerkleBlock) s
    (start : Z) (heights : list Z) :
  lastSyncedBlockHeight s = default start (last heights) ->
  lastSyncedBlockHeight (final (step' i s)) =
    default start (last (heights ++ syncedBy i s)).
Proof.
  unfold syncedBy. intros Hs.
  destruct i as [rawTx rawMb|b h na|b e|e| |k res|e|st rt]; unfold_h;
    crush; rewrite ?app_nil_r, ?last_snoc; simpl; auto.
Qed.

Lemma historical_run_synced (ins : list (Input RawTransactions RawMerkleBlock))
    s (start : Z) (heights : list Z) :
  lastSyncedBlockHeight s = default start (last heights) ->
  lastSyncedBlockHeight
    (run maxRetries fromBlockHeight count addresses ins s).2 =
    default start
      (last (heights ++
               acceptedHeights maxRetries fromBlockHeight count addresses ins s)).
Proof.
  unfold run. revert s heights.
  induction ins as [|i ins IH]; intros s heights Hs; simpl.
  - now rewrite app_nil_r.
  - rewrite app_assoc. apply IH. now apply historical_step_synced.
Qed.

(** C3 (amended).  A historical stream was opened with
    [(fromBlockHeight, count)] and the blocks accepted on it since, in
    any run of its handlers, end at height [L] ([fromBlockHeight - 1]
    when none was accepted).  When it then raises an error other than
    [CANCELLED] while retries remain and no restart for a grown filter is
    pending, the replacement the error handler opens is opened with
    [fromBlockHeight' = L + 1] and
    [count' = count - (L + 1 - fromBlockHeight)] and the same addresses,
    and it is opened exactly when something is left to read.  So no
    height up to [L] is requested again, none of the accepted heights is
    when they were accepted in increasing order, and every height of
    [L + 1 .. fromBlockHeight + count - 1] is requested. *)
Theorem retry_resumes_after_delivered (stream : nat) (retries : Z)
    (ins : list (Input RawTransactions RawMerkleBlock)) streamError :
  let s0 := subscribed fromBlockHeight stream retries in
  let s := (run maxRetries fromBlockHeight count addresses ins s0).2 in
  let heights :=
    acceptedHeights maxRetries fromBlockHeight count addresses ins s0 in
  let L := default (fromBlockHeight - 1) (last heights) in
  let fromBlockHeight' := L + 1 in
  let count' := count - (L + 1 - fromBlockHeight) in
  isCancelled streamError = false ->
  currentRetries s < maxRetries ->
  restartArgs s = None ->
  let r := errorHandler' streamError s in
  lastSyncedBlockHeight s = L /\
  completion r = Normal tt /\
  calls r =
    (if 0 <? count'
     then [SubscribeWithRetries (mkRestartArgs fromBlockHeight' count' addresses)]
     else []) /\
  (forall h, h <= L -> ~ requested (calls r) h) /\
  (StronglySorted Z.lt heights ->
   forall h, In h heights -> ~ requested (calls r) h) /\
  (forall h, L < h <= fromBlockHeight + count - 1 -> requested (calls r) h).
Proof.
  intros s0 s heights L from' count' Hc Hr Hra r.
  assert (HL : lastSyncedBlockHeight s = L).
  { subst s L heights.
    apply (historical_run_synced ins s0 (fromBlockHeight - 1) []).
    reflexivity. }
  destruct (errorHandler_resumes s streamError Hc Hr Hra)
    as (Hcompl & Hcalls & _ & Hnew).
  cbv zeta in Hcalls, Hnew. rewrite HL in Hcalls, Hnew.
  fold r in Hcompl, Hcalls, Hnew.
  assert (Hold : forall h, h <= L -> ~ requested (calls r) h).
  { intros h Hh (args & Hin & Hrange). rewrite Hcalls in Hin.
    destruct (0 <? count - (L + 1 - fromBlockHeight)); [|destruct Hin].
    destruct Hin as [Hin|[]]. inversion Hin; subst args.
    simpl in Hrange. lia. }
  split; [exact HL|]. split; [exact Hcompl|]. split; [exact Hcalls|].
  split; [exact Hold|]. split; [|exact Hnew].
  intros Hsorted h Hin. apply Hold. subst L.
  destruct (last heights) as [x|] eqn:Hlast.
  - pose proof (sorted_le_last heights x Hsorted Hlast) as Hall.
    rewrite Forall_forall in Hall.
    exact (Hall h (proj2 (list_elem_of_In _ _) Hin)).
  - destruct heights; [destruct Hin|].
    apply last_None in Hlast. discriminate.
Qed.

(** On a historical stream an [accept] with a height above the range
    throws to its caller; the stream is neither destroyed nor cancelled
    and no restart is scheduled. *)
Lemma accept_beyond_range s block l height newAddresses :
  blocks s !! block = Some l ->
  rejected l = false ->
  fromBlockHeight + count - 1 < height ->
  let r := step' (AcceptMerkleBlock block height newAddresses) s in
  completion r = Throw (rangeError fromBlockHeight count height) /\
  calls r = [] /\
  restartArgs (final r) = restartArgs s /\
  historicalSyncStream (final r) = historicalSyncStream s.
Proof.
  intros Hl Hrej Hh. unfold_h. rewrite Hl, Hrej. simpl.
  destruct (Z.eqb_spec (count - (height - fromBlockHeight + 1)) 0); [lia|].
  destruct (Z.ltb_spec (count - (height - fromBlockHeight + 1)) 0); [|lia].
  simpl. auto.
Qed.

(** While a restart is pending the error handler leaves [restartArgs]
    alone: a retry reopens from it, ... *)
Lemma errorHandler_pending_retry s streamError args :
  restartArgs s = Some args ->
  isCancelled streamError = false ->
  currentRetries s < maxRetries ->
  errorHandler' streamError s =
    (Normal tt, set_inFlight (inFlight s ++ [true]) s, [SubscribeWithRetries args]).
Proof.
  intros Hra Hc Hr. unfold_h. rewrite Hc, Hra.
  destruct (Z.ltb_spec (currentRetries s) maxRetries); [reflexivity | lia].
Qed.

(** ... exhausted retries surface the error, ... *)
Lemma errorHandler_pending_exhausted s streamError :
  isCancelled streamError = false ->
  maxRetries <= currentRetries s ->
  errorHandler' streamError s = (Normal tt, s, [Emit (ERROR streamError)]).
Proof.
  intros Hc Hr. unfold_h. rewrite Hc.
  destruct (Z.ltb_spec (currentRetries s) maxRetries); [lia | reflexivity].
Qed.

(** ... and [CANCELLED] reopens from it once. *)
Lemma historical_pending_cancelled s streamError args :
  restartArgs s = Some args ->
  isCancelled streamError = true ->
  errorHandler' streamError s =
    (Normal tt, set_inFlight (inFlight s ++ [false]) (set_stream None s),
     [SubscribeWithRetries args]).
Proof. intros Hra Hc. unfold_h. rewrite Hc. simpl. rewrite Hra. reflexivity. Qed.

Lemma historical_idle_cancelled s streamError :
  restartArgs s = None ->
  isCancelled streamError = true ->
  errorHandler' streamError s = (Normal tt, set_stream None s, []).
Proof. intros Hra Hc. unfold_h. rewrite Hc. simpl. rewrite Hra. reflexivity. Qed.

(** When the promise of a reopening settles, [restartArgs] is cleared. *)
Lemma historical_settled_clears s (k : nat) (retry : bool) result :
  inFlight s !! k = Some retry ->
  restartArgs (final (settled (Tx := Tx) (MerkleBlock := MerkleBlock)
                        k result s)) = None.
Proof.
  intros Hk. unfold_h. rewrite Hk.
  destruct result as [newStream|e]; simpl; [destruct retry|]; reflexivity.
Qed.

(** Only the error handler opens streams, one per error at most. *)
Lemma historical_step_reopens (i : Input RawTransactions RawMerkleBlock) s :
  (length (List.filter isResubscribe (calls (step' i s)))
   <= if isStreamError i then 1 else 0)%nat.
Proof.
  destruct i as [rawTx rawMb|b h na|b e|e| |k res|e|st rt]; unfold_h; crush; lia.
Qed.

Lemma historical_reopened_le_streamErrors ins s :
  (reopened (run' ins s).1 <= streamErrors ins)%nat.
Proof.
  unfold reopened, streamErrors, run. revert s.
  induction ins as [|i ins IH]; intros s; simpl; [lia|].
  rewrite List.filter_app, length_app.
  specialize (IH (final (step' i s))).
  pose proof (historical_step_reopens i s) as Hi.
  destruct (isStreamError i); simpl; lia.
Qed.
End Handlers.

Import Stubs.

(** The retry of the unit test: a stream for heights 1 to 12 fails after
    the blocks at heights 1 to 4 were accepted; the replacement is opened
    for 8 heights from 5. *)
Lemma retry_resumes_after_delivered_witness :
  let ins := [Data None (Some "block 1"); AcceptMerkleBlock 0 1 [];
              Data None (Some "block 2"); AcceptMerkleBlock 1 2 [];
              Data None (Some "block 3"); AcceptMerkleBlock 2 3 [];
              Data None (Some "block 4"); AcceptMerkleBlock 3 4 []] in
  let s0 := subscribed 1 0 0 in
  let s := (run (RawTransactions := list string) 1 1 12 ["a"] ins s0).2 in
  let streamError := newError "Fake stream error" in
  let r := errorHandler (Tx := string) (MerkleBlock := string)
             1 1 12 ["a"] streamError s in
  (isCancelled streamError = false /\
   currentRetries s < 1 /\
   restartArgs s = None /\
   acceptedHeights (RawTransactions := list string) 1 1 12 ["a"] ins s0 =
     [1; 2; 3; 4]) /\
  calls r = [SubscribeWithRetries (mkRestartArgs 5 8 ["a"])] /\
  ~ requested (calls r) 4 /\
  requested (calls r) 5.
Proof.
  cbv zeta. split; [repeat split; reflexivity|].
  pose proof (retry_resumes_after_delivered (RawTransactions := list string)
                (RawMerkleBlock := string) 1 1 12 ["a"] 0%nat 0
                [Data None (Some "block 1"); AcceptMerkleBlock 0 1 [];
                 Data None (Some "block 2"); AcceptMerkleBlock 1 2 [];
                 Data None (Some "block 3"); AcceptMerkleBlock 2 3 [];
                 Data None (Some "block 4"); AcceptMerkleBlock 3 4 []]
                (newError "Fake stream error")) as H.
  cbv zeta in H.
  destruct H as (_ & _ & Hcalls & Hold & _ & Hnew);
    [reflexivity | reflexivity | reflexivity |].
  split; [exact Hcalls|].
  split; [apply Hold; simpl; lia | apply Hnew; simpl; lia].
Defined.

(** C3 as stated fails while a restart for a grown filter is pending:
    on a stream for heights 1 to 10, [accept(3, ["b"])] schedules the
    restart from 4, the blocks at 4 and 5 are accepted before the stream
    is cancelled, and an error other than [CANCELLED] then reopens the
    stream from the pending arguments, [(4, 7)], not from
    [(L + 1, count - (L + 1 - fromBlockHeight)) = (6, 5)]: the accepted
    heights 4 and 5 are requested again. *)
Lemma retry_reopens_from_pending_restart :
  let ins := [Data None (Some "block 3"); AcceptMerkleBlock 0 3 ["b"];
              Data None (Some "block 4"); AcceptMerkleBlock 1 4 [];
              Data None (Some "block 5"); AcceptMerkleBlock 2 5 []] in
  let s0 := subscribed 1 0 0 in
  let s := (run (RawTransactions := list string) 10 1 10 ["a"] ins s0).2 in
  let streamError := newError "Fake stream error" in
  let r := errorHandler (Tx := string) (MerkleBlock := string)
             10 1 10 ["a"] streamError s in
  isCancelled streamError = false /\
  currentRetries s < 10 /\
  acceptedHeights (RawTransactions := list string) 10 1 10 ["a"] ins s0 =
    [3; 4; 5] /\
  lastSyncedBlockHeight s = 5 /\
  calls r = [SubscribeWithRetries (mkRestartArgs 4 7 ["a"; "b"])] /\
  calls r <> [SubscribeWithRetries (mkRestartArgs (5 + 1) (10 - (5 + 1 - 1)) ["a"])] /\
  requested (calls r) 4 /\
  requested (calls r) 5.
Proof.
  cbv zeta. repeat split; try reflexivity.
  - vm_compute. discriminate.
  - eexists. split; [left; reflexivity|]. simpl. lia.
  - eexists. split; [left; reflexivity|]. simpl. lia.
Qed.

End HistoricalProofs.

(** ** The transactions reader: continuous streams *)

Module ContinuousProofs.
Import TransactionsReader TransactionsReader.Continuous.

Ltac unfold_c :=
  cbv beta iota zeta delta
    [step dataHandler appendAddresses acceptMerkleBlock rejectMerkleBlock
     errorHandler beforeReconnectHandler endHandler settled cancelRejected
     set_latch
     try_catch try_finally bind ret throw get put modify call
     completion final calls fst snd] in *.

Section Handlers.
Context {RawTransactions RawMerkleBlock Tx MerkleBlock : Type}.
Context `{!Utils RawTransactions RawMerkleBlock Tx MerkleBlock}.
Variables (fromBlockHeight : Z) (addresses : list string).

Local Abbreviation step' :=
  (step (RawTransactions := RawTransactions) (RawMerkleBlock := RawMerkleBlock)
     fromBlockHeight addresses).
Local Abbreviation run' :=
  (run (RawTransactions := RawTransactions) (RawMerkleBlock := RawMerkleBlock)
     fromBlockHeight addresses).

Lemma continuous_keeps_rejected (i : Input RawTransactions RawMerkleBlock) s block :
  isRejected block s -> isRejected block (final (step' i s)).
Proof.
  intros (l & Hl & Hrej). unfold isRejected.
  destruct i as [rawTx rawMb|na|b h|b e|e| | |res|e|st]; unfold_c.
  - destruct rawTx as [raw|]; [|destruct rawMb as [raw|]]; simpl.
    + destruct (negb _); simpl; eauto.
    + exists l. split; [|assumption]. now apply lookup_app_l_Some.
    + eauto.
  - crush; eauto.
  - destruct (decide (b = block)) as [->|Hne].
    + rewrite Hl, Hrej. simpl. eauto.
    + crush; eauto using latch_insert_other.
  - destruct (decide (b = block)) as [->|Hne].
    + rewrite Hl. destruct (accepted l); simpl; eauto using latch_insert_same.
    + crush; eauto using latch_insert_other.
  - crush; eauto.
  - simpl; eauto.
  - crush; eauto.
  - crush; eauto.
  - crush; eauto.
- simpl; eauto.
Qed.

Lemma continuous_keeps_accepted (i : Input RawTransactions RawMerkleBlock) s block :
  isAccepted block s -> isAccepted block (final (step' i s)).
Proof.
  intros (l & Hl & Hacc). unfold isAccepted.
  destruct i as [rawTx rawMb|na|b h|b e|e| | |res|e|st]; unfold_c.
  - destruct rawTx as [raw|]; [|destruct rawMb as [raw|]]; simpl.
    + destruct (negb _); simpl; eauto.
    + exists l. split; [|assumption]. now apply lookup_app_l_Some.
    + eauto.
  - crush; eauto.
  - destruct (decide (b = block)) as [->|Hne].
    + rewrite Hl. crush; eauto using latch_insert_same.
    + crush; eauto using latch_insert_other.
  - destruct (decide (b = block)) as [->|Hne].
    + rewrite Hl, Hacc. simpl. eauto.
    + crush; eauto using latch_insert_other.
  - crush; eauto.
  - simpl; eauto.
  - crush; eauto.
  - crush; eauto.
  - crush; eauto.
- simpl; eauto.
Qed.

Lemma continuous_accept_when_rejected s block height :
  isRejected block s ->
  step' (AcceptMerkleBlock block height) s = (Throw unableToAccept, s, []).
Proof. intros (l & Hl & Hrej). unfold_c. rewrite Hl, Hrej. reflexivity. Qed.

Lemma continuous_reject_when_accepted s block e :
  isAccepted block s ->
  step' (RejectMerkleBlock block e) s = (Throw unableToReject, s, []).
Proof. intros (l & Hl & Hacc). unfold_c. rewrite Hl, Hacc. reflexivity. Qed.

Lemma continuous_reject_returned s block e :
  completion (step' (RejectMerkleBlock block e) s) = Normal tt ->
  isRejected block (final (step' (RejectMerkleBlock block e) s)).
Proof.
  unfold isRejected. unfold_c.
  destruct (blocks s !! block) as [l|] eqn:Hl; [|discriminate].
  destruct (accepted l); simpl; [discriminate|].
  intros _. eauto using latch_insert_same.
Qed.

(** On a continuous stream an [accept] call that returns has set the
    [accepted] flag when its height is not below [fromBlockHeight]. *)
Lemma continuous_accept_returned s block height :
  fromBlockHeight <= height ->
  completion (step' (AcceptMerkleBlock block height) s) = Normal tt ->
  isAccepted block (final (step' (AcceptMerkleBlock block height) s)).
Proof.
  intros Hh. unfold isAccepted. unfold_c.
  destruct (blocks s !! block) as [l|] eqn:Hl; [|discriminate].
  destruct (rejected l); simpl; [discriminate|].
  destruct (Z.ltb_spec height fromBlockHeight); [lia|].
  intros _. crush; eauto using latch_insert_same.
Qed.

(** An [accept] with a height below [fromBlockHeight] destroys the
    stream and changes nothing else: the block is not marked accepted. *)
Lemma accept_below_range s block l height :
  blocks s !! block = Some l ->
  rejected l = false ->
  height < fromBlockHeight ->
  step' (AcceptMerkleBlock block height) s =
    (Normal tt, s, [StreamDestroy (lesserError fromBlockHeight height)]).
Proof.
  intros Hl Hrej Hh. unfold_c. rewrite Hl, Hrej.
  destruct (Z.ltb_spec height fromBlockHeight); [reflexivity | lia].
Qed.

Lemma continuous_run_carries (P : Session -> Prop) ins s (i j : nat) x :
  (forall y t, P t -> P (final (step' y t))) ->
  (i < j)%nat -> ins !! i = Some x ->
  P (final (step' x (run' (take i ins) s).2)) ->
  P (run' (take j ins) s).2.
Proof.
  intros Hkeep Hij Hi HP. unfold run in *.
  rewrite (runAll_take_le _ ins s (S i) j) by lia.
  apply runAll_invariant; [exact Hkeep|].
  rewrite (runAll_take_S _ ins s i x Hi). exact HP.
Qed.

Lemma continuous_accept_after_reject ins s (i j : nat) block e cs height :
  (i < j)%nat ->
  ins !! i = Some (RejectMerkleBlock block e) ->
  (run' ins s).1 !! i = Some (Normal tt, cs) ->
  ins !! j = Some (AcceptMerkleBlock block height) ->
  (run' ins s).1 !! j = Some (Throw unableToAccept, []).
Proof.
  intros Hij Hi Hout Hj. unfold run in *.
  rewrite (runAll_lookup _ ins s i _ Hi) in Hout.
  rewrite (runAll_lookup _ ins s j _ Hj).
  rewrite continuous_accept_when_rejected; [reflexivity|].
  apply (continuous_run_carries (isRejected block) ins s i j _
           (fun y t => continuous_keeps_rejected y t block) Hij Hi).
  apply continuous_reject_returned. unfold run. congruence.
Qed.

Lemma continuous_reject_after_accept ins s (i j : nat) block e cs height :
  (i < j)%nat ->
  fromBlockHeight <= height ->
  ins !! i = Some (AcceptMerkleBlock block height) ->
  (run' ins s).1 !! i = Some (Normal tt, cs) ->
  ins !! j = Some (RejectMerkleBlock block e) ->
  (run' ins s).1 !! j = Some (Throw unableToReject, []).
Proof.
  intros Hij Hh Hi Hout Hj. unfold run in *.
  rewrite (runAll_lookup _ ins s i _ Hi) in Hout.
  rewrite (runAll_lookup _ ins s j _ Hj).
  rewrite continuous_reject_when_accepted; [reflexivity|].
  apply (continuous_run_carries (isAccepted block) ins s i j _
           (fun y t => continuous_keeps_accepted y t block) Hij Hi).
  apply continuous_accept_returned; [exact Hh|]. unfold run. congruence.
Qed.

Local Abbreviation errorHandler' :=
  (errorHandler (Tx := Tx) (MerkleBlock := MerkleBlock)).

(** While a restart is pending, [beforeReconnect] amends nothing. *)
Lemma beforeReconnect_pending s args :
  restartArgs s = Some args ->
  beforeReconnectHandler (Tx := Tx) (MerkleBlock := MerkleBlock)
    fromBlockHeight addresses s = (Normal tt, s, []).
Proof. intros Hra. unfold_c. rewrite Hra. reflexivity. Qed.

Lemma continuous_pending_cancelled s streamError args :
  restartArgs s = Some args ->
  isCancelled streamError = true ->
  errorHandler' streamError s =
    (Normal tt, set_inFlight (S (inFlight s)) (set_stream None s),
     [StartContinuousSync args]).
Proof. intros Hra Hc. unfold_c. rewrite Hc. simpl. rewrite Hra. reflexivity. Qed.

Lemma continuous_idle_cancelled s streamError :
  restartArgs s = None ->
  isCancelled streamError = true ->
  errorHandler' streamError s = (Normal tt, set_stream None s, []).
Proof. intros Hra Hc. unfold_c. rewrite Hc. simpl. rewrite Hra. reflexivity. Qed.

Lemma errorHandler_other s streamError :
  isCancelled streamError = false ->
  errorHandler' streamError s = (Normal tt, s, [Emit (ERROR streamError)]).
Proof. intros Hc. unfold_c. rewrite Hc. reflexivity. Qed.

Lemma continuous_settled_clears s result :
  (0 < inFlight s)%nat ->
  restartArgs (final (settled (Tx := Tx) (MerkleBlock := MerkleBlock)
                        result s)) = None.
Proof.
  intros Hk. unfold_c. destruct (inFlight s) as [|n]; [lia|].
  destruct result as [newStream|e]; reflexivity.
Qed.

Lemma continuous_step_reopens (i : Input RawTransactions RawMerkleBlock) s :
  (length (List.filter isRestart (calls (step' i s)))
   <= if isStreamError i then 1 else 0)%nat.
Proof.
  destruct i as [rawTx rawMb|na|b h|b e|e| | |res|e|st]; unfold_c; crush; lia.
Qed.

Lemma continuous_reopened_le_streamErrors ins s :
  (reopened (run' ins s).1 <= streamErrors ins)%nat.
Proof.
  unfold reopened, streamErrors, run. revert s.
  induction ins as [|i ins IH]; intros s; simpl; [lia|].
  rewrite List.filter_app, length_app.
  specialize (IH (final (step' i s))).
  pose proof (continuous_step_reopens i s) as Hi.
  destruct (isStreamError i); simpl; lia.
Qed.

(** *** Resuming after a reconnect *)

Lemma step_synced (i : Input RawTransactions RawMerkleBlock) s heights :
  syncedThrough fromBlockHeight heights s ->
  syncedThrough fromBlockHeight (heights ++ syncedBy i (step' i s))
    (final (step' i s)).
Proof.
  unfold syncedThrough, syncedBy. intros Hs.
  destruct i as [rawTx rawMb|na|b h|b e|e| | |res|e|st]; unfold_c;
    crush; rewrite ?app_nil_r, ?last_snoc; simpl; auto.
Qed.

Lemma run_synced ins s heights :
  syncedThrough fromBlockHeight heights s ->
  syncedThrough fromBlockHeight
    (heights ++ acceptedHeights fromBlockHeight addresses ins s)
    (run' ins s).2.
Proof.
  unfold run. revert s heights.
  induction ins as [|i ins IH]; intros s heights Hs; simpl.
  - now rewrite app_nil_r.
  - rewrite app_assoc. apply IH. now apply step_synced.
Qed.

(** What the handler computes.  When [beforeReconnect] arrives on a
    subscription started at [fromBlockHeight] and no restart for a grown
    filter is pending, the updater is called once, with [fromBlockHeight] itself if
    [lastSyncedBlockHeight] equals it and with
    [lastSyncedBlockHeight + 1] otherwise, and with [count = 0].  When the
    heights were accepted in increasing order and
    [lastSyncedBlockHeight] differs from [fromBlockHeight], no accepted
    height is asked for again. *)
Theorem beforeReconnect_resumes (stream : nat)
    (ins : list (Input RawTransactions RawMerkleBlock)) :
  let s0 := subscribed fromBlockHeight stream in
  let s := (run' ins s0).2 in
  let heights := acceptedHeights fromBlockHeight addresses ins s0 in
  let newFromBlockHeight :=
    if bool_decide (fromBlockHeight = lastSyncedBlockHeight s)
    then fromBlockHeight else lastSyncedBlockHeight s + 1 in
  let bloomFilter :=
    if negb (Nat.eqb (length (addressesGenerated s)) 0)
    then addresses ++ addressesGenerated s else addresses in
  restartArgs s = None ->
  let r := beforeReconnectHandler (Tx := Tx) (MerkleBlock := MerkleBlock)
             fromBlockHeight addresses s in
  calls r = [UpdateArguments bloomFilter newFromBlockHeight 0] /\
  (StronglySorted Z.lt heights ->
   lastSyncedBlockHeight s <> fromBlockHeight ->
   forall h, In h heights -> ~ requestedAgain (calls r) h).
Proof.
  intros s0 s heights newFrom bloomFilter Hra r.
  assert (Hcalls : calls r = [UpdateArguments bloomFilter newFrom 0]).
  { subst r newFrom bloomFilter. unfold_c. rewrite Hra. reflexivity. }
  split; [exact Hcalls|].
  intros Hsorted Hne h Hin (bf & nf & n & Hupd & Hle).
  rewrite Hcalls in Hupd. destruct Hupd as [Heq|[]].
  inversion Heq; subst nf bf n. clear Heq.
  assert (Hsync : syncedThrough fromBlockHeight heights s).
  { pose proof (run_synced ins s0 [] eq_refl) as Hrun. exact Hrun. }
  unfold syncedThrough in Hsync.
  destruct (last heights) as [x|] eqn:Hlast; simpl in Hsync.
  - pose proof (sorted_le_last heights x Hsorted Hlast) as Hall.
    rewrite Forall_forall in Hall.
    specialize (Hall h (proj2 (list_elem_of_In _ _) Hin)).
    subst newFrom. rewrite bool_decide_eq_false_2 in Hle by congruence. lia.
  - congruence.
Qed.
End Handlers.

Import Stubs.

(** A subscription from height 100 on which the blocks at 100 and 101 were
    accepted is resumed from 102. *)
Lemma beforeReconnect_resumes_witness :
  let ins := [Data None (Some "block 100"); AcceptMerkleBlock 0 100;
              Data None (Some "block 101"); AcceptMerkleBlock 1 101] in
  let s0 := subscribed 100 0 in
  let s := (run 100 ["a"] ins s0).2 in
  restartArgs s = None /\
  acceptedHeights 100 ["a"] ins s0 = [100; 101] /\
  lastSyncedBlockHeight s <> 100 /\
  calls (beforeReconnectHandler (Tx := string) (MerkleBlock := string) 100 ["a"] s)
    = [UpdateArguments ["a"] 102 0] /\
  ~ requestedAgain
      (calls (beforeReconnectHandler (Tx := string) (MerkleBlock := string)
                100 ["a"] s)) 101.
Proof.
  cbv zeta.
  pose proof (beforeReconnect_resumes (RawTransactions := list string)
                (RawMerkleBlock := string) 100 ["a"] 0%nat
                [Data None (Some "block 100"); AcceptMerkleBlock 0 100;
                 Data None (Some "block 101"); AcceptMerkleBlock 1 101]
                eq_refl) as (Hcalls & Hagain).
  split; [reflexivity|]. split; [reflexivity|].
  split; [vm_compute; discriminate|].
  split; [exact Hcalls|].
  apply Hagain.
  - repeat constructor.
  - vm_compute; discriminate.
  - right. left. reflexivity.
Defined.

(** C5.  The code departs from the claim on a subscription on which only
    the block at [fromBlockHeight] was accepted.  [lastSyncedBlockHeight]
    starts at [fromBlockHeight], so after [accept(100)] on a subscription
    from height 100 it is what it was before any block arrived: the
    handler answers [beforeReconnect] as it does on the fresh
    subscription, the updater is given [fromBlockHeight = 100] and
    [count = 0], and the accepted height 100 is asked for again.  Once
    the block at 101 is accepted as well the updater is given 102. *)
Lemma beforeReconnect_redelivers :
  let ins := [Data None (Some "block 100"); AcceptMerkleBlock 0 100] in
  let s0 := subscribed 100 0 in
  let s := (run 100 ["a"] ins s0).2 in
  let r := beforeReconnectHandler (Tx := string) (MerkleBlock := string)
             100 ["a"] s in
  let next := [Data None (Some "block 101"); AcceptMerkleBlock 1 101] in
  restartArgs s = None /\
  acceptedHeights 100 ["a"] ins s0 = [100] /\
  lastSyncedBlockHeight s = lastSyncedBlockHeight s0 /\
  calls r = [UpdateArguments ["a"] 100 0] /\
  calls (beforeReconnectHandler (Tx := string) (MerkleBlock := string)
           100 ["a"] s0) = calls r /\
  calls (beforeReconnectHandler (Tx := string) (MerkleBlock := string)
           100 ["a"] (run 100 ["a"] next s).2) = [UpdateArguments ["a"] 102 0] /\
  ~ (forall h, In h (acceptedHeights 100 ["a"] ins s0) ->
               ~ requestedAgain (calls r) h).
Proof.
  cbv zeta. repeat split.
  intros Hno. apply (Hno 100); [left; reflexivity|].
  exists ["a"], 100, 0. split; [left; reflexivity | lia].
Qed.

End ContinuousProofs.

(** ** The transactions reader: both kinds of stream *)

Module TransactionsReaderProofs.
Import TransactionsReader.

Section Callbacks.
Context {RawTransactions RawMerkleBlock Tx MerkleBlock : Type}.
Context `{!Utils RawTransactions RawMerkleBlock Tx MerkleBlock}.

Local Abbreviation hstep :=
  (Historical.step (RawTransactions := RawTransactions) (RawMerkleBlock := RawMerkleBlock)).
Local Abbreviation cstep :=
  (Continuous.step (RawTransactions := RawTransactions) (RawMerkleBlock := RawMerkleBlock)).
Local Abbreviation hrun :=
  (Historical.run (RawTransactions := RawTransactions) (RawMerkleBlock := RawMerkleBlock)).
Local Abbreviation crun :=
  (Continuous.run (RawTransactions := RawTransactions) (RawMerkleBlock := RawMerkleBlock)).

(** C6 (amended).  On a continuous stream, [accept(height)] with
    [height < fromBlockHeight] on a block that was not rejected destroys
    the stream with an error and leaves everything else as it was: the
    block is not marked accepted.  On a historical stream,
    [accept(height, newAddresses)] with
    [height > fromBlockHeight + count - 1] on a block that was not
    rejected throws an error to its caller: it makes no call on the
    stream and schedules no restart. *)
Theorem accept_out_of_range :
  (forall fromBlockHeight addresses (s : Continuous.Session) block l height,
     Continuous.blocks s !! block = Some l ->
     rejected l = false ->
     height < fromBlockHeight ->
     cstep fromBlockHeight addresses (Continuous.AcceptMerkleBlock block height) s =
       (Normal tt, s, [Continuous.StreamDestroy (Continuous.lesserError fromBlockHeight height)])) /\
  (forall maxRetries fromBlockHeight count addresses (s : Historical.Session)
          block l height newAddresses,
     Historical.blocks s !! block = Some l ->
     rejected l = false ->
     fromBlockHeight + count - 1 < height ->
     let r := hstep maxRetries fromBlockHeight count addresses
                (Historical.AcceptMerkleBlock block height newAddresses) s in
     completion r = Throw (Historical.rangeError fromBlockHeight count height) /\
     calls r = [] /\
     Historical.restartArgs (final r) = Historical.restartArgs s /\
     Historical.historicalSyncStream (final r) = Historical.historicalSyncStream s).
Proof.
  split.
  - intros. now apply ContinuousProofs.accept_below_range with (l := l).
  - intros. now apply HistoricalProofs.accept_beyond_range with (l := l).
Qed.

(** C7 (amended).  Whatever else reaches the handlers in between: once a
    [reject] call on a merkle block has returned, every later [accept]
    call on that block throws; once an [accept] call on a merkle block has
    returned, every later [reject] call on that block throws, unless the
    stream is a continuous one and that [accept] was given a height below
    [fromBlockHeight]. *)
Theorem double_commit_throws :
  (forall maxRetries fromBlockHeight count addresses ins (s : Historical.Session)
          (i j : nat) block e cs height newAddresses,
     (i < j)%nat ->
     ins !! i = Some (Historical.RejectMerkleBlock block e) ->
     (hrun maxRetries fromBlockHeight count addresses ins s).1 !! i
       = Some (Normal tt, cs) ->
     ins !! j = Some (Historical.AcceptMerkleBlock block height newAddresses) ->
     (hrun maxRetries fromBlockHeight count addresses ins s).1 !! j
       = Some (Throw unableToAccept, [])) /\
  (forall maxRetries fromBlockHeight count addresses ins (s : Historical.Session)
          (i j : nat) block e cs height newAddresses,
     (i < j)%nat ->
     ins !! i = Some (Historical.AcceptMerkleBlock block height newAddresses) ->
     (hrun maxRetries fromBlockHeight count addresses ins s).1 !! i
       = Some (Normal tt, cs) ->
     ins !! j = Some (Historical.RejectMerkleBlock block e) ->
     (hrun maxRetries fromBlockHeight count addresses ins s).1 !! j
       = Some (Throw unableToReject, [])) /\
  (forall fromBlockHeight addresses ins (s : Continuous.Session)
          (i j : nat) block e cs height,
     (i < j)%nat ->
     ins !! i = Some (Continuous.RejectMerkleBlock block e) ->
     (crun fromBlockHeight addresses ins s).1 !! i = Some (Normal tt, cs) ->
     ins !! j = Some (Continuous.AcceptMerkleBlock block height) ->
     (crun fromBlockHeight addresses ins s).1 !! j
       = Some (Throw unableToAccept, [])) /\
  (forall fromBlockHeight addresses ins (s : Continuous.Session)
          (i j : nat) block e cs height,
     (i < j)%nat ->
     fromBlockHeight <= height ->
     ins !! i = Some (Continuous.AcceptMerkleBlock block height) ->
     (crun fromBlockHeight addresses ins s).1 !! i = Some (Normal tt, cs) ->
     ins !! j = Some (Continuous.RejectMerkleBlock block e) ->
     (crun fromBlockHeight addresses ins s).1 !! j
       = Some (Throw unableToReject, [])).
Proof.
  repeat split; intros.
  - eapply HistoricalProofs.historical_accept_after_reject; eauto.
  - eapply HistoricalProofs.historical_reject_after_accept; eauto.
  - eapply ContinuousProofs.continuous_accept_after_reject; eauto.
  - eapply ContinuousProofs.continuous_reject_after_accept; eauto.
Qed.

(** What the error handlers and the [beforeReconnect] handler do with a
    pending restart.  While [restartArgs] is not null: the error handler
    of a historical stream does not replace it, a retry reopens the stream
    from it and exhausted retries only emit the error; the
    [beforeReconnect] handler of a continuous stream returns without
    calling the updater; a [CANCELLED] error reopens the stream from it,
    once, and [restartArgs] is null as soon as the promise of that
    reopening settles, after which a [CANCELLED] error reopens nothing.
    In every run no more streams are opened than stream errors were
    raised. *)
Theorem restart_pending :
  (forall maxRetries fromBlockHeight count addresses (s : Historical.Session)
          streamError args,
     Historical.restartArgs s = Some args ->
     let r := Historical.errorHandler (Tx := Tx) (MerkleBlock := MerkleBlock)
                maxRetries fromBlockHeight count addresses streamError s in
     Historical.restartArgs (final r) = Some args /\
     (isCancelled streamError = false -> Historical.currentRetries s < maxRetries ->
        calls r = [Historical.SubscribeWithRetries args]) /\
     (isCancelled streamError = false -> maxRetries <= Historical.currentRetries s ->
        calls r = [Historical.Emit (Historical.ERROR streamError)]) /\
     (isCancelled streamError = true ->
        calls r = [Historical.SubscribeWithRetries args] /\
        forall (k : nat) (retry : bool) result,
          Historical.inFlight (final r) !! k = Some retry ->
          let r' := Historical.settled (Tx := Tx) (MerkleBlock := MerkleBlock)
                      k result (final r) in
          Historical.restartArgs (final r') = None /\
          calls (Historical.errorHandler (Tx := Tx) (MerkleBlock := MerkleBlock)
                   maxRetries fromBlockHeight count addresses streamError
                   (final r')) = [])) /\
  (forall fromBlockHeight addresses (s : Continuous.Session) streamError args,
     Continuous.restartArgs s = Some args ->
     Continuous.beforeReconnectHandler (Tx := Tx) (MerkleBlock := MerkleBlock)
       fromBlockHeight addresses s = (Normal tt, s, []) /\
     let r := Continuous.errorHandler (Tx := Tx) (MerkleBlock := MerkleBlock)
                streamError s in
     Continuous.restartArgs (final r) = Some args /\
     (isCancelled streamError = false ->
        calls r = [Continuous.Emit (Continuous.ERROR streamError)]) /\
     (isCancelled streamError = true ->
        calls r = [Continuous.StartContinuousSync args] /\
        forall result,
          let r' := Continuous.settled (Tx := Tx) (MerkleBlock := MerkleBlock)
                      result (final r) in
          Continuous.restartArgs (final r') = None /\
          calls (Continuous.errorHandler (Tx := Tx) (MerkleBlock := MerkleBlock)
                   streamError (final r')) = [])) /\
  (forall maxRetries fromBlockHeight count addresses ins (s : Historical.Session),
     (Historical.reopened (hrun maxRetries fromBlockHeight count addresses ins s).1
      <= Historical.streamErrors ins)%nat) /\
  (forall fromBlockHeight addresses ins (s : Continuous.Session),
     (Continuous.reopened (crun fromBlockHeight addresses ins s).1
      <= Continuous.streamErrors ins)%nat).
Proof.
  split; [|split; [|split]].
  - intros maxRetries fromBlockHeight count addresses s streamError args Hra r.
    subst r.
    destruct (isCancelled streamError) eqn:Hc.
    + rewrite (HistoricalProofs.historical_pending_cancelled
                 maxRetries fromBlockHeight count addresses s streamError args
                 Hra Hc).
      cbn [final calls fst snd].
      split; [exact Hra|]. split; [discriminate|]. split; [discriminate|].
      intros _. split; [reflexivity|].
      intros k retry result Hk.
      pose proof (HistoricalProofs.historical_settled_clears (Tx := Tx)
                    (MerkleBlock := MerkleBlock) _ k retry result Hk) as Hclear.
      split; [exact Hclear|].
      now rewrite (HistoricalProofs.historical_idle_cancelled
                     maxRetries fromBlockHeight count addresses _ streamError
                     Hclear Hc).
    + destruct (Z.lt_ge_cases (Historical.currentRetries s) maxRetries) as [Hlt|Hge].
      * rewrite (HistoricalProofs.errorHandler_pending_retry
                   maxRetries fromBlockHeight count addresses s streamError args
                   Hra Hc Hlt).
        cbn [final calls fst snd].
        split; [exact Hra|]. split; [reflexivity|].
        split; [intros; lia | discriminate].
      * rewrite (HistoricalProofs.errorHandler_pending_exhausted
                   maxRetries fromBlockHeight count addresses s streamError
                   Hc Hge).
        cbn [final calls fst snd].
        split; [exact Hra|]. split; [intros; lia|].
        split; [reflexivity | discriminate].
  - intros fromBlockHeight addresses s streamError args Hra.
    split; [now apply ContinuousProofs.beforeReconnect_pending with (args := args)|].
    intros r. subst r.
    destruct (isCancelled streamError) eqn:Hc.
    + rewrite (ContinuousProofs.continuous_pending_cancelled
                 s streamError args Hra Hc).
      cbn [final calls fst snd].
      split; [exact Hra|]. split; [discriminate|].
      intros _. split; [reflexivity|].
      intros result.
      assert (Hclear : Continuous.restartArgs
                         (final (Continuous.settled (Tx := Tx) (MerkleBlock := MerkleBlock)
                                   result
                                   (Continuous.set_inFlight (S (Continuous.inFlight s))
                                      (Continuous.set_stream None s)))) = None).
      { apply ContinuousProofs.continuous_settled_clears. simpl. lia. }
      split; [exact Hclear|].
      now rewrite (ContinuousProofs.continuous_idle_cancelled
                     _ streamError Hclear Hc).
    + rewrite (ContinuousProofs.errorHandler_other s streamError Hc).
      cbn [final calls fst snd].
      split; [exact Hra|]. split; [reflexivity | discriminate].
  - intros. apply HistoricalProofs.historical_reopened_le_streamErrors.
  - intros. apply ContinuousProofs.continuous_reopened_le_streamErrors.
Qed.
End Callbacks.

Import Stubs.

Lemma accept_out_of_range_witness :
  (Continuous.blocks continuous100 !! 0%nat = Some freshLatch /\
   99 < 100 /\
   Continuous.step (RawTransactions := list string) (RawMerkleBlock := string)
     100 ["a"] (Continuous.AcceptMerkleBlock 0 99) continuous100
   = (Normal tt, continuous100,
      [Continuous.StreamDestroy
         (newError "Merkle block height is lesser than expected startBlockHeight: 99 < 100")])) /\
  (Historical.blocks historical1 !! 0%nat = Some freshLatch /\
   1 + 10 - 1 < 11 /\
   completion (Historical.step (RawTransactions := list string) (RawMerkleBlock := string)
                 10 1 10 ["a"] (Historical.AcceptMerkleBlock 0 11 []) historical1)
   = Throw (newError "Merkle block height is greater than expected range: 11 > 10") /\
   calls (Historical.step (RawTransactions := list string) (RawMerkleBlock := string)
            10 1 10 ["a"] (Historical.AcceptMerkleBlock 0 11 []) historical1) = []).
Proof.
  pose proof (accept_out_of_range (RawTransactions := list string)
                (RawMerkleBlock := string)) as (Hc & Hh).
  split.
  - split; [reflexivity|]. split; [reflexivity|].
    exact (Hc 100 ["a"] continuous100 0%nat freshLatch 99 eq_refl eq_refl eq_refl).
  - split; [reflexivity|]. split; [reflexivity|].
    destruct (Hh 10 1 10 ["a"] historical1 0%nat freshLatch 11 [] eq_refl eq_refl eq_refl)
      as (Hthrow & Hcalls & _).
    split; [exact Hthrow | exact Hcalls].
Defined.

(** C6 as stated fails on historical streams: [accept(11)] on a stream for
    heights 1 to 10 destroys nothing, and the block's latch ends up
    marked accepted. *)
Lemma accept_beyond_range_destroys_nothing :
  let r := Historical.step (RawTransactions := list string) (RawMerkleBlock := string)
             10 1 10 ["a"] (Historical.AcceptMerkleBlock 0 11 []) historical1 in
  ~ (exists e, In (Historical.StreamDestroy e) (calls r)) /\
  Historical.blocks (final r) !! 0%nat = Some (mkLatch false true).
Proof.
  cbv zeta. split; [|reflexivity].
  intros (e & Hin). vm_compute in Hin. exact Hin.
Qed.

Lemma double_commit_throws_witness :
  let e := newError "Invalid merkle block" in
  let hins := [Historical.Data None (Some "block"); Historical.AcceptMerkleBlock 0 1 [];
               Historical.StreamEnd; Historical.RejectMerkleBlock 0 e] in
  let cins := [Continuous.Data None (Some "block"); Continuous.RejectMerkleBlock 0 e;
               Continuous.BeforeReconnect; Continuous.AcceptMerkleBlock 0 100] in
  let cins' := [Continuous.Data None (Some "block"); Continuous.AcceptMerkleBlock 0 100;
                Continuous.BeforeReconnect; Continuous.RejectMerkleBlock 0 e] in
  ((Historical.run (RawTransactions := list string) 10 1 10 ["a"] hins (Historical.subscribed 1 0 0)).1
     !! 1%nat = Some (Normal tt, []) /\
   (Historical.run (RawTransactions := list string) 10 1 10 ["a"] hins (Historical.subscribed 1 0 0)).1
     !! 3%nat = Some (Throw unableToReject, [])) /\
  ((Continuous.run (RawTransactions := list string) 100 ["a"] cins (Continuous.subscribed 100 0)).1
     !! 1%nat = Some (Normal tt, [Continuous.StreamDestroy e]) /\
   (Continuous.run (RawTransactions := list string) 100 ["a"] cins (Continuous.subscribed 100 0)).1
     !! 3%nat = Some (Throw unableToAccept, [])) /\
  ((Continuous.run (RawTransactions := list string) 100 ["a"] cins' (Continuous.subscribed 100 0)).1
     !! 1%nat = Some (Normal tt, []) /\
   100 <= 100 /\
   (Continuous.run (RawTransactions := list string) 100 ["a"] cins' (Continuous.subscribed 100 0)).1
     !! 3%nat = Some (Throw unableToReject, [])).
Proof.
  pose proof (double_commit_throws (RawTransactions := list string)
                (RawMerkleBlock := string)) as (_ & Hh & Hc & Hc').
  cbv zeta. split; [|split].
  - split; [reflexivity|].
    apply (Hh 10 1 10 ["a"] _ (Historical.subscribed 1 0 0) 1%nat 3%nat 0%nat
             (newError "Invalid merkle block") [] 1 []);
      [lia | reflexivity ..].
  - split; [reflexivity|].
    apply (Hc 100 ["a"] _ (Continuous.subscribed 100 0) 1%nat 3%nat 0%nat
             (newError "Invalid merkle block")
             [Continuous.StreamDestroy (newError "Invalid merkle block")] 100);
      [lia | reflexivity ..].
  - split; [reflexivity|]. split; [lia|].
    apply (Hc' 100 ["a"] _ (Continuous.subscribed 100 0) 1%nat 3%nat 0%nat
             (newError "Invalid merkle block") [] 100);
      [lia | lia | reflexivity ..].
Defined.

(** C7 as stated fails on continuous streams: after [accept(5)] on a
    stream from height 10 has returned, [reject] on the same block returns
    too. *)
Lemma reject_after_low_accept_returns :
  let e := newError "Invalid merkle block" in
  let ins := [Continuous.Data None (Some "block"); Continuous.AcceptMerkleBlock 0 5;
              Continuous.RejectMerkleBlock 0 e] in
  let out := (Continuous.run (RawTransactions := list string) 10 ["a"] ins
                (Continuous.subscribed 10 0)).1 in
  out !! 1%nat
    = Some (Normal tt,
            [Continuous.StreamDestroy
               (newError "Merkle block height is lesser than expected startBlockHeight: 5 < 10")]) /\
  out !! 2%nat = Some (Normal tt, [Continuous.StreamDestroy e]) /\
  ~ (exists e', out !! 2%nat = Some (Throw e', [])).
Proof.
  cbv zeta. split; [reflexivity|]. split; [reflexivity|].
  intros (e' & He'). vm_compute in He'. discriminate He'.
Qed.

Lemma restart_pending_witness :
  (Historical.restartArgs historicalPending = Some (Historical.mkRestartArgs 4 7 ["a"; "b"]) /\
   isCancelled cancelled = true /\
   isCancelled (newError "Unavailable") = false /\
   Historical.currentRetries historicalPending < 10 /\
   calls (Historical.errorHandler (Tx := string) (MerkleBlock := string)
            10 1 10 ["a"] cancelled historicalPending)
     = [Historical.SubscribeWithRetries (Historical.mkRestartArgs 4 7 ["a"; "b"])] /\
   calls (Historical.errorHandler (Tx := string) (MerkleBlock := string)
            10 1 10 ["a"] (newError "Unavailable") historicalPending)
     = [Historical.SubscribeWithRetries (Historical.mkRestartArgs 4 7 ["a"; "b"])]) /\
  (Continuous.restartArgs continuousPending = Some (Continuous.mkRestartArgs 101 ["a"; "b"]) /\
   Continuous.beforeReconnectHandler (Tx := string) (MerkleBlock := string)
     100 ["a"] continuousPending = (Normal tt, continuousPending, []) /\
   calls (Continuous.errorHandler (Tx := string) (MerkleBlock := string)
            cancelled continuousPending)
     = [Continuous.StartContinuousSync (Continuous.mkRestartArgs 101 ["a"; "b"])]).
Proof.
  pose proof (restart_pending (RawTransactions := list string)
                (RawMerkleBlock := string) (Tx := string) (MerkleBlock := string))
    as (Hh & Hc & _ & _).
  split.
  - do 4 (split; [reflexivity|]).
    split.
    + destruct (Hh 10 1 10 ["a"] historicalPending cancelled
                  (Historical.mkRestartArgs 4 7 ["a"; "b"]) eq_refl)
        as (_ & _ & _ & Hcancel).
      exact (proj1 (Hcancel eq_refl)).
    + destruct (Hh 10 1 10 ["a"] historicalPending (newError "Unavailable")
                  (Historical.mkRestartArgs 4 7 ["a"; "b"]) eq_refl)
        as (_ & Hretry & _ & _).
      apply Hretry; reflexivity.
  - split; [reflexivity|].
    destruct (Hc 100 ["a"] continuousPending cancelled
                (Continuous.mkRestartArgs 101 ["a"; "b"]) eq_refl)
      as (Hbefore & _ & _ & Hcancel).
    split; [exact Hbefore|]. exact (proj1 (Hcancel eq_refl)).
Defined.

(** C8.  The code departs from the claim when a second block grows the
    filter while a restart is pending.  On a stream for heights 1 to 10
    with address [a], [accept(3, ["b"])] schedules the restart from 4
    with [a] and [b]; the next block arrives before the [CANCELLED] error
    does, and [accept(5, ["c"])] on it replaces the pending [restartArgs]
    and cancels the stream again.  The [CANCELLED] error then reopens the
    stream from the replaced arguments, from 6 with [a] and [c]: address
    [b] is in no filter any more and the heights 4 and 5 are not read
    with it. *)
Lemma accept_replaces_pending_restart :
  let pending :=
    (Historical.run (RawTransactions := list string) 10 1 10 ["a"]
       [Historical.Data None (Some "block 3");
        Historical.AcceptMerkleBlock 0 3 ["b"]]
       (Historical.subscribed 1 0 0)).2 in
  let s := (Historical.run (RawTransactions := list string) 10 1 10 ["a"]
              [Historical.Data None (Some "next block")] pending).2 in
  let r := Historical.step (RawTransactions := list string) (RawMerkleBlock := string)
             10 1 10 ["a"] (Historical.AcceptMerkleBlock 1 5 ["c"]) s in
  let reopening :=
    Historical.step (RawTransactions := list string) (RawMerkleBlock := string)
      10 1 10 ["a"] (Historical.StreamError cancelled) (final r) in
  Historical.restartArgs s = Some (Historical.mkRestartArgs 4 7 ["a"; "b"]) /\
  completion r = Normal tt /\
  calls r = [Historical.StreamCancel] /\
  Historical.restartArgs (final r) = Some (Historical.mkRestartArgs 6 5 ["a"; "c"]) /\
  Historical.restartArgs (final r) <> Historical.restartArgs s /\
  calls reopening =
    [Historical.SubscribeWithRetries (Historical.mkRestartArgs 6 5 ["a"; "c"])] /\
  ~ Historical.requested (calls reopening) 4 /\
  ~ Historical.requested (calls reopening) 5.
Proof.
  cbv zeta. repeat split; try (vm_compute; discriminate).
  - intros (args & [Hin|[]] & Hrange). inversion Hin; subst args.
    simpl in Hrange. lia.
  - intros (args & [Hin|[]] & Hrange). inversion Hin; subst args.
    simpl in Hrange. lia.
Qed.

End TransactionsReaderProofs.

(** ** The historical plan *)

Module BlockHeadersReaderProofs.
Import BlockHeadersReader.

(** [round_div] and [ceil_div] are rounding to nearest and rounding up of
    the exact quotient. *)
Lemma round_div_spec (a b : Z) :
  0 < b -> 2 * b * round_div a b <= 2 * a + b < 2 * b * (round_div a b + 1).
Proof.
  intros Hb. unfold round_div.
  pose proof (Z.div_mod (2 * a + b) (2 * b) ltac:(lia)) as Hdm.
  pose proof (Z.mod_pos_bound (2 * a + b) (2 * b) ltac:(lia)) as Hm.
  lia.
Qed.

Lemma ceil_div_spec (a b : Z) :
  0 < b -> b * (ceil_div a b - 1) < a <= b * ceil_div a b.
Proof.
  intros Hb. unfold ceil_div.
  pose proof (Z.div_mod (a + b - 1) b ltac:(lia)) as Hdm.
  pose proof (Z.mod_pos_bound (a + b - 1) b ltac:(lia)) as Hm.
  lia.
Qed.

Lemma sumZ_app (l1 l2 : list Z) : sumZ (l1 ++ l2) = sumZ l1 + sumZ l2.
Proof. induction l1 as [|x l1 IH]; simpl; lia. Qed.

Lemma sumZ_constant {A} (f : A -> Z * Z) (per : Z) (l : list A) :
  (forall i, snd (f i) = per) ->
  sumZ (sizes (map f l)) = per * Z.of_nat (length l).
Proof.
  intros Hf. unfold sizes.
  induction l as [|x l IH]; simpl length; [simpl; lia|].
  cbn [map sumZ]. rewrite Hf, IH. lia.
Qed.

(** More than [1.4] batches round to one stream at least. *)
Lemma numStreams_pos (o : Options) (total : Z) :
  1 <= targetBatchSize o -> 1 <= maxParallelStreams o ->
  fitsOneStream o total = false ->
  1 <= numStreams o total <= maxParallelStreams o.
Proof.
  intros Ht Hm Hfit. unfold fitsOneStream in Hfit.
  apply Z.leb_gt in Hfit.
  pose proof (round_div_spec total (targetBatchSize o) ltac:(lia)) as Hr.
  unfold numStreams.
  assert (1 <= round_div total (targetBatchSize o)) by nia.
  lia.
Qed.

(** C4.  [readHistorical(fromHeight, toHeight)] with
    [total = toHeight - fromHeight + 1 >= 1], on a reader with no plan
    running: if [total <= targetBatchSize * 1.4] the plan is the one
    sub-stream [(fromHeight, total)]; otherwise it has
    [numStreams = min(round(total / targetBatchSize), maxParallelStreams)]
    sub-streams, the first [numStreams - 1] of size
    [per = ceil(total / numStreams)] starting at [fromHeight + i * per] and
    the last of size [total - per * (numStreams - 1)].  The sizes sum to
    [total]. *)
Theorem readHistorical_plan (o : Options) (fromHeight toHeight : Z) :
  1 <= targetBatchSize o ->
  1 <= maxParallelStreams o ->
  1 <= fromHeight ->
  let total := toHeight - fromHeight + 1 in
  1 <= total ->
  exists plan,
    readHistorical o false fromHeight toHeight = Normal plan /\
    sumZ (sizes plan) = total /\
    (10 * total <= 14 * targetBatchSize o -> plan = [(fromHeight, total)]) /\
    (14 * targetBatchSize o < 10 * total ->
     let n := Z.min (round_div total (targetBatchSize o)) (maxParallelStreams o) in
     let per := ceil_div total n in
     length plan = Z.to_nat n /\
     (forall i : nat, Z.of_nat i < n - 1 ->
        plan !! i = Some (fromHeight + Z.of_nat i * per, per)) /\
     plan !! Z.to_nat (n - 1)
       = Some (fromHeight + (n - 1) * per, total - per * (n - 1))).
Proof.
  intros Ht Hm Hfrom total Htotal.
  exists (partition o fromHeight total). split; [|split; [|split]].
  - unfold readHistorical. fold total.
    destruct (Z.ltb_spec fromHeight 1); [lia|].
    destruct (Z.ltb_spec total 1); [lia | reflexivity].
  - unfold partition.
    destruct (fitsOneStream o total) eqn:Hfit; [simpl; lia|].
    pose proof (numStreams_pos o total Ht Hm Hfit) as Hn.
    set (n := numStreams o total) in *. set (per := ceil_div total n).
    unfold sizes. rewrite map_app. fold (sizes (map (fun i => (fromHeight + i * per, per))
                                                 (seqZ 0 (n - 1)))).
    rewrite sumZ_app, sumZ_constant with (per := per) by reflexivity.
    rewrite length_seqZ, Z2Nat.id by lia. simpl. lia.
  - intros Hsmall. unfold partition, fitsOneStream.
    destruct (Z.leb_spec (10 * total) (14 * targetBatchSize o)); [reflexivity | lia].
  - intros Hbig n per.
    assert (Hfit : fitsOneStream o total = false).
    { unfold fitsOneStream. apply Z.leb_gt. lia. }
    pose proof (numStreams_pos o total Ht Hm Hfit) as Hn.
    unfold partition. rewrite Hfit. fold (numStreams o total) in n.
    change (numStreams o total) with n. change (ceil_div total n) with per.
    split; [|split].
    + rewrite length_app, length_map, length_seqZ. simpl. lia.
    + intros i Hi.
      rewrite lookup_app_l by (rewrite length_map, length_seqZ; lia).
      rewrite list_lookup_fmap, lookup_seqZ_lt by lia. simpl. reflexivity.
    + rewrite lookup_app_r by (rewrite length_map, length_seqZ; lia).
      rewrite length_map, length_seqZ, Nat.sub_diag. reflexivity.
Qed.

(** The plans of the specification's scenarios: 34 headers in batches of
    10 and 100 headers on at most 6 streams. *)
Lemma readHistorical_plan_witness :
  let o := mkOptions 6 10 in
  (1 <= targetBatchSize o /\ 1 <= maxParallelStreams o /\ 1 <= 1 /\
   1 <= 34 - 1 + 1) /\
  (exists plan, readHistorical o false 1 34 = Normal plan /\
                sumZ (sizes plan) = 34) /\
  readHistorical o false 1 34 = Normal [(1, 12); (13, 12); (25, 10)] /\
  sizes (partition o 1 100) = [17; 17; 17; 17; 17; 15] /\
  readHistorical o false 1 13 = Normal [(1, 13)].
Proof.
  cbv zeta. split; [repeat split; vm_compute; discriminate|].
  split.
  - destruct (readHistorical_plan (mkOptions 6 10) 1 34) as (plan & Hp & Hs & _);
      [vm_compute; discriminate ..|].
    exists plan. split; assumption.
  - repeat split.
Defined.

End BlockHeadersReaderProofs.

(** * Further properties of the code *)

(** Boolean comparisons among the hypotheses, as propositions. *)
Ltac zbool :=
  repeat match goal with
         | H : (_ <? _) = true |- _ => apply Z.ltb_lt in H
         | H : (_ <? _) = false |- _ => apply Z.ltb_ge in H
         | H : (_ <=? _) = true |- _ => apply Z.leb_le in H
         | H : (_ <=? _) = false |- _ => apply Z.leb_gt in H
         | H : (_ =? _) = true |- _ => apply Z.eqb_eq in H
         | H : (_ =? _) = false |- _ => apply Z.eqb_neq in H
         | H : (_ >? _) = true |- _ => rewrite Z.gtb_ltb in H
         | H : (_ >? _) = false |- _ => rewrite Z.gtb_ltb in H
         end.

(** ** The provider's life cycle *)

Module ProviderLifecycle.
Import BlockHeadersProvider.

Ltac unfold_p :=
  cbv beta iota zeta delta
    [handleHeaders handleHistoricalDataObtained handleError destroyReader
     removeReaderListeners with_reader chainAddHeaders chainValidate emit
     ensureChainRoot init readHistorical startContinuousSync stop readerCall
     on once removeListener
     try_catch try_finally bind ret throw get put modify call
     completion final calls fst snd] in *.

(** The listeners [readHistorical] attached, once the reader's emitter
    has taken the [once] registration out to call it: removing them in
    the order [removeReaderListeners] does leaves the table there was
    before, less one older registration for [HISTORICAL_DATA_OBTAINED]
    when there is one. *)
Lemma remove_attached (ls : list Listener) :
  let attached :=
    ls ++ [mkListener R_BLOCK_HEADERS HandleHeaders false;
           mkListener R_ERROR HandleError false;
           mkListener R_HISTORICAL_DATA_OBTAINED HandleHistoricalDataObtained
             true] in
  let fired :=
    rev (remove_first R_HISTORICAL_DATA_OBTAINED HandleHistoricalDataObtained
           (rev attached)) in
  rev (remove_first R_HISTORICAL_DATA_OBTAINED HandleHistoricalDataObtained
    (rev (rev (remove_first R_BLOCK_HEADERS HandleHeaders
      (rev (rev (remove_first R_ERROR HandleError (rev fired)))))))) =
  rev (remove_first R_HISTORICAL_DATA_OBTAINED HandleHistoricalDataObtained
         (rev ls)).
Proof.
  cbv zeta.
  repeat (rewrite ?rev_app_distr, ?rev_involutive; simpl).
  reflexivity.
Qed.

Lemma remove_first_none (ev : ReaderEvent) (h : Handler) (ls : list Listener) :
  Forall (fun l => listens ev h l = false) ls -> remove_first ev h ls = ls.
Proof.
  induction 1 as [|l ls Hl Hls IH]; simpl; [reflexivity|].
  rewrite Hl, IH. reflexivity.
Qed.

Section Provider.
Context {Header Chain RS : Type}.
Context `{!SpvChain Header Chain} `{!ReaderMethods RS}.
Implicit Types (p : Provider Header Chain RS) (e : JsError).

(** The provider an idle, configured provider becomes by
    [readHistorical]: the reader, built when none was there, has three
    more listeners and is in the state its [readHistorical] left it in. *)
Lemma readHistorical_final p fromBlockHeight toBlockHeight :
  coreMethods p = true -> state p = IDLE ->
  let reader :=
    default (mkReader [] newBlockHeadersReader) (blockHeadersReader p) in
  let res :=
    reader_readHistorical (default 1 fromBlockHeight) toBlockHeight
      (internals reader) in
  let r := readHistorical (Header := Header) fromBlockHeight toBlockHeight p in
  completion r = res.1 /\
  final r =
    mkProvider
      (match res.1 with Normal _ => HISTORICAL_SYNC | Throw _ => IDLE end)
      true
      (Some (mkReader
               (listeners reader ++
                  [mkListener R_BLOCK_HEADERS HandleHeaders false;
                   mkListener R_ERROR HandleError false;
                   mkListener R_HISTORICAL_DATA_OBTAINED
                     HandleHistoricalDataObtained true])
               res.2))
      (spvChain (final (ensureChainRoot (Header := Header)
                          (default 1 fromBlockHeight) p)))
      true (errorListeners p) (listenerThrows p).
Proof.
  intros Hc Hs. unfold_p. rewrite Hc, Hs. simpl.
  destruct (blockHeadersReader p) as [rd|] eqn:Hr; simpl;
    do 3 (rewrite ?Hr; simpl);
    destruct (truthy _); simpl;
    destruct (reader_readHistorical _ _ _) as [[[]|e] rs]; simpl;
    rewrite <- ?app_assoc; simpl;
    unfold set_state, set_chain, set_reader, set_wasmX11Ready; simpl;
    rewrite ?Hc, ?Hs; auto.
Qed.

Lemma startContinuousSync_final p fromBlockHeight :
  coreMethods p = true -> state p = IDLE ->
  let reader :=
    default (mkReader [] newBlockHeadersReader) (blockHeadersReader p) in
  let res := reader_subscribeToNew fromBlockHeight (internals reader) in
  let r := startContinuousSync (Header := Header) fromBlockHeight p in
  completion r = res.1 /\
  final r =
    mkProvider
      (match res.1 with Normal _ => CONTINUOUS_SYNC | Throw _ => IDLE end)
      true
      (Some (mkReader
               (listeners reader ++
                  [mkListener R_BLOCK_HEADERS HandleHeaders false;
                   mkListener R_ERROR HandleError false])
               res.2))
      (spvChain (final (ensureChainRoot (Header := Header) fromBlockHeight p)))
      true (errorListeners p) (listenerThrows p).
Proof.
  intros Hc Hs. unfold_p. rewrite Hc, Hs. simpl.
  destruct (blockHeadersReader p) as [rd|] eqn:Hr; simpl;
    do 3 (rewrite ?Hr; simpl);
    destruct (truthy _); simpl;
    destruct (reader_subscribeToNew _ _) as [[[]|e] rs]; simpl;
    rewrite <- ?app_assoc; simpl;
    unfold set_state, set_chain, set_reader, set_wasmX11Ready; simpl;
    rewrite ?Hc, ?Hs; auto.
Qed.

(** X1.  [readHistorical] on an idle, configured provider with a reader
    attached completes with what the reader's [readHistorical] completes
    with; the provider is in [HISTORICAL_SYNC] when that was a success and
    still [IDLE] when it threw; either way the reader has gained the
    listeners for [BLOCK_HEADERS], [error] and (once)
    [HISTORICAL_DATA_OBTAINED], so a failed attempt leaves them behind. *)
Theorem readHistorical_attaches p fromBlockHeight toBlockHeight reader :
  coreMethods p = true -> state p = IDLE ->
  blockHeadersReader p = Some reader ->
  let r := readHistorical (Header := Header) fromBlockHeight toBlockHeight p in
  completion r =
    (reader_readHistorical (default 1 fromBlockHeight) toBlockHeight
       (internals reader)).1 /\
  state (final r) =
    match completion r with
    | Normal _ => HISTORICAL_SYNC
    | Throw _ => IDLE
    end /\
  exists reader',
    blockHeadersReader (final r) = Some reader' /\
    listeners reader' =
      listeners reader ++
        [mkListener R_BLOCK_HEADERS HandleHeaders false;
         mkListener R_ERROR HandleError false;
         mkListener R_HISTORICAL_DATA_OBTAINED HandleHistoricalDataObtained true].
Proof.
  intros Hc Hs Hr.
  destruct (readHistorical_final p fromBlockHeight toBlockHeight Hc Hs)
    as [Hcompl Hfinal].
  rewrite Hr in Hcompl, Hfinal. simpl in Hcompl, Hfinal.
  cbv zeta. rewrite Hfinal, Hcompl. simpl. eauto.
Qed.

(** X2.  A historical sync that runs to its end takes off the reader
    every listener the provider attached.  The reader has no registration
    of [handleHistoricalDataObtained] from before (a failed
    [readHistorical] would have left one), so that the
    [HISTORICAL_DATA_OBTAINED] event of the reader calls the handler
    once.  After a [readHistorical] that succeeded, when the reader emits
    that event (its emitter takes the [once] registration out and calls
    [handleHistoricalDataObtained]), [validate] succeeds and no listener
    of the provider's own event throws: the provider calls [validate],
    emits [HISTORICAL_DATA_OBTAINED] and nothing else, and is [IDLE] with
    the validated chain; the reader is kept, with exactly the listeners
    it had before [readHistorical]. *)
Theorem historical_sync_restores_listeners p fromBlockHeight toBlockHeight
    reader chain' :
  coreMethods p = true -> state p = IDLE ->
  blockHeadersReader p = Some reader ->
  Forall (fun l => listens R_HISTORICAL_DATA_OBTAINED
                     HandleHistoricalDataObtained l = false)
    (listeners reader) ->
  let started := readHistorical (Header := Header) fromBlockHeight toBlockHeight p in
  completion started = Normal tt ->
  let fired :=
    final (with_reader
             (removeListener R_HISTORICAL_DATA_OBTAINED
                HandleHistoricalDataObtained) (final started)) in
  validate (spvChain fired) = (Normal tt, chain') ->
  listenerThrows p HISTORICAL_DATA_OBTAINED = None ->
  let done := handleHistoricalDataObtained fired in
  completion done = Normal tt /\
  calls done = [ChainValidate; Emit HISTORICAL_DATA_OBTAINED] /\
  state (final done) = IDLE /\
  spvChain (final done) = chain' /\
  exists reader',
    blockHeadersReader (final done) = Some reader' /\
    listeners reader' = listeners reader /\
    internals reader' =
      (reader_readHistorical (default 1 fromBlockHeight) toBlockHeight
         (internals reader)).2.
Proof.
  intros Hc Hs Hr Hnone.
  destruct (readHistorical_final p fromBlockHeight toBlockHeight Hc Hs)
    as [Hcompl Hfinal].
  rewrite Hr in Hcompl, Hfinal. simpl in Hcompl, Hfinal.
  cbv zeta. rewrite Hfinal, Hcompl. clear Hfinal Hcompl.
  remember (spvChain (final (ensureChainRoot _ p))) as chain eqn:Hchain.
  clear Hchain.
  destruct (reader_readHistorical _ _ _) as [[[]|e'] rs]; simpl;
    intros Hok Hval Hl; [|discriminate].
  unfold_p. simpl in *. rewrite Hval. simpl. rewrite Hl. simpl.
  repeat split. eexists. split; [reflexivity|]. simpl.
  pose proof (remove_attached (listeners reader)) as Hrm. cbv zeta in Hrm.
  split; [|reflexivity].
  rewrite Hrm.
  rewrite remove_first_none; [apply rev_involutive|].
  now apply Forall_rev.
Qed.

(** X3.  [stop] after a start that succeeded: after [readHistorical] it
    calls the reader's [stopReadingHistorical], after
    [startContinuousSync] its [unsubscribeFromNew]; in both cases it then
    emits [STOPPED], and the provider is [IDLE] without a reader.  A
    second [stop] does nothing at all. *)
Theorem stop_after_start p :
  coreMethods p = true -> state p = IDLE ->
  listenerThrows p STOPPED = None ->
  (forall fromBlockHeight toBlockHeight,
     let started :=
       readHistorical (Header := Header) fromBlockHeight toBlockHeight p in
     completion started = Normal tt ->
     let r := stop (final started) in
     completion r = Normal tt /\
     calls r = [ReaderStopReadingHistorical; Emit STOPPED] /\
     state (final r) = IDLE /\
     blockHeadersReader (final r) = None /\
     stop (final r) = (Normal tt, final r, [])) /\
  (forall fromBlockHeight,
     let started := startContinuousSync (Header := Header) fromBlockHeight p in
     completion started = Normal tt ->
     let r := stop (final started) in
     completion r = Normal tt /\
     calls r = [ReaderUnsubscribeFromNew; Emit STOPPED] /\
     state (final r) = IDLE /\
     blockHeadersReader (final r) = None /\
     stop (final r) = (Normal tt, final r, [])).
Proof.
  intros Hc Hs Hl. split.
  - intros f t.
    destruct (readHistorical_final p f t Hc Hs) as [Hcompl Hfinal].
    cbv zeta. rewrite Hfinal, Hcompl. clear Hfinal Hcompl.
    remember (spvChain (final (ensureChainRoot _ p))) as chain eqn:Hchain.
    clear Hchain.
    destruct (reader_readHistorical _ _ _) as [[[]|e'] rs]; simpl;
      intros Hok; [|discriminate].
    unfold_p. simpl. rewrite Hl. simpl. auto 10.
  - intros f.
    destruct (startContinuousSync_final p f Hc Hs) as [Hcompl Hfinal].
    cbv zeta. rewrite Hfinal, Hcompl. clear Hfinal Hcompl.
    remember (spvChain (final (ensureChainRoot _ p))) as chain eqn:Hchain.
    clear Hchain.
    destruct (reader_subscribeToNew _ _) as [[[]|e'] rs]; simpl;
      intros Hok; [|discriminate].
    unfold_p. simpl. rewrite Hl. simpl. auto 10.
Qed.

(** X4.  [handleError] does not touch [state].  When it runs on a
    provider that is syncing, the provider is left in its sync state
    without a reader: [stop] then throws a [TypeError] before it changes
    or emits anything, and [readHistorical] and [startContinuousSync] are
    turned away by their busy guards. *)
Theorem handleError_leaves_provider_stuck p e reader :
  coreMethods p = true -> state p <> IDLE ->
  blockHeadersReader p = Some reader ->
  let p' := final (handleError (Header := Header) e p) in
  state p' = state p /\
  blockHeadersReader p' = None /\
  stop p' = (Throw (newTypeError "Cannot read properties of null"), p', []) /\
  (forall fromBlockHeight toBlockHeight,
     readHistorical fromBlockHeight toBlockHeight p' =
       (Throw (busyHistorical (state p)), p', [])) /\
  (forall fromBlockHeight,
     startContinuousSync fromBlockHeight p' =
       (Throw (busyContinuous (state p)), p', [])).
Proof.
  intros Hc Hs Hr. cbv zeta.
  assert (Hfinal : final (handleError (Header := Header) e p) =
                   set_reader None p).
  { unfold_p. rewrite Hr. simpl.
    destruct (Nat.eqb (errorListeners p) 0); simpl; [reflexivity|].
    destruct (listenerThrows p (ERROR e)); reflexivity. }
  rewrite Hfinal. unfold_p. simpl. rewrite Hc. simpl.
  destruct (state p) eqn:Hst; [congruence| |]; simpl; auto.
Qed.
End Provider.

Import Stubs.

(** The theorems at the provider of the unit tests. *)

Lemma readHistorical_attaches_witness :
  let p := provider IDLE acceptingChain in
  let r := readHistorical (Some 1) 5 p in
  (coreMethods p = true /\ state p = IDLE /\
   blockHeadersReader p = Some (mkReader [] tt)) /\
  completion r = Normal tt /\
  state (final r) = HISTORICAL_SYNC.
Proof.
  cbv zeta. split; [repeat split|].
  destruct (readHistorical_attaches (provider IDLE acceptingChain) (Some 1) 5
              (mkReader [] tt) eq_refl eq_refl eq_refl) as (Hc & Hs & _).
  split; [exact Hc | exact Hs].
Defined.

Lemma historical_sync_restores_listeners_witness :
  let p := provider IDLE acceptingChain in
  let started := readHistorical (Some 1) 5 p in
  let fired :=
    final (with_reader
             (removeListener R_HISTORICAL_DATA_OBTAINED
                HandleHistoricalDataObtained) (final started)) in
  let done := handleHistoricalDataObtained fired in
  (coreMethods p = true /\ state p = IDLE /\
   blockHeadersReader p = Some (mkReader [] tt) /\
   completion started = Normal tt /\
   validate (spvChain fired) = (Normal tt, acceptingChain) /\
   listenerThrows p HISTORICAL_DATA_OBTAINED = None) /\
  calls done = [ChainValidate; Emit HISTORICAL_DATA_OBTAINED] /\
  state (final done) = IDLE.
Proof.
  cbv zeta. split; [repeat split|].
  pose proof (historical_sync_restores_listeners (provider IDLE acceptingChain)
                (Some 1) 5 (mkReader [] tt) acceptingChain
                eq_refl eq_refl eq_refl (List.Forall_nil _)) as H.
  cbv zeta in H.
  destruct (H eq_refl eq_refl eq_refl) as (_ & Hcalls & Hstate & _).
  split; [exact Hcalls | exact Hstate].
Defined.

Lemma stop_after_start_witness :
  let p := provider IDLE acceptingChain in
  (coreMethods p = true /\ state p = IDLE /\
   listenerThrows p STOPPED = None /\
   completion (readHistorical (Some 1) 5 p) = Normal tt /\
   completion (startContinuousSync 5 p) = Normal tt) /\
  calls (stop (final (readHistorical (Some 1) 5 p))) =
    [ReaderStopReadingHistorical; Emit STOPPED] /\
  calls (stop (final (startContinuousSync 5 p))) =
    [ReaderUnsubscribeFromNew; Emit STOPPED].
Proof.
  cbv zeta. split; [repeat split|].
  destruct (stop_after_start (provider IDLE acceptingChain)
              eq_refl eq_refl eq_refl) as (Hhistorical & Hcontinuous).
  split.
  - exact (proj1 (proj2 (Hhistorical (Some 1) 5 eq_refl))).
  - exact (proj1 (proj2 (Hcontinuous 5 eq_refl))).
Defined.

Lemma handleError_leaves_provider_stuck_witness :
  let p := provider HISTORICAL_SYNC acceptingChain in
  let p' := final (handleError (Header := Z) (newError "test") p) in
  (coreMethods p = true /\ state p <> IDLE /\
   blockHeadersReader p = Some (mkReader [] tt)) /\
  state p' = HISTORICAL_SYNC /\
  completion (stop p') = Throw (newTypeError "Cannot read properties of null").
Proof.
  cbv zeta. split; [repeat split; discriminate|].
  destruct (handleError_leaves_provider_stuck
              (provider HISTORICAL_SYNC acceptingChain) (newError "test")
              (mkReader [] tt) eq_refl ltac:(discriminate) eq_refl)
    as (Hstate & _ & Hstop & _).
  split; [exact Hstate|].
  exact (f_equal (fun r => completion r) Hstop).
Defined.

End ProviderLifecycle.

(** ** Historical transaction streams over whole runs *)

Module HistoricalRuns.
Import TransactionsReader TransactionsReader.Historical.
Import TransactionsReaderMethods.

Ltac unfold_h :=
  cbv beta iota zeta delta
    [step dataHandler acceptMerkleBlock rejectMerkleBlock errorHandler
     endHandler settled cancelRejected resubscribe set_latch
     try_catch try_finally bind ret throw get put modify call
     completion final calls fst snd] in *.

Section Handlers.
Context {RawTransactions RawMerkleBlock Tx MerkleBlock : Type}.
Context `{!Utils RawTransactions RawMerkleBlock Tx MerkleBlock}.
Variables (maxRetries fromBlockHeight count : Z) (addresses : list string).

Local Abbreviation step' :=
  (step (RawTransactions := RawTransactions) (RawMerkleBlock := RawMerkleBlock)
     maxRetries fromBlockHeight count addresses).
Local Abbreviation run' :=
  (run (RawTransactions := RawTransactions) (RawMerkleBlock := RawMerkleBlock)
     maxRetries fromBlockHeight count addresses).

(** Restart arguments that end where the range of the call ends, ask for
    at least one block and keep the addresses of the call. *)
Local Abbreviation keepsRange args :=
  (ra_fromBlockHeight args + ra_count args = fromBlockHeight + count /\
   0 < ra_count args /\
   addresses `prefix_of` ra_addresses args).

Lemma historical_step_keepsRange (i : Input RawTransactions RawMerkleBlock) s :
  (forall args, restartArgs s = Some args -> keepsRange args) ->
  (forall args, restartArgs (final (step' i s)) = Some args -> keepsRange args) /\
  (forall args, In (SubscribeWithRetries args) (calls (step' i s)) ->
                keepsRange args).
Proof.
  intros Hinv.
  destruct i as [rawTx rawMb|b h na|b e|e| |k res|e|st rt]; unfold_h; crush;
    (split; intros args Hx; simpl in Hx;
     repeat match goal with
            | H : _ \/ _ |- _ => destruct H
            | H : False |- _ => destruct H
            end;
     simplify_eq/=; zbool; eauto;
     repeat split; try lia; try reflexivity; now apply prefix_app_r).
Qed.

(** X5.  Whatever reaches the handlers of a historical stream, every
    stream they open afterwards ends where the range of the original call
    ends ([fromBlockHeight + count] is kept), asks for at least one block,
    and has a filter that starts with the addresses of the call. *)
Theorem historical_reopens_within_range
    (ins : list (Input RawTransactions RawMerkleBlock)) s args :
  restartArgs s = None ->
  In (SubscribeWithRetries args)
     (concat (map snd (run maxRetries fromBlockHeight count addresses ins s).1)) ->
  ra_fromBlockHeight args + ra_count args = fromBlockHeight + count /\
  0 < ra_count args /\
  addresses `prefix_of` ra_addresses args.
Proof.
  intros Hnone.
  assert (Hinv : forall a, restartArgs s = Some a -> keepsRange a)
    by (rewrite Hnone; discriminate).
  clear Hnone. revert s Hinv.
  induction ins as [|i ins IH]; intros s Hinv; simpl; [intros []|].
  destruct (historical_step_keepsRange i s Hinv) as [Hnext Hcalls].
  intros Hin. apply in_app_or in Hin. destruct Hin as [Hin|Hin].
  - now apply Hcalls.
  - now apply (IH (final (step' i s))).
Qed.


(** X7.  A retry, from the stream error to the settling of the new
    stream: an error other than [CANCELLED], with retries left, opens one
    stream.  When a restart for new addresses is pending the stream is
    opened from the pending restart arguments, wherever the last synced
    block is; when none is pending and blocks remain it is opened from
    the block after the last synced one with the addresses of the call.
    When the opening succeeds the retry counter goes up by one; when it
    fails the failure is emitted as [error] and the counter and
    [historicalSyncStream] are unchanged.  The restart arguments are
    cleared in both cases. *)
Theorem historical_retry_counts s e result :
  isCancelled e = false ->
  currentRetries s < maxRetries ->
  (restartArgs s = None ->
   0 < count - (lastSyncedBlockHeight s - fromBlockHeight + 1)) ->
  let args :=
    match restartArgs s with
    | Some pending => pending
    | None =>
        mkRestartArgs (lastSyncedBlockHeight s + 1)
          (count - (lastSyncedBlockHeight s - fromBlockHeight + 1)) addresses
    end in
  let out :=
    run (RawTransactions := RawTransactions) (RawMerkleBlock := RawMerkleBlock)
      maxRetries fromBlockHeight count addresses
      [StreamError e; Settled (length (inFlight s)) result] s in
  restartArgs out.2 = None /\
  inFlight out.2 = inFlight s /\
  lastSyncedBlockHeight out.2 = lastSyncedBlockHeight s /\
  match result with
  | Normal stream =>
      out.1 = [(Normal tt, [SubscribeWithRetries args]); (Normal tt, [])] /\
      historicalSyncStream out.2 = Some stream /\
      currentRetries out.2 = currentRetries s + 1
  | Throw e' =>
      out.1 = [(Normal tt, [SubscribeWithRetries args]);
               (Normal tt, [Emit (ERROR e')])] /\
      historicalSyncStream out.2 = historicalSyncStream s /\
      currentRetries out.2 = currentRetries s
  end.
Proof.
  intros Hc Hlt Hrem. cbv zeta.
  unfold run. simpl. unfold_h. rewrite Hc. simpl.
  destruct (Z.ltb_spec (currentRetries s) maxRetries); [|lia]. simpl.
  destruct (restartArgs s) as [pending|] eqn:Hra; simpl.
  - rewrite list_lookup_middle by reflexivity. simpl.
    rewrite delete_middle. rewrite app_nil_r.
    destruct result as [stream|e']; simpl; auto 10.
  - specialize (Hrem eq_refl).
    destruct (Z.leb_spec
                (count - (lastSyncedBlockHeight s - fromBlockHeight + 1)) 0);
      [lia|]. simpl.
    rewrite list_lookup_middle by reflexivity. simpl.
    rewrite delete_middle. rewrite app_nil_r.
    destruct result as [stream|e']; simpl; auto 10.
Qed.

(** What reaches the handlers without ending the stream: everything but
    a [CANCELLED] stream error and a sibling that clears the stream. *)
Lemma historical_step_keeps_stream (i : Input RawTransactions RawMerkleBlock) s :
  match i with
  | StreamError e => isCancelled e = false
  | Sibling None _ => False
  | _ => True
  end ->
  is_Some (historicalSyncStream s) ->
  is_Some (historicalSyncStream (final (step' i s))).
Proof.
  intros Hi Hs.
  destruct i as [rawTx rawMb|b h na|b e|e| |k res|e|st rt]; unfold_h;
    try rewrite Hi; crush; eauto; contradiction.
Qed.

(** X8.  [this.historicalSyncStream] is only ever cleared by a
    [CANCELLED] stream error (or by the handlers of a sibling stream).
    Through any other inputs, the [end] of the stream included, it stays
    set, so [startHistoricalSync] keeps throwing [Historical sync is
    already in process] after a sync that ran to its end. *)
Theorem historical_stream_kept_until_cancelled
    (ins : list (Input RawTransactions RawMerkleBlock)) s :
  is_Some (historicalSyncStream s) ->
  Forall (fun i => match i with
                   | StreamError e => isCancelled e = false
                   | Sibling None _ => False
                   | _ => True
                   end) ins ->
  is_Some (historicalSyncStream
             (run maxRetries fromBlockHeight count addresses ins s).2) /\
  forall fromBlockHeight' toBlockHeight' addresses' created,
    startHistoricalSync
      (historicalSyncStream
         (run maxRetries fromBlockHeight count addresses ins s).2)
      fromBlockHeight' toBlockHeight' addresses' created =
    (Throw alreadyInProcess, []).
Proof.
  intros Hs Hins.
  assert (Hkept : is_Some (historicalSyncStream (run' ins s).2)).
  { revert s Hs. induction Hins as [|i ins Hi Hins IH]; intros s Hs; simpl;
      [assumption|].
    apply IH. now apply historical_step_keeps_stream. }
  split; [assumption|].
  intros f t a c. destruct Hkept as [stream Hstream].
  unfold startHistoricalSync. now rewrite Hstream.
Qed.


(** X10.  [stopReadingHistorical] cancels the stream that is set.  The
    [CANCELLED] error this provokes, with no restart scheduled, is
    handled in silence: nothing is emitted and no stream is opened,
    [historicalSyncStream] is cleared, a second [stopReadingHistorical]
    cancels nothing, and [startHistoricalSync] is no longer turned away
    as already in process. *)
Theorem stopReadingHistorical_is_silent s stream e :
  historicalSyncStream s = Some stream ->
  restartArgs s = None ->
  isCancelled e = true ->
  stopReadingHistorical (historicalSyncStream s) = [Cancel stream] /\
  let r :=
    step (RawTransactions := RawTransactions) (RawMerkleBlock := RawMerkleBlock)
      maxRetries fromBlockHeight count addresses (StreamError e) s in
  completion r = Normal tt /\
  calls r = [] /\
  historicalSyncStream (final r) = None /\
  stopReadingHistorical (historicalSyncStream (final r)) = [] /\
  forall fromBlockHeight' toBlockHeight' addresses' created,
    startHistoricalSync (historicalSyncStream (final r))
      fromBlockHeight' toBlockHeight' addresses' created <>
    (Throw alreadyInProcess, []).
Proof.
  intros Hs Hnone Hc. rewrite Hs. split; [reflexivity|].
  cbv zeta. unfold_h. rewrite Hc. simpl. rewrite Hnone. simpl.
  repeat split. intros f t a c. unfold startHistoricalSync.
  crush; discriminate.
Qed.

End Handlers.

Import Stubs.

(** The theorems on a stream for heights 1 to 10 with the address [a]
    and up to 10 retries. *)

Lemma historical_reopens_within_range_witness :
  let ins := [Data None (Some "block"); AcceptMerkleBlock 0 3 ["b"];
              StreamError cancelled] in
  let s := subscribed 1 0 0 in
  let args := mkRestartArgs 4 7 ["a"; "b"] in
  (restartArgs s = None /\
   In (SubscribeWithRetries args)
      (concat (map snd (run (RawTransactions := list string) 10 1 10 ["a"]
                          ins s).1))) /\
  ra_fromBlockHeight args + ra_count args = 1 + 10.
Proof.
  cbv zeta.
  assert (Hin : In (SubscribeWithRetries (Tx := string) (MerkleBlock := string)
                      (mkRestartArgs 4 7 ["a"; "b"]))
                   (concat (map snd
                      (run (RawTransactions := list string) 10 1 10 ["a"]
                         [Data None (Some "block");
                          AcceptMerkleBlock 0 3 ["b"];
                          StreamError cancelled] (subscribed 1 0 0)).1)))
    by (do 2 right; left; reflexivity).
  split; [split; [reflexivity | exact Hin]|].
  exact (proj1 (historical_reopens_within_range (RawTransactions := list string)
                  10 1 10 ["a"]
                  [Data None (Some "block"); AcceptMerkleBlock 0 3 ["b"];
                   StreamError cancelled]
                  (subscribed 1 0 0) (mkRestartArgs 4 7 ["a"; "b"])
                  eq_refl Hin)).
Defined.


Lemma historical_retry_counts_witness :
  let e := newError "Fake stream error" in
  let retried :=
    run (RawTransactions := list string) 10 1 10 ["a"]
      [StreamError e; Settled 0 (Normal 1%nat)] in
  (isCancelled e = false /\ currentRetries historical1 < 10 /\
   restartArgs historical1 = None /\
   0 < 10 - (lastSyncedBlockHeight historical1 - 1 + 1) /\
   currentRetries historicalPending < 10) /\
  (historicalSyncStream (retried historical1).2 = Some 1%nat /\
   currentRetries (retried historical1).2 = 1) /\
  (retried historicalPending).1 =
    [(Normal tt, [SubscribeWithRetries (mkRestartArgs 4 7 ["a"; "b"])]);
     (Normal tt, [])].
Proof.
  cbv zeta. split; [repeat split; reflexivity|]. split.
  - pose proof (historical_retry_counts (RawTransactions := list string)
                  (RawMerkleBlock := string) 10 1 10 ["a"] historical1
                  (newError "Fake stream error") (Normal 1%nat)) as H.
    cbv zeta in H.
    destruct H as (_ & _ & _ & _ & Hstream & Hretries);
      [reflexivity | reflexivity | intros _; reflexivity |].
    split; [exact Hstream | exact Hretries].
  - pose proof (historical_retry_counts (RawTransactions := list string)
                  (RawMerkleBlock := string) 10 1 10 ["a"] historicalPending
                  (newError "Fake stream error") (Normal 1%nat)) as H.
    cbv zeta in H.
    destruct H as (_ & _ & _ & Hout & _);
      [reflexivity | reflexivity | intros Hnone; discriminate Hnone |].
    exact Hout.
Defined.

Lemma historical_stream_kept_until_cancelled_witness :
  let ins := [Data None (Some "block"); AcceptMerkleBlock 0 10 []; StreamEnd] in
  let s := subscribed 1 0 0 in
  is_Some (historicalSyncStream s) /\
  startHistoricalSync
    (historicalSyncStream
       (run (RawTransactions := list string) 10 1 10 ["a"] ins s).2)
    11 20 (Some ["a"]) (Normal 1%nat) =
  (Throw alreadyInProcess, []).
Proof.
  cbv zeta. split; [eexists; reflexivity|].
  apply (historical_stream_kept_until_cancelled (RawTransactions := list string)
           (RawMerkleBlock := string) 10 1 10 ["a"]
           [Data None (Some "block"); AcceptMerkleBlock 0 10 []; StreamEnd]
           (subscribed 1 0 0)).
  - eexists; reflexivity.
  - repeat constructor.
Defined.


Lemma stopReadingHistorical_is_silent_witness :
  let s := historical1 in
  (historicalSyncStream s = Some 0%nat /\ restartArgs s = None /\
   isCancelled cancelled = true) /\
  stopReadingHistorical (historicalSyncStream s) = [Cancel 0] /\
  calls (step (RawTransactions := list string) (RawMerkleBlock := string)
           10 1 10 ["a"] (StreamError cancelled) s) = [].
Proof.
  cbv zeta. split; [repeat split|].
  destruct (stopReadingHistorical_is_silent (RawTransactions := list string)
              (RawMerkleBlock := string) (Tx := string) (MerkleBlock := string)
              10 1 10 ["a"] historical1 0%nat cancelled
              eq_refl eq_refl eq_refl) as (Hstop & _ & Hcalls & _).
  split; [exact Hstop | exact Hcalls].
Defined.

End HistoricalRuns.

(** ** Continuous transaction streams over whole runs *)

Module ContinuousRuns.
Import TransactionsReader TransactionsReader.Continuous.
Import TransactionsReaderMethods.

Ltac unfold_c :=
  cbv beta iota zeta delta
    [step dataHandler appendAddresses acceptMerkleBlock rejectMerkleBlock
     errorHandler beforeReconnectHandler endHandler settled cancelRejected
     set_latch
     try_catch try_finally bind ret throw get put modify call
     completion final calls fst snd] in *.

Section Handlers.
Context {RawTransactions RawMerkleBlock Tx MerkleBlock : Type}.
Context `{!Utils RawTransactions RawMerkleBlock Tx MerkleBlock}.
Variables (fromBlockHeight : Z) (addresses : list string).

Local Abbreviation step' :=
  (step (RawTransactions := RawTransactions) (RawMerkleBlock := RawMerkleBlock)
     fromBlockHeight addresses).
Local Abbreviation run' :=
  (run (RawTransactions := RawTransactions) (RawMerkleBlock := RawMerkleBlock)
     fromBlockHeight addresses).

(** The stream has not gone back before its start, nor has a restart it
    scheduled. *)
Local Abbreviation notBefore s :=
  (fromBlockHeight <= lastSyncedBlockHeight s /\
   forall args, restartArgs s = Some args ->
                fromBlockHeight < ra_fromBlockHeight args).

Lemma continuous_step_notBefore (i : Input RawTransactions RawMerkleBlock) s :
  notBefore s ->
  notBefore (final (step' i s)) /\
  (forall bloomFilter newFromBlockHeight n,
     In (UpdateArguments bloomFilter newFromBlockHeight n) (calls (step' i s)) ->
     fromBlockHeight <= newFromBlockHeight /\ n = 0) /\
  (forall args, In (StartContinuousSync args) (calls (step' i s)) ->
                fromBlockHeight < ra_fromBlockHeight args).
Proof.
  intros [Hlast Hinv].
  destruct i as [rawTx rawMb|na|b h|b e|e| | |res|e|st]; unfold_c; crush;
    (split; [split; [simpl; zbool; try lia
                    |intros args Hx; simpl in Hx; simplify_eq/=; zbool;
                     eauto; try lia]
            |split; [intros bf nf cnt Hx|intros args Hx]; simpl in Hx;
             repeat match goal with
                    | H : _ \/ _ |- _ => destruct H
                    | H : False |- _ => destruct H
                    end;
             simplify_eq/=; zbool; eauto; try lia]).
Qed.

(** X11.  A continuous stream never goes back before its start:
    whatever reaches its handlers, [lastSyncedBlockHeight] stays at or
    above [fromBlockHeight], every [beforeReconnect] passes the updater a
    [fromBlockHeight] at or above it and the count 0, and every restart
    asks for a height above it. *)
Theorem continuous_never_before_start
    (ins : list (Input RawTransactions RawMerkleBlock)) s :
  fromBlockHeight <= lastSyncedBlockHeight s ->
  restartArgs s = None ->
  let out := run fromBlockHeight addresses ins s in
  fromBlockHeight <= lastSyncedBlockHeight out.2 /\
  (forall bloomFilter newFromBlockHeight n,
     In (UpdateArguments bloomFilter newFromBlockHeight n)
        (concat (map snd out.1)) ->
     fromBlockHeight <= newFromBlockHeight /\ n = 0) /\
  (forall args,
     In (StartContinuousSync args) (concat (map snd out.1)) ->
     fromBlockHeight < ra_fromBlockHeight args).
Proof.
  intros Hlast Hnone. cbv zeta.
  assert (Hinv : notBefore s) by (split; [assumption|rewrite Hnone; discriminate]).
  clear Hlast Hnone. revert s Hinv.
  induction ins as [|i ins IH]; intros s Hinv; simpl.
  - split; [apply Hinv|]. split; intros; contradiction.
  - destruct (continuous_step_notBefore i s Hinv) as (Hnext & Hupd & Hrestart).
    destruct (IH _ Hnext) as (IHlast & IHupd & IHrestart).
    split; [assumption|]. split.
    + intros bf nf n Hin. apply in_app_or in Hin. destruct Hin; eauto.
    + intros args Hin. apply in_app_or in Hin. destruct Hin; eauto.
Qed.

(** X12.  [beforeReconnect] folds the addresses generated so far into
    the filter it passes to the updater and then forgets them: with
    nothing accepted in between, a second [beforeReconnect] passes the
    same [fromBlockHeight] with a filter of the original addresses only. *)
Theorem continuous_second_reconnect_drops_addresses s :
  restartArgs s = None ->
  let newFromBlockHeight :=
    if bool_decide (fromBlockHeight = lastSyncedBlockHeight s)
    then fromBlockHeight else lastSyncedBlockHeight s + 1 in
  let out :=
    run (RawTransactions := RawTransactions) (RawMerkleBlock := RawMerkleBlock)
      fromBlockHeight addresses [BeforeReconnect; BeforeReconnect] s in
  out.1 =
    [(Normal tt,
      [UpdateArguments (addresses ++ addressesGenerated s) newFromBlockHeight 0]);
     (Normal tt, [UpdateArguments addresses newFromBlockHeight 0])] /\
  addressesGenerated out.2 = [].
Proof.
  intros Hnone. cbv zeta. unfold run. simpl. unfold_c. rewrite Hnone. simpl.
  rewrite Hnone. simpl.
  destruct (addressesGenerated s) as [|a l]; simpl; rewrite ?app_nil_r; auto.
Qed.

(** X13.  The restart of a continuous stream for generated addresses,
    from [accept] to the new stream: [accept(height)] cancels the stream;
    a [beforeReconnect] that arrives while the restart is pending does
    nothing; the [CANCELLED] error calls [startContinuousSync] for
    [height + 1] with the generated addresses appended, and that call
    gets past the guards of [startContinuousSync] and asks the stream
    factory for exactly that; when the stream has opened the restart
    arguments and the generated addresses are cleared. *)
Theorem continuous_restart_widens_filter s block l height e stream :
  blocks s !! block = Some l -> rejected l = false ->
  restartArgs s = None ->
  1 <= fromBlockHeight <= height ->
  addressesGenerated s <> [] ->
  isCancelled e = true ->
  let args :=
    mkRestartArgs (height + 1) (addresses ++ addressesGenerated s) in
  let out :=
    run (RawTransactions := RawTransactions) (RawMerkleBlock := RawMerkleBlock)
      fromBlockHeight addresses
      [AcceptMerkleBlock block height; BeforeReconnect; StreamError e;
       Settled (Normal stream)] s in
  out.1 = [(Normal tt, [StreamCancel]); (Normal tt, []);
           (Normal tt, [StartContinuousSync args]); (Normal tt, [])] /\
  continuousSyncStream out.2 = Some stream /\
  restartArgs out.2 = None /\
  addressesGenerated out.2 = [] /\
  lastSyncedBlockHeight out.2 = height /\
  forall created,
    (startContinuousSync
       (continuousSyncStream
          (run (RawTransactions := RawTransactions)
             (RawMerkleBlock := RawMerkleBlock) fromBlockHeight addresses
             [AcceptMerkleBlock block height; BeforeReconnect; StreamError e]
             s).2)
       (ra_fromBlockHeight args) (Some (ra_addresses args)) created).2 =
      [CreateContinuousSyncStream (addresses ++ addressesGenerated s)
         (height + 1) 0].
Proof.
  intros Hl Hrej Hnone Hrange Hgen Hc. cbv zeta.
  unfold run. simpl. unfold_c. rewrite Hl, Hrej. simpl.
  destruct (Z.ltb_spec height fromBlockHeight); [lia|]. simpl.
  destruct (addressesGenerated s) as [|a g] eqn:Hg; [congruence|]. simpl.
  rewrite Hc. simpl.
  repeat split.
  intros created. unfold startContinuousSync.
  destruct (addresses ++ a :: g) as [|x xs] eqn:Happ.
  - destruct addresses; discriminate.
  - destruct (Z.ltb_spec (height + 1) 1); [lia|]. reflexivity.
Qed.
End Handlers.

Import Stubs.

(** The theorems on a stream from height 100 with the address [a]. *)

Lemma continuous_never_before_start_witness :
  let ins := [Data None (Some "block"); AcceptMerkleBlock 0 99;
              AcceptMerkleBlock 0 105; BeforeReconnect] in
  let s := subscribed 100 0 in
  let out := run (RawTransactions := list string) 100 ["a"] ins s in
  (100 <= lastSyncedBlockHeight s /\ restartArgs s = None) /\
  100 <= lastSyncedBlockHeight out.2 /\
  In (UpdateArguments (Tx := string) (MerkleBlock := string) ["a"] 106 0)
     (concat (map snd out.1)).
Proof.
  cbv zeta. split; [split; [simpl; lia | reflexivity]|].
  split.
  - apply (continuous_never_before_start (RawTransactions := list string)
             (RawMerkleBlock := string) 100 ["a"]
             [Data None (Some "block"); AcceptMerkleBlock 0 99;
              AcceptMerkleBlock 0 105; BeforeReconnect] (subscribed 100 0)).
    + simpl; lia.
    + reflexivity.
  - simpl. auto 10.
Defined.

Lemma continuous_second_reconnect_drops_addresses_witness :
  let s := (run (RawTransactions := list string) 100 ["a"]
              [Data (Some ["tx"]) None; AppendAddresses ["b"]]
              (subscribed 100 0)).2 in
  restartArgs s = None /\
  (run (RawTransactions := list string) 100 ["a"]
     [BeforeReconnect; BeforeReconnect] s).1 =
    [(Normal tt, [UpdateArguments ["a"; "b"] 100 0]);
     (Normal tt, [UpdateArguments ["a"] 100 0])].
Proof.
  cbv zeta. split; [reflexivity|].
  exact (proj1 (continuous_second_reconnect_drops_addresses
                  (RawTransactions := list string) (RawMerkleBlock := string)
                  100 ["a"]
                  (run (RawTransactions := list string) 100 ["a"]
                     [Data (Some ["tx"]) None; AppendAddresses ["b"]]
                     (subscribed 100 0)).2 eq_refl)).
Defined.

Lemma continuous_restart_widens_filter_witness :
  let s := (run (RawTransactions := list string) 100 ["a"]
              [Data (Some ["tx"]) None; AppendAddresses ["b"];
               Data None (Some "block")]
              (subscribed 100 0)).2 in
  let out :=
    run (RawTransactions := list string) 100 ["a"]
      [AcceptMerkleBlock 0 100; BeforeReconnect; StreamError cancelled;
       Settled (Normal 1%nat)] s in
  (blocks s !! 0%nat = Some freshLatch /\ restartArgs s = None /\
   1 <= 100 <= 100 /\ addressesGenerated s <> [] /\
   isCancelled cancelled = true) /\
  out.1 = [(Normal tt, [StreamCancel]); (Normal tt, []);
           (Normal tt, [StartContinuousSync (mkRestartArgs 101 ["a"; "b"])]);
           (Normal tt, [])] /\
  continuousSyncStream out.2 = Some 1%nat.
Proof.
  cbv zeta. split; [repeat split; try reflexivity; try lia; discriminate|].
  pose proof (continuous_restart_widens_filter (RawTransactions := list string)
                (RawMerkleBlock := string) 100 ["a"]
                (run (RawTransactions := list string) 100 ["a"]
                   [Data (Some ["tx"]) None; AppendAddresses ["b"];
                    Data None (Some "block")]
                   (subscribed 100 0)).2
                0%nat freshLatch 100 cancelled 1%nat) as H.
  cbv zeta in H.
  destruct H as (Hout & Hstream & _);
    [reflexivity | reflexivity | reflexivity | lia | discriminate
    | reflexivity |].
  split; [exact Hout | exact Hstream].
Defined.

End ContinuousRuns.

(** ** The block-headers sync worker *)

Module WorkerProofs.
Import BlockHeadersSyncWorker.

Ltac unfold_w :=
  cbv beta iota zeta delta
    [onStart resolved historicalDataObtainedHandler historicalStopHandler
     historicalErrorHandler execute continuousStopHandler
     try_catch try_finally bind ret throw get put modify call
     completion final calls fst snd] in *.

(** Comparisons of JavaScript numbers among the hypotheses, as
    propositions about the integers they hold. *)
Ltac js_cases :=
  repeat match goal with
         | |- context [js_lt ?a ?b] =>
             let H := fresh "Hlt" in destruct (js_lt a b) eqn:H
         | |- context [js_gt ?a ?b] =>
             let H := fresh "Hgt" in destruct (js_gt a b) eqn:H
         end.

Lemma js_lt_Num (x y : Z) : js_lt (Num x) (Num y) = (x <? y).
Proof. reflexivity. Qed.
Lemma js_gt_Num (x y : Z) : js_gt (Num x) (Num y) = (y <? x).
Proof. simpl. apply Z.gtb_ltb. Qed.

(** X14.  Where [getStartBlockHeight] starts.  With
    [skipSynchronization] it is [max(1, bestBlockHeight -
    maxHeadersToKeep)] when both are integers and [NaN] when the block
    height is missing or either is [NaN].  Without, it is always a number:
    for an integer last synced header height and an integer
    [skipSynchronizationBeforeHeight] (each -1 when [typeof] does not say
    number) it is never below either, it is one of the two or 1, and it
    falls back to 1 only when the last synced height is below 0 and
    [skipSynchronizationBeforeHeight] does not exceed it; a [NaN] last
    synced height gives 1, and a [NaN] [skipSynchronizationBeforeHeight]
    counts for nothing. *)
Theorem getStartBlockHeight_bounds w chainStore syncOptions :
  let options := default (mkSyncOptions None false) syncOptions in
  let lastSynced := default (Num (-1)) (lastSyncedHeaderHeight chainStore) in
  let skipBefore := default (Num (-1)) (skipSynchronizationBeforeHeight options) in
  (skipSynchronization options = true ->
   getStartBlockHeight w chainStore syncOptions =
     match blockHeight chainStore, maxHeadersToKeep w with
     | Some (Num best), Num keep => Num (Z.max 1 (best - keep))
     | _, _ => NaN
     end) /\
  (skipSynchronization options = false ->
   (forall last before,
      lastSynced = Num last -> skipBefore = Num before ->
      exists start,
        getStartBlockHeight w chainStore syncOptions = Num start /\
        last <= start /\ before <= start /\
        (start = last \/ start = before \/
         (start = 1 /\ last <= -1 /\ before <= last))) /\
   (lastSynced = NaN ->
    getStartBlockHeight w chainStore syncOptions = Num 1) /\
   (forall last,
      lastSynced = Num last -> skipBefore = NaN ->
      getStartBlockHeight w chainStore syncOptions =
        Num (if -1 <? last then last else 1))).
Proof.
  cbv zeta. unfold getStartBlockHeight. split.
  - intros ->.
    destruct (blockHeight chainStore) as [[best|]|];
      destruct (maxHeadersToKeep w) as [keep|]; simpl; try reflexivity.
    destruct (Z.ltb_spec (best - keep) 1); f_equal; lia.
  - intros ->. split; [|split].
    + intros last before -> ->. rewrite !js_gt_Num.
      destruct (Z.ltb_spec last before); [eexists; split; [reflexivity|lia]|].
      destruct (Z.ltb_spec (-1) last); eexists; (split; [reflexivity|lia]).
    + intros ->.
      destruct (default (Num (-1)) _); reflexivity.
    + intros last -> ->. simpl. rewrite Z.gtb_ltb.
      destruct (-1 <? last); reflexivity.
Qed.

(** With an integer block height, and an integer [maxHeadersToKeep] when
    it matters, [getStartBlockHeight] is an integer. *)
Lemma getStartBlockHeight_number w chainStore syncOptions best :
  blockHeight chainStore = Some (Num best) ->
  (skipSynchronization (default (mkSyncOptions None false) syncOptions) = true ->
   maxHeadersToKeep w <> NaN) ->
  exists start,
    getStartBlockHeight w chainStore syncOptions = Num start /\
    (skipSynchronization (default (mkSyncOptions None false) syncOptions) = true ->
     forall keep, maxHeadersToKeep w = Num keep -> best - start <= keep).
Proof.
  intros Hbh Hkeep. unfold getStartBlockHeight. rewrite Hbh.
  destruct (skipSynchronization _) eqn:Hskip.
  - destruct (maxHeadersToKeep w) as [keep|] eqn:Hmax;
      [|exfalso; now apply Hkeep]. simpl.
    destruct (Z.ltb_spec (best - keep) 1); eexists;
      (split; [reflexivity|]); intros _ keep' [= <-]; lia.
  - destruct (default (Num (-1)) (lastSyncedHeaderHeight chainStore)) as [l|];
      destruct (default (Num (-1)) (skipSynchronizationBeforeHeight _)) as [k|];
      simpl;
      repeat match goal with
             | |- context [?a >? ?b] => destruct (a >? b)
             end;
      eexists; (split; [reflexivity|discriminate]).
Qed.

(** X15.  The range [onStart] reads.  Whenever [onStart] calls the
    provider's [readHistorical(startFrom, bestBlockHeight)], the worker
    was idle, [bestBlockHeight] is the block height of the chain store (-1
    when [typeof] does not say number), and neither
    [bestBlockHeight < 1] nor [startFrom > bestBlockHeight] nor
    [startFrom < syncCheckpoint] is true.  When the block height is an
    integer and, with [skipSynchronization], [maxHeadersToKeep] is too,
    [startFrom] is an integer with [startFrom <= bestBlockHeight],
    [1 <= bestBlockHeight], at or above an integer sync checkpoint, and
    with [skipSynchronization] the range spans at most [maxHeadersToKeep]
    heights above its start.  [NaN] is not held back by the guards: with
    [skipSynchronization] and a [NaN] [maxHeadersToKeep] an idle worker
    calls [readHistorical(NaN, bestBlockHeight)]. *)
Theorem onStart_reads_a_valid_range w chainStore syncOptions read :
  let skip :=
    skipSynchronization (default (mkSyncOptions None false) syncOptions) in
  (forall fromBlockHeight toBlockHeight,
     In (ProviderReadHistorical fromBlockHeight toBlockHeight)
        (calls (onStart chainStore syncOptions read w)) ->
     state w = IDLE /\
     toBlockHeight = default (Num (-1)) (blockHeight chainStore) /\
     js_lt toBlockHeight (Num 1) = false /\
     js_gt fromBlockHeight toBlockHeight = false /\
     js_lt fromBlockHeight (syncCheckpoint w) = false /\
     (forall best,
        toBlockHeight = Num best ->
        (skip = true -> maxHeadersToKeep w <> NaN) ->
        exists start,
          fromBlockHeight = Num start /\
          1 <= best /\ start <= best /\
          (forall checkpoint,
             syncCheckpoint w = Num checkpoint -> checkpoint <= start) /\
          (skip = true ->
           forall keep, maxHeadersToKeep w = Num keep -> best - start <= keep))) /\
  (forall best,
     state w = IDLE -> skip = true -> maxHeadersToKeep w = NaN ->
     blockHeight chainStore = Some (Num best) -> 1 <= best ->
     In (ProviderReadHistorical NaN (Num best))
        (calls (onStart chainStore syncOptions read w))).
Proof.
  cbv zeta. split.
  - intros f t. unfold_w.
    destruct (bool_decide_reflect (state w = IDLE)) as [Hs|Hs]; simpl;
      [|intros []].
    set (best := default (Num (-1)) (blockHeight chainStore)).
    set (start0 := getStartBlockHeight w chainStore syncOptions).
    set (start := if js_lt start0 (syncCheckpoint w)
                  then syncCheckpoint w else start0).
    destruct (js_lt best (Num 1)) eqn:Hbest; simpl; [intros []|].
    destruct (js_gt start best) eqn:Hgt; simpl; [intros []|].
    assert (Hin : ProviderReadHistorical start best =
                  ProviderReadHistorical f t ->
                  state w = IDLE /\ t = best /\
                  js_lt t (Num 1) = false /\ js_gt f t = false /\
                  js_lt f (syncCheckpoint w) = false /\
                  (forall b,
                     t = Num b ->
                     (skipSynchronization
                        (default (mkSyncOptions None false) syncOptions) = true ->
                      maxHeadersToKeep w <> NaN) ->
                     exists st,
                       f = Num st /\ 1 <= b /\ st <= b /\
                       (forall c, syncCheckpoint w = Num c -> c <= st) /\
                       (skipSynchronization
                          (default (mkSyncOptions None false) syncOptions) = true ->
                        forall keep,
                          maxHeadersToKeep w = Num keep -> b - st <= keep))).
    { intros [= <- <-].
      assert (Hck : js_lt start (syncCheckpoint w) = false).
      { subst start. destruct (js_lt start0 (syncCheckpoint w)) eqn:Hlt;
          [|exact Hlt].
        destruct (syncCheckpoint w) as [c|]; simpl; [apply Z.ltb_irrefl|].
        reflexivity. }
      repeat split; try assumption.
      intros b Hb Hkeep.
      assert (Hstart0 : exists s0,
                 start0 = Num s0 /\
                 (skipSynchronization
                    (default (mkSyncOptions None false) syncOptions) = true ->
                  forall keep, maxHeadersToKeep w = Num keep -> b - s0 <= keep)).
      { subst start0 best.
        destruct (blockHeight chainStore) as [[b'|]|] eqn:Hbh;
          simpl in Hb; try discriminate. injection Hb as ->.
        now apply getStartBlockHeight_number. }
      destruct Hstart0 as (s0 & Hs0 & Hspan).
      rewrite Hb in Hbest, Hgt. simpl in Hbest.
      apply Z.ltb_ge in Hbest.
      subst start. rewrite Hs0 in *.
      destruct (syncCheckpoint w) as [c|] eqn:Hc.
      - rewrite js_lt_Num in *. destruct (Z.ltb_spec s0 c).
        + exists c. rewrite js_gt_Num in Hgt. apply Z.ltb_ge in Hgt.
          repeat split; try lia.
          * intros c' [= <-]. lia.
          * intros Hsk keep Hk. specialize (Hspan Hsk keep Hk). lia.
        + exists s0. rewrite js_gt_Num in Hgt. apply Z.ltb_ge in Hgt.
          repeat split; try lia.
          * intros c' [= <-]. lia.
          * intros Hsk keep Hk. specialize (Hspan Hsk keep Hk). lia.
      - exists s0. simpl in Hgt. rewrite Z.gtb_ltb in Hgt.
        apply Z.ltb_ge in Hgt.
        repeat split; try lia.
        + intros c' [=].
        + intros Hsk keep Hk. specialize (Hspan Hsk keep Hk). lia. }
    destruct read; simpl; intros Hx;
      repeat (destruct Hx as [Hx|Hx]; try discriminate);
      try contradiction; now apply Hin.
  - intros best Hs Hskip Hmax Hbh Hbest. unfold_w.
    rewrite Hs. simpl. rewrite Hbh. simpl.
    destruct (Z.ltb_spec best 1); [lia|]. simpl.
    unfold getStartBlockHeight. rewrite Hskip, Hbh, Hmax. simpl.
    destruct read; simpl; auto 10.
Qed.

(** What [onStart] leaves behind when it gets to its [await]. *)
Lemma onStart_awaits w chainStore syncOptions :
  completion (onStart chainStore syncOptions (Normal tt) w) = Normal tt ->
  state w = IDLE /\
  final (onStart chainStore syncOptions (Normal tt) w) =
    mkWorker (maxHeadersToKeep w) (syncCheckpoint w) HISTORICAL_SYNC
      (Some (default (Num (-1)) (blockHeight chainStore))).
Proof.
  unfold_w.
  destruct (bool_decide_reflect (state w = IDLE)) as [Hs|Hs]; simpl;
    [|discriminate].
  destruct (js_lt _ (Num 1)); simpl; [discriminate|].
  destruct (js_gt _ _); simpl; [discriminate|].
  intros _. split; [assumption|reflexivity].
Qed.


(** X17.  An [error] of the provider while [onStart] awaits its
    promise makes [onStart] throw that error and leaves the worker in
    [STATE_HISTORICAL_SYNC] with its checkpoint unchanged.  Neither
    [STOPPED] nor [HISTORICAL_DATA_OBTAINED] brings it back to idle
    afterwards, and [onStart] and [execute] both throw [Worker is already
    running]. *)
Theorem worker_stuck_after_provider_error w chainStore syncOptions e :
  completion (onStart chainStore syncOptions (Normal tt) w) = Normal tt ->
  let w1 := final (onStart chainStore syncOptions (Normal tt) w) in
  let r := historicalErrorHandler e w1 in
  let w2 := final r in
  completion r = Throw e /\
  state w2 = HISTORICAL_SYNC /\
  syncCheckpoint w2 = syncCheckpoint w /\
  (forall progress,
     state (final (historicalStopHandler progress w2)) = HISTORICAL_SYNC /\
     state (final (historicalDataObtainedHandler progress w2)) = HISTORICAL_SYNC) /\
  (forall chainStore' syncOptions' read,
     onStart chainStore' syncOptions' read w2 =
       (Throw (alreadyRunning HISTORICAL_SYNC), w2, [])) /\
  (forall chainStore' started,
     execute chainStore' started w2 =
       (Throw (alreadyRunning HISTORICAL_SYNC), w2, [])).
Proof.
  intros Hok. destruct (onStart_awaits _ _ _ Hok) as (Hs & ->).
  cbv zeta. unfold_w. simpl. repeat split.
Qed.

(** X20.  What the constructor lets through, and [execute] on a fresh
    worker.  The constructor takes [options.maxHeadersToKeep] when
    [typeof] says number and [MAX_HEADERS_TO_KEEP] otherwise, and throws
    only when that is below [MIN_HEADERS_TO_KEEP]: an integer it accepts
    is at least [MIN_HEADERS_TO_KEEP], and [NaN], which is below nothing,
    is accepted too.  [execute] on the worker it returns, before any
    [onStart], throws [Please read historical data first] whenever the
    block height of the chain store is anything but -1; when the store
    holds no number, or -1, the guard lets it through and it starts the
    continuous sync from height -1. *)
Theorem execute_on_a_fresh_worker maxHeadersToKeepOption w :
  constructor maxHeadersToKeepOption = Normal w ->
  maxHeadersToKeep w =
    default (Num MAX_HEADERS_TO_KEEP) maxHeadersToKeepOption /\
  (forall keep, maxHeadersToKeep w = Num keep -> MIN_HEADERS_TO_KEEP <= keep) /\
  constructor (Some NaN) = Normal (mkWorker NaN (Num (-1)) IDLE None) /\
  forall chainStore started,
    let best := default (Num (-1)) (blockHeight chainStore) in
    (best <> Num (-1) ->
     execute chainStore started w =
       (Throw (checkpointNotReached (Num (-1)) best), w, [])) /\
    (best = Num (-1) ->
     calls (execute chainStore started w) =
       [ProviderOn P_CHAIN_UPDATED ContinuousChainUpdateHandler;
        ProviderOn P_ERROR BlockHeadersProviderErrorHandler;
        ProviderOnce P_STOPPED BlockHeadersProviderStopHandler;
        ProviderStartContinuousSync (Num (-1))]).
Proof.
  unfold constructor.
  destruct (js_lt _ (Num MIN_HEADERS_TO_KEEP)) eqn:Hlt; [discriminate|].
  intros [= <-]. split; [reflexivity|]. split; [|split; [reflexivity|]].
  - simpl. intros keep Hkeep. rewrite Hkeep in Hlt. simpl in Hlt.
    now apply Z.ltb_ge in Hlt.
  - intros chainStore started. cbv zeta. unfold_w.
    cbn [state syncCheckpoint]. rewrite bool_decide_eq_true_2 by reflexivity.
    cbn [negb].
    generalize (default (Num (-1)) (blockHeight chainStore)). intros best. split.
    + intros Hne.
      assert (Heq : js_strict_eq (Num (-1)) best = false).
      { destruct best as [b|]; [|reflexivity].
        change (js_strict_eq (Num (-1)) (Num b)) with (-1 =? b).
        apply Z.eqb_neq. congruence. }
      rewrite Heq. reflexivity.
    + intros ->. simpl. destruct started as [[]|e]; reflexivity.
Qed.

(** X21.  While a continuous sync runs the worker is in
    [STATE_CONTINUOUS_SYNC] and a second [execute] throws [Worker is
    already running] without attaching anything.  The [STOPPED] listener
    of [execute] removes the two listeners [execute] attached with [on]
    and puts the worker back exactly as it was before [execute], so
    [execute] is let through again. *)
Theorem execute_again_after_stop w chainStore :
  completion (execute chainStore (Normal tt) w) = Normal tt ->
  let w1 := final (execute chainStore (Normal tt) w) in
  state w1 = CONTINUOUS_SYNC /\
  (forall chainStore' started,
     execute chainStore' started w1 =
       (Throw (alreadyRunning CONTINUOUS_SYNC), w1, [])) /\
  continuousStopHandler w1 =
    (Normal tt, w,
     [ProviderRemoveListener P_CHAIN_UPDATED ContinuousChainUpdateHandler;
      ProviderRemoveListener P_ERROR BlockHeadersProviderErrorHandler]) /\
  completion (execute chainStore (Normal tt) (final (continuousStopHandler w1))) =
    Normal tt.
Proof.
  intros Hok. cbv zeta.
  assert (Hfinal : final (execute chainStore (Normal tt) w) =
                   set_state CONTINUOUS_SYNC w /\ state w = IDLE).
  { revert Hok. unfold_w.
    destruct (bool_decide_reflect (state w = IDLE)) as [Hs|Hs]; simpl;
      [|discriminate].
    destruct (js_strict_eq _ _); simpl; [|discriminate]. auto. }
  destruct Hfinal as [Hfinal Hidle]. rewrite Hfinal.
  assert (Hback : continuousStopHandler (set_state CONTINUOUS_SYNC w) =
                  (Normal tt, w,
                   [ProviderRemoveListener P_CHAIN_UPDATED
                      ContinuousChainUpdateHandler;
                    ProviderRemoveListener P_ERROR
                      BlockHeadersProviderErrorHandler])).
  { unfold_w. simpl. destruct w as [m c st h]. simpl in Hidle. subst st.
    reflexivity. }
  rewrite Hback. repeat split. exact Hok.
Qed.

Import BlockHeadersProvider.

(** X18.  The worker and the provider agree on heights: for the
    [CHAIN_UPDATED] event the provider emits for a batch, however many
    headers of the batch the chain dropped, the height the
    [chainUpdateHandler] of [BlockHeadersSyncWorker.js] computes is that
    of the last header of the batch, [headHeight + headers.length - 1].
    At that height the handler does nothing when the store is there
    already, emits an [Error] object as an event name (so no [error]
    event) when the store is above, and otherwise, also when the store
    holds no number or [NaN], asks for the block. *)
Theorem chain_update_reaches_batch_top {Header Chain RS : Type}
    `{!SpvChain Header Chain} `{!ReaderMethods RS}
    (p : Provider Header Chain RS) headers headHeight accepted chain'
    newHeaders batchHeadHeight chainStore :
  addHeaders headers headHeight (spvChain p) = (Normal accepted, chain') ->
  In (newHeaders, batchHeadHeight)
     (chainUpdates (calls (handleHeaders headers headHeight p))) ->
  let top := headHeight + Z.of_nat (length headers) - 1 in
  newChainHeight newHeaders batchHeadHeight = top /\
  chainUpdateHandler newHeaders batchHeadHeight chainStore =
    match blockHeight chainStore with
    | Some (Num known) =>
        if top =? known then []
        else if top <? known then [EmitNamed (heightRegressed top known)]
        else [GetBlockByHeight top]
    | _ => [GetBlockByHeight top]
    end.
Proof.
  intros Hadd Hin. cbv zeta.
  assert (Htop : newChainHeight newHeaders batchHeadHeight =
                 headHeight + Z.of_nat (length headers) - 1).
  { revert Hin. ProviderLifecycle.unfold_p. rewrite Hadd. simpl.
    destruct accepted as [|h t]; simpl; [intros []|].
    assert (Hone : In (newHeaders, batchHeadHeight)
                     [(h :: t,
                       headHeight +
                       (Z.of_nat (length headers) - Z.of_nat (S (length t))))] ->
                   newChainHeight newHeaders batchHeadHeight =
                   headHeight + Z.of_nat (length headers) - 1).
    { intros [[= <- <-]|[]]. unfold newChainHeight. simpl length.
      destruct (Nat.ltb_spec 1 (S (length t))); lia. }
    destruct (listenerThrows p _) as [thrown|]; simpl; [|exact Hone].
    destruct (instanceOfSPVError thrown); simpl; [exact Hone|].
    destruct (blockHeadersReader p); simpl; [|exact Hone].
    destruct (Nat.eqb (errorListeners p) 0); simpl; [exact Hone|].
    destruct (listenerThrows p (ERROR thrown)); exact Hone. }
  split; [exact Htop|].
  unfold chainUpdateHandler. rewrite Htop. reflexivity.
Qed.

Import Stubs.

(** The theorems on a worker as its constructor leaves it, with the best
    block at height 1000. *)

Lemma getStartBlockHeight_bounds_witness :
  let w := mkWorker (Num 5000) (Num (-1)) BlockHeadersSyncWorker.IDLE None in
  getStartBlockHeight w (mkChainState (Some (Num 9000)) None)
    (Some (mkSyncOptions None true)) = Num 4000 /\
  exists start,
    getStartBlockHeight w (mkChainState (Some (Num 9000)) (Some (Num 0))) None =
      Num start /\
    0 <= start.
Proof.
  cbv zeta. split.
  - exact (proj1 (getStartBlockHeight_bounds
                    (mkWorker (Num 5000) (Num (-1)) BlockHeadersSyncWorker.IDLE
                       None)
                    (mkChainState (Some (Num 9000)) None)
                    (Some (mkSyncOptions None true))) eq_refl).
  - destruct (proj1 (proj2 (getStartBlockHeight_bounds
                       (mkWorker (Num 5000) (Num (-1))
                          BlockHeadersSyncWorker.IDLE None)
                       (mkChainState (Some (Num 9000)) (Some (Num 0))) None)
                       eq_refl) 0 (-1) eq_refl eq_refl)
      as (start & Hstart & Hlast & _).
    exists start. split; [exact Hstart | exact Hlast].
Defined.

Lemma onStart_reads_a_valid_range_witness :
  let w := mkWorker (Num 5000) (Num (-1)) BlockHeadersSyncWorker.IDLE None in
  let chainStore := mkChainState (Some (Num 1000)) (Some (Num 400)) in
  In (ProviderReadHistorical (Num 400) (Num 1000))
     (calls (onStart chainStore None (Normal tt) w)) /\
  BlockHeadersSyncWorker.state w = BlockHeadersSyncWorker.IDLE /\
  In (ProviderReadHistorical NaN (Num 1000))
     (calls (onStart chainStore (Some (mkSyncOptions None true)) (Normal tt)
               (mkWorker NaN (Num (-1)) BlockHeadersSyncWorker.IDLE None))).
Proof.
  cbv zeta.
  assert (Hin : In (ProviderReadHistorical (Num 400) (Num 1000))
                   (calls (onStart
                             (mkChainState (Some (Num 1000)) (Some (Num 400)))
                             None (Normal tt)
                             (mkWorker (Num 5000) (Num (-1))
                                BlockHeadersSyncWorker.IDLE None))))
    by (simpl; auto 10).
  split; [exact Hin|]. split.
  - exact (proj1 (proj1 (onStart_reads_a_valid_range
                           (mkWorker (Num 5000) (Num (-1))
                              BlockHeadersSyncWorker.IDLE None)
                           (mkChainState (Some (Num 1000)) (Some (Num 400)))
                           None (Normal tt)) (Num 400) (Num 1000) Hin)).
  - apply (proj2 (onStart_reads_a_valid_range
                    (mkWorker NaN (Num (-1)) BlockHeadersSyncWorker.IDLE None)
                    (mkChainState (Some (Num 1000)) (Some (Num 400)))
                    (Some (mkSyncOptions None true)) (Normal tt)) 1000);
      try reflexivity. lia.
Defined.


Lemma worker_stuck_after_provider_error_witness :
  let w := mkWorker (Num 5000) (Num (-1)) BlockHeadersSyncWorker.IDLE None in
  let chainStore := mkChainState (Some (Num 1000)) (Some (Num 400)) in
  let w1 := final (onStart chainStore None (Normal tt) w) in
  let w2 := final (historicalErrorHandler (newError "test") w1) in
  completion (onStart chainStore None (Normal tt) w) = Normal tt /\
  BlockHeadersSyncWorker.state w2 = BlockHeadersSyncWorker.HISTORICAL_SYNC /\
  completion (onStart chainStore None (Normal tt) w2) =
    Throw (alreadyRunning BlockHeadersSyncWorker.HISTORICAL_SYNC).
Proof.
  cbv zeta. split; [reflexivity|].
  destruct (worker_stuck_after_provider_error
              (mkWorker (Num 5000) (Num (-1)) BlockHeadersSyncWorker.IDLE None)
              (mkChainState (Some (Num 1000)) (Some (Num 400))) None
              (newError "test") eq_refl)
    as (_ & Hstate & _ & _ & Hstart & _).
  split; [exact Hstate|].
  exact (f_equal (fun r => completion r)
           (Hstart (mkChainState (Some (Num 1000)) (Some (Num 400))) None
              (Normal tt))).
Defined.

Lemma execute_on_a_fresh_worker_witness :
  let w := mkWorker (Num 5000) (Num (-1)) BlockHeadersSyncWorker.IDLE None in
  constructor None = Normal w /\
  execute (mkChainState (Some (Num 1000)) None) (Normal tt) w =
    (Throw (checkpointNotReached (Num (-1)) (Num 1000)), w, []).
Proof.
  cbv zeta. split; [reflexivity|].
  destruct (execute_on_a_fresh_worker None
              (mkWorker (Num 5000) (Num (-1)) BlockHeadersSyncWorker.IDLE None)
              eq_refl)
    as (_ & _ & _ & Hexecute).
  apply (Hexecute (mkChainState (Some (Num 1000)) None) (Normal tt)).
  discriminate.
Defined.

Lemma execute_again_after_stop_witness :
  let w := mkWorker (Num 5000) (Num 1000) BlockHeadersSyncWorker.IDLE None in
  let chainStore := mkChainState (Some (Num 1000)) (Some (Num 1000)) in
  let w1 := final (execute chainStore (Normal tt) w) in
  completion (execute chainStore (Normal tt) w) = Normal tt /\
  BlockHeadersSyncWorker.state w1 = BlockHeadersSyncWorker.CONTINUOUS_SYNC /\
  final (continuousStopHandler w1) = w.
Proof.
  cbv zeta. split; [reflexivity|].
  destruct (execute_again_after_stop
              (mkWorker (Num 5000) (Num 1000) BlockHeadersSyncWorker.IDLE None)
              (mkChainState (Some (Num 1000)) (Some (Num 1000))) eq_refl)
    as (Hstate & _ & Hback & _).
  split; [exact Hstate|].
  exact (f_equal (fun r => final r) Hback).
Defined.

Lemma chain_update_reaches_batch_top_witness :
  let p := provider BlockHeadersProvider.CONTINUOUS_SYNC droppingChain in
  (addHeaders [10; 11; 12] 1 (spvChain p) = (Normal [10; 11], droppingChain) /\
   In ([10; 11], 2) (chainUpdates (calls (handleHeaders [10; 11; 12] 1 p)))) /\
  newChainHeight [10; 11] 2 = 3 /\
  chainUpdateHandler [10; 11] 2 (mkChainState (Some (Num 3)) None) = [].
Proof.
  cbv zeta.
  assert (Hin : In ([10; 11], 2)
                   (chainUpdates
                      (calls (handleHeaders [10; 11; 12] 1
                                (provider BlockHeadersProvider.CONTINUOUS_SYNC
                                   droppingChain)))))
    by (left; reflexivity).
  split; [split; [reflexivity | exact Hin]|].
  exact (chain_update_reaches_batch_top
           (provider BlockHeadersProvider.CONTINUOUS_SYNC droppingChain)
           [10; 11; 12] 1 [10; 11] droppingChain [10; 11] 2
           (mkChainState (Some (Num 3)) None) eq_refl Hin).
Defined.

End WorkerProofs.

(** ** Decoding a protocol entity *)

Module DecodeProofs.
Import DecodeProtocolEntity.

Lemma byteValue_range (b : Byte.byte) : 0 <= byteValue b < 256.
Proof.
  unfold byteValue. pose proof (Byte.to_N_bounded b). lia.
Qed.

Lemma slice_to_end (start : nat) (buf : list Byte.byte) :
  slice start (length buf) buf = drop start buf.
Proof.
  unfold slice. apply take_ge. rewrite length_drop. lia.
Qed.

Section Decode.
Context {Entity : Type}.
Variable decode : list Byte.byte -> string + Entity.
Variable outOfRange : string.

(** X19.  [decodeProtocolEntity] returns [[protocolVersion, rawEntity]]
    exactly when the buffer has at least four bytes, [protocolVersion] is
    the little-endian number in the first four, the compatibility map has
    an entry for the current version, [protocolVersion] lies between that
    entry and the current version, and the rest of the buffer decodes to
    [rawEntity]; the version returned is below [2^32]. *)
Theorem decodeProtocolEntity_accepts versionCompatibilityMap buffer
    currentProtocolVersion protocolVersion rawEntity :
  decodeProtocolEntity decode outOfRange versionCompatibilityMap buffer
    currentProtocolVersion = inr (protocolVersion, rawEntity) <->
  exists b0 b1 b2 b3 payload minimalProtocolVersion,
    buffer = b0 :: b1 :: b2 :: b3 :: payload /\
    protocolVersion =
      byteValue b0 + 256 * byteValue b1 + 65536 * byteValue b2
      + 16777216 * byteValue b3 /\
    versionCompatibilityMap !! currentProtocolVersion =
      Some minimalProtocolVersion /\
    minimalProtocolVersion <= protocolVersion <= currentProtocolVersion /\
    0 <= protocolVersion < 2 ^ 32 /\
    decode payload = inr rawEntity.
Proof.
  unfold decodeProtocolEntity. rewrite slice_to_end.
  unfold slice, readUInt32LE. split.
  - destruct buffer as [|b0 [|b1 [|b2 [|b3 payload]]]]; simpl; try discriminate.
    rewrite Z.gtb_ltb.
    destruct (Z.ltb_spec currentProtocolVersion
                (byteValue b0 + byteValue b1 * 2 ^ 8 + byteValue b2 * 2 ^ 16
                 + byteValue b3 * 2 ^ 24)); [discriminate|].
    destruct (versionCompatibilityMap !! currentProtocolVersion)
      as [minimal|] eqn:Hmap; [|discriminate].
    destruct (Z.ltb_spec
                (byteValue b0 + byteValue b1 * 2 ^ 8 + byteValue b2 * 2 ^ 16
                 + byteValue b3 * 2 ^ 24) minimal); [discriminate|].
    rewrite drop_0.
    destruct (decode payload) as [msg|entity] eqn:Hdec; [discriminate|].
    intros [= <- <-].
    pose proof (byteValue_range b0). pose proof (byteValue_range b1).
    pose proof (byteValue_range b2). pose proof (byteValue_range b3).
    exists b0, b1, b2, b3, payload, minimal. repeat split; auto; lia.
  - intros (b0 & b1 & b2 & b3 & payload & minimal & -> & -> & Hmap & Hrange
            & _ & Hdec).
    simpl. rewrite Z.gtb_ltb.
    destruct (Z.ltb_spec currentProtocolVersion
                (byteValue b0 + byteValue b1 * 2 ^ 8 + byteValue b2 * 2 ^ 16
                 + byteValue b3 * 2 ^ 24)); [lia|].
    rewrite Hmap.
    destruct (Z.ltb_spec
                (byteValue b0 + byteValue b1 * 2 ^ 8 + byteValue b2 * 2 ^ 16
                 + byteValue b3 * 2 ^ 24) minimal); [lia|].
    rewrite drop_0, Hdec. f_equal. f_equal. lia.
Qed.

End Decode.

(** The theorem on the four bytes [01 00 00 00] followed by one payload
    byte, with versions 1 to 2 compatible. *)
Lemma decodeProtocolEntity_accepts_witness :
  let decode := fun payload : list Byte.byte => inr (B := nat) (length payload) in
  let buffer := [Byte.x01; Byte.x00; Byte.x00; Byte.x00; Byte.xa0] in
  decodeProtocolEntity (Entity := nat) decode "out of range" {[ 2 := 1 ]}
    buffer 2 = inr (1, 1%nat).
Proof.
  cbv zeta.
  apply (proj2 (decodeProtocolEntity_accepts
                  (fun payload : list Byte.byte => inr (length payload))
                  "out of range" {[ 2 := 1 ]}
                  [Byte.x01; Byte.x00; Byte.x00; Byte.x00; Byte.xa0] 2 1 1%nat)).
  exists Byte.x01, Byte.x00, Byte.x00, Byte.x00, [Byte.xa0], 1.
  repeat split; try reflexivity; vm_compute; congruence.
Defined.

End DecodeProofs.
